(** * The type-reflection transformer of @deepkit/type-compiler

    A shallow embedding of the instruction set, the pack/unpack codec, the
    AST-to-instruction extractor with its resolver, the reflection-mode
    lookup and the decorators of classes and functions, followed by the
    properties of each.

    Conventions of the embedding.
    - A JavaScript number that holds an integer is a [Z]; the opcode array
      [ops] mixes opcodes and literal-stack addresses, so it is a [list Z].
    - A JavaScript string is a [string] whose characters are the code units
      below 256.
    - An object (an AST node, a node made by the factory) carries a number
      that stands for its identity: [===] on objects compares that number.
    - The array [ops] of the extractor can also hold a value that is no
      number: what the object [knownClasses] inherits from
      [Object.prototype], pushed for a type reference of such a name. The
      negative number [inheritedValue] stands for it, where opcodes and
      addresses are never negative; [packExtracted], the call of [pack] on
      what the extractor wrote, is where [BigInt] throws on it.
    - A recursion that the source leaves unbounded (resolving a reference may
      lead back to the type being extracted) takes a [fuel : nat]; the result
      [None] says that the call did not return within the fuel, and a call
      that returns with no fuel at all is one that overflows the stack of
      calls in the source. [None] is also the result of a call that throws:
      [pack] on an inherited value, the factory on a missing name.
    - What the host gives (the checker, the emit resolver, the file system,
      [getNameAsString] of [reflection-ast]) is taken as given: functions of
      a [Host], and the list of what the probes of [tsconfig.json] find.

    Left out: what is written to the console and the visitor of
    [transformSourceFile]. *)

From Stdlib Require Import ZArith List String Ascii Bool Lia.
Import ListNotations.

Local Open Scope Z_scope.

#[local] Set Warnings "-register-all".

(** ** The instruction set *)

Module ReflectionOp.
Definition end_ : Z := 0.
Definition any : Z := 1.
Definition void : Z := 2.
Definition string : Z := 3.
Definition number : Z := 4.
Definition boolean : Z := 5.
Definition bigint : Z := 6.
Definition null : Z := 7.
Definition undefined : Z := 8.
Definition literal : Z := 9.
Definition function : Z := 10.
Definition method : Z := 11.
Definition methodSignature : Z := 12.
Definition property : Z := 13.
Definition propertySignature : Z := 14.
Definition constructor : Z := 15.
Definition class : Z := 16.
Definition optional : Z := 17.
Definition private : Z := 18.
Definition protected : Z := 19.
Definition abstract : Z := 20.
Definition enum : Z := 21.
Definition set : Z := 22.
Definition map : Z := 23.
Definition constEnum : Z := 24.
Definition array : Z := 25.
Definition union : Z := 26.
Definition intersection : Z := 27.
Definition indexSignature : Z := 28.
Definition objectLiteral : Z := 29.
Definition mappedType : Z := 30.
Definition frame : Z := 31.
Definition date : Z := 32.
Definition int8Array : Z := 33.
Definition uint8ClampedArray : Z := 34.
Definition uint8Array : Z := 35.
Definition int16Array : Z := 36.
Definition uint16Array : Z := 37.
Definition int32Array : Z := 38.
Definition uint32Array : Z := 39.
Definition float32Array : Z := 40.
Definition float64Array : Z := 41.
Definition bigInt64Array : Z := 42.
Definition arrayBuffer : Z := 43.
Definition promise : Z := 44.
Definition push : Z := 45.
Definition query : Z := 46.
Definition condition : Z := 47.
Definition extends : Z := 48.
End ReflectionOp.

Definition packSizeByte : Z := 6.

Definition packSize : Z := 2 ^ packSizeByte.

(** ** Syntax shared by the stack and the AST *)

Inductive SyntaxKind :=
| StringKeyword | NumberKeyword | BooleanKeyword | BigIntKeyword
| VoidKeyword | NullKeyword | UndefinedKeyword | AnyKeyword
| UnknownKeyword | NeverKeyword | ObjectKeyword | SymbolKeyword
| TrueKeyword | FalseKeyword
| StringLiteralKind | NumericLiteralKind | BigIntLiteralKind
| PrefixUnaryExpressionKind
| PrivateKeyword | ProtectedKeyword | PublicKeyword | AbstractKeyword
| StaticKeyword | ReadonlyKeyword
| ExtendsKeyword | ImplementsKeyword
| MethodSignatureKind | CallSignatureKind | ConstructSignatureKind
| GetAccessorKind | SetAccessorKind | SemicolonClassElementKind
| TupleTypeKind | IntersectionTypeKind | FunctionTypeKind
| TypeQueryKind | TypeOperatorKind | ConditionalTypeKind
| ModuleDeclarationKind | VariableDeclarationKind | TypeParameterKind.

Definition SyntaxKind_eq_dec (a b : SyntaxKind) : {a = b} + {a <> b}.
Proof. decide equality. Defined.

Definition SyntaxKind_eqb (a b : SyntaxKind) : bool :=
  if SyntaxKind_eq_dec a b then true else false.

(** An identifier: its text and its position in the file ([-1] when the
    factory made it). *)
Record Identifier := { text : string; pos : Z }.

(** [escapeLeadingUnderscores] of the host: the key under which a name is
    kept in symbol tables. *)
Definition escapedText (i : Identifier) : string :=
  match text i with
  | String "_" (String "_" _) => String "_" (text i)
  | _ => text i
  end.

Inductive EntityName :=
| EntityIdentifier (name : Identifier)
| QualifiedName (left : EntityName) (right : Identifier).

(** The expression inside a literal type: [node.literal]. *)
Record LiteralExpr := {
  literalKind : SyntaxKind;
  literalId : nat;
  literalText : string
}.

(** What [createAccessorForEntityName] builds from a qualified name. *)
Inductive AccessExpr :=
| AccessIdentifier (name : Identifier)
| PropertyAccessExpression (expression : AccessExpr) (name : Identifier).

Fixpoint createAccessorForEntityName (e : EntityName) : AccessExpr :=
  match e with
  | EntityIdentifier i => AccessIdentifier i
  | QualifiedName l r => PropertyAccessExpression (createAccessorForEntityName l) r
  end.

(** The node [() => body] made by [createArrowFunction]; [arrowId] counts
    the nodes the factory has made and is the identity of this one. *)
Record ArrowRef := { arrowId : nat; arrowBody : AccessExpr }.

(** ** The literal stack and the packed form *)

Inductive StackEntry :=
| EString (s : string)
| ENumber (n : Z)
| EBoolean (b : bool)
| ELiteralNode (l : LiteralExpr)
| EArrow (a : ArrowRef).

Record PackStruct := { ops : list Z; stack : list StackEntry }.

(** [Packed = string | [...StackEntry[], string]]. *)
Inductive Packed :=
| PackedString (s : string)
| PackedArray (items : list StackEntry).

(** The argument of [pack]: [PackStruct | ReflectionOp[]]. *)
Inductive PackInput :=
| OfStruct (p : PackStruct)
| OfOps (o : list Z).

(** *** pack *)

(** The loop [packedOp += BigInt(ops[i]) * BigInt(packSize) ** BigInt(i)]. *)
Fixpoint packLoop (ops : list Z) (i : Z) (packedOp : Z) : Z :=
  match ops with
  | [] => packedOp
  | op :: rest => packLoop rest (i + 1) (packedOp + op * packSize ^ i)
  end.

Definition digitChar (d : Z) : ascii :=
  if d <? 10 then ascii_of_nat (Z.to_nat (48 + d))
  else ascii_of_nat (Z.to_nat (87 + d)).

Fixpoint digitsOf (fuel : nat) (radix n : Z) (acc : string) : string :=
  match fuel with
  | O => acc
  | S fuel' =>
      let acc' := String (digitChar (n mod radix)) acc in
      if n / radix =? 0 then acc' else digitsOf fuel' radix (n / radix) acc'
  end.

(** [BigInt.prototype.toString(radix)]. *)
Definition bigIntToString (n radix : Z) : string :=
  let digits m := digitsOf (S (Z.to_nat (Z.log2 m))) radix m EmptyString in
  if n =? 0 then "0"%string
  else if n <? 0 then String "-" (digits (- n))
  else digits n.

Definition pack (packOrOps : PackInput) : Packed :=
  let ops := match packOrOps with OfOps o => o | OfStruct p => ops p end in
  let packedOp := packLoop ops 0 0 in
  let opNumbers := bigIntToString packedOp 36 in
  match packOrOps with
  | OfStruct p =>
      match stack p with
      | [] => PackedString opNumbers
      | _ :: _ => PackedArray (stack p ++ [EString opNumbers])
      end
  | OfOps _ => PackedString opNumbers
  end.

(** *** unpack *)

(** [s.slice(-n)]: the last [n] characters of [s]. *)
Definition sliceLast (n : nat) (s : string) : string :=
  substring (String.length s - n) n s.

(** [s.slice(0, -n)]: [s] without its last [n] characters. *)
Definition sliceDropLast (n : nat) (s : string) : string :=
  substring 0 (String.length s - n) s.

(** [StrWhiteSpaceChar] among the code units below 256. *)
Definition isWhiteSpace (c : ascii) : bool :=
  let n := nat_of_ascii c in
  ((9 <=? n) && (n <=? 13))%nat || (n =? 32)%nat || (n =? 160)%nat.

Fixpoint trimStart (s : string) : string :=
  match s with
  | String c rest => if isWhiteSpace c then trimStart rest else s
  | EmptyString => EmptyString
  end.

(** The value of a character as a digit of the given radix. *)
Definition digitValue (radix : Z) (c : ascii) : option Z :=
  let n := Z.of_nat (nat_of_ascii c) in
  let v := if (48 <=? n) && (n <=? 57) then Some (n - 48)
           else if (97 <=? n) && (n <=? 122) then Some (n - 87)
           else if (65 <=? n) && (n <=? 90) then Some (n - 55)
           else None in
  match v with
  | Some d => if d <? radix then Some d else None
  | None => None
  end.

(** The longest prefix of digits, read as an integer; [None] when there is
    no digit at all. *)
Fixpoint readDigits (radix : Z) (s : string) (acc : option Z) : option Z :=
  match s with
  | String c rest =>
      match digitValue radix c with
      | Some d =>
          readDigits radix rest
            (Some (match acc with Some a => a * radix + d | None => d end))
      | None => acc
      end
  | EmptyString => acc
  end.

(** The nearest double of an integer, ties to even: the conversion of a
    mathematical value to a Number. Below [2 ^ 53] it is the integer itself.
    From there on [parseInt] may approximate in a radix such as 36, and
    engines do so in their own way: the properties use the value of
    [parseInt] only below [2 ^ 53]. *)
Definition roundToDouble (z : Z) : Z :=
  let a := Z.abs z in
  if a <? 2 ^ 53 then z
  else
    let e := Z.log2 a - 52 in
    let q := a / 2 ^ e in
    let r := a mod 2 ^ e in
    let half := 2 ^ (e - 1) in
    let q' := if (half <? r) || ((r =? half) && Z.odd q) then q + 1 else q in
    Z.sgn z * (q' * 2 ^ e).

(** [parseInt(s, radix)] for a radix other than 16; [None] is [NaN]. Exact
    where the integer read is below [2 ^ 53]; above, the nearest double
    stands for the approximation that the engine makes. *)
Definition parseInt (s : string) (radix : Z) : option Z :=
  let t := trimStart s in
  let '(sign, t) :=
    match t with
    | String "-" rest => (-1, rest)
    | String "+" rest => (1, rest)
    | _ => (1, t)
    end in
  match readDigits radix t None with
  | Some m => Some (roundToDouble (sign * m))
  | None => None
  end.

(** [(ops / 2 ** (packSizeByte * i)) & (packSize - 1)], where [ops] is the
    double that [parseInt] returned, an integer: the division is exact on
    doubles, [&] truncates its operand towards zero and keeps the low bits
    of the two's complement; [NaN & x] is [0]. *)
Definition slot (ops : option Z) (i : Z) : Z :=
  match ops with
  | Some d => Z.land (Z.quot d (2 ^ (packSizeByte * i))) (packSize - 1)
  | None => 0
  end.

(** The loop [for (let i = 0; ; i++)]. *)
Fixpoint unpackSlots (fuel : nat) (ops : option Z) (i : Z) (decodedOps : list Z)
  : option (list Z) :=
  let op := slot ops i in
  if op =? 0 then Some decodedOps
  else match fuel with
       | O => None
       | S fuel' => unpackSlots fuel' ops (i + 1) (decodedOps ++ [op])
       end.

(** Slots enough to reach past the highest bit of [ops]. *)
Definition slotFuel (ops : option Z) : nat :=
  match ops with
  | Some d => S (Z.to_nat (Z.log2 (Z.abs d) / packSizeByte))
  | None => O
  end.

(** The loop [while (encodedOPs)]. *)
Fixpoint unpackOpsLoop (fuel : nat) (decodedOps : list Z) (encodedOPs : string)
  : option (list Z) :=
  match encodedOPs with
  | EmptyString => Some decodedOps
  | String _ _ =>
      match fuel with
      | O => None
      | S fuel' =>
          let encodedOPs := sliceDropLast 12 encodedOPs in
          let ops := parseInt (sliceLast 12 encodedOPs) 36 in
          match unpackSlots (slotFuel ops) ops 0 decodedOps with
          | Some decodedOps' => unpackOpsLoop fuel' decodedOps' encodedOPs
          | None => None
          end
      end
  end.

Definition unpackOps (decodedOps : list Z) (encodedOPs : string) : option (list Z) :=
  unpackOpsLoop (String.length encodedOPs) decodedOps encodedOPs.

Definition lastEntry (pack : list StackEntry) : option StackEntry :=
  nth_error pack (List.length pack - 1).

(** [pack.slice(0, -1)]. *)
Definition dropLastEntry (pack : list StackEntry) : list StackEntry :=
  firstn (List.length pack - 1) pack.

Definition unpack (pack : Packed) : option PackStruct :=
  match pack with
  | PackedString s =>
      match unpackOps [] s with
      | Some ops => Some {| ops := ops; stack := [] |}
      | None => None
      end
  | PackedArray items =>
      match lastEntry items with
      | Some (EString encodedOPs) =>
          if negb (String.eqb "string" encodedOPs)
          then Some {| ops := []; stack := [] |}
          else
            let stack :=
              if 1 <? Z.of_nat (List.length items) then dropLastEntry items else [] in
            match unpackOps [] encodedOPs with
            | Some ops => Some {| ops := ops; stack := stack |}
            | None => None
            end
      | _ => Some {| ops := []; stack := [] |}
      end
  end.

(** ** The AST *)

Inductive PropertyName :=
| NameIdentifier (name : Identifier)
| NameStringLiteral (text : string)
| NameNumericLiteral (text : string)
| NameComputed
| NamePrivateIdentifier (text : string).

(** The [name] that [decorateClass] gives a member: a name node, or a
    string. *)
Inductive MemberName :=
| NameNode (name : PropertyName)
| NameText (name : string).

(** The expressions the transformer writes into the program. *)
Inductive Expression :=
| StringLiteral (text : string) (isSingleQuote : bool)
| NumericLiteral (value : Z)
| ArrayLiteralExpression (elements : list Expression)
| ObjectLiteralExpression (properties : list (MemberName * Expression))
| ValueExpression (value : StackEntry).

Inductive HeritageExpression :=
| HeritageIdentifier (name : Identifier)
| HeritageOtherExpression.

Record HeritageClause := { token : SyntaxKind; heritageTypes : list HeritageExpression }.

Inductive ModuleSpecifier :=
| ModuleStringLiteral (text : string)
| ModuleOtherExpression.

Record ExportSpecifier := {
  exportName : Identifier;
  exportPropertyName : option Identifier
}.

Inductive ExportClause :=
| NamedExports (elements : list ExportSpecifier)
| NamespaceExport (name : Identifier).

(** An import or an export declaration; an import has no [exportClause]. *)
Record ImportOrExport := {
  declarationId : nat;
  moduleSpecifier : option ModuleSpecifier;
  exportClause : option ExportClause
}.

Inductive Statement :=
| ExportDeclaration (e : ImportOrExport)
| OtherStatement.

(** Type nodes and declarations. Of a parameter only its type annotation is
    kept; an import specifier keeps the import declaration that is its
    [parent.parent.parent]. *)
Inductive Node :=
| Token (kind : SyntaxKind)
| ParenthesizedType (type : Node)
| InterfaceDeclaration (name : Identifier) (members : list Node)
    (heritageClauses : option (list HeritageClause))
| TypeLiteral (members : list Node)
| TypeReference (typeName : EntityName) (typeArguments : option (list Node))
| ArrayType (elementType : Node)
| PropertySignature (name : PropertyName) (questionToken : bool) (type : option Node)
| ConstructorDeclaration (parameters : list (option Node)) (type : option Node)
| PropertyDeclaration (modifiers : list SyntaxKind) (name : PropertyName)
    (questionToken : bool) (type : option Node) (initializer : option Expression)
| MethodDeclaration (modifiers : list SyntaxKind) (name : PropertyName)
    (parameters : list (option Node)) (type : option Node)
| ArrowFunction (parameters : list (option Node)) (type : option Node)
| FunctionExpression (parameters : list (option Node)) (type : option Node)
| FunctionDeclaration (name : option Identifier) (parameters : list (option Node))
    (type : option Node)
| LiteralType (literal : LiteralExpr)
| UnionType (types : list Node)
| IndexSignature (parameter0 : option Node) (type : Node)
| TypeAliasDeclaration (name : Identifier) (type : Node)
| MappedType
| EnumDeclaration (name : Identifier)
| ClassReference (name : option Identifier)
| ImportSpecifier (name : Identifier) (propertyName : option Identifier)
    (importDeclaration : ImportOrExport)
| OtherNode (kind : SyntaxKind) (name : option PropertyName).

(** [node.name]. *)
Definition nodeName (n : Node) : option PropertyName :=
  match n with
  | InterfaceDeclaration name _ _ => Some (NameIdentifier name)
  | PropertySignature name _ _ => Some name
  | PropertyDeclaration _ name _ _ _ => Some name
  | MethodDeclaration _ name _ _ => Some name
  | FunctionDeclaration (Some name) _ _ => Some (NameIdentifier name)
  | TypeAliasDeclaration name _ => Some (NameIdentifier name)
  | EnumDeclaration name => Some (NameIdentifier name)
  | ClassReference (Some name) => Some (NameIdentifier name)
  | ImportSpecifier name _ _ => Some (NameIdentifier name)
  | OtherNode _ name => name
  | _ => None
  end.

(** ** The host: type checker, emit resolver, [reflection-ast] *)

(** A symbol of the checker and its declarations; [declarations] may be
    missing. *)
Record Symbol := { symbolId : nat; declarations : option (list Node) }.

Record TypeObject := { typeSymbol : option Symbol }.

Record SourceFile := {
  fileName : string;
  locals : option (list (string * Symbol));
  statements : list Statement
}.

Record Host := {
  getNameAsString : option PropertyName -> string;
  getSymbolAtLocation : Identifier -> option Symbol;
  getDeclaredTypeOfSymbol : Symbol -> option TypeObject;
  getExternalModuleFileFromDeclaration : ImportOrExport -> option SourceFile
}.

(** Modelled from the spec: [hasModifier] of [reflection-ast], which is not
    among the sources; "for each of {private, protected, abstract} present
    as modifier". *)
Definition hasModifier (modifiers : list SyntaxKind) (kind : SyntaxKind) : bool :=
  existsb (SyntaxKind_eqb kind) modifiers.

(** ** Loops that may not return *)

Notation "x <- e ;; k" :=
  (match e with Some x => k | None => None end)
  (at level 61, e at next level, right associativity).

(** [for (const a of l) body(a)] over a state, stopping when the fuel of a
    body ran out. *)
Fixpoint forEach {A S : Type} (body : A -> S -> option S) (l : list A) (s : S)
  : option S :=
  match l with
  | [] => Some s
  | a :: rest => s' <- body a s ;; forEach body rest s'
  end.

(** A loop that returns the first thing found; [Some None] when the loop
    ends without, [None] when the fuel of a body ran out. *)
Fixpoint firstFound {A B : Type} (body : A -> option (option B)) (l : list A)
  : option (option B) :=
  match l with
  | [] => Some None
  | a :: rest =>
      match body a with
      | None => None
      | Some (Some b) => Some (Some b)
      | Some None => firstFound body rest
      end
  end.

(** ** The resolver *)

Fixpoint tableGet {V : Type} (table : list (string * V)) (key : string) : option V :=
  match table with
  | [] => None
  | (k, v) :: rest => if String.eqb k key then Some v else tableGet rest key
  end.

Definition firstDeclaration (s : Symbol) : option Node :=
  match declarations s with
  | Some (d :: _) => Some d
  | _ => None
  end.

Definition findDeclarationInFile (sourceFile : SourceFile) (declarationName : string)
  : option Node :=
  match locals sourceFile with
  | Some table =>
      match tableGet table declarationName with
      | Some declarationSymbol => firstDeclaration declarationSymbol
      | None => None
      end
  | None => None
  end.

Section Resolver.
Variable host : Host.

Fixpoint resolveImportSpecifier (fuel : nat) (declarationName : string)
  (importOrExport : ImportOrExport) : option (option Node) :=
  match fuel with
  | O => None
  | S fuel' =>
      match moduleSpecifier importOrExport with
      | Some (ModuleStringLiteral _) =>
          match getExternalModuleFileFromDeclaration host importOrExport with
          | None => Some None
          | Some source =>
              match findDeclarationInFile source declarationName with
              | Some declaration => Some (Some declaration)
              | None =>
                  firstFound
                    (fun statement =>
                       match statement with
                       | OtherStatement => Some None
                       | ExportDeclaration e =>
                           match exportClause e with
                           | Some (NamedExports elements) =>
                               firstFound
                                 (fun element =>
                                    if String.eqb (escapedText (exportName element))
                                         declarationName
                                    then resolveImportSpecifier fuel'
                                           (match exportPropertyName element with
                                            | Some p => escapedText p
                                            | None => declarationName
                                            end) e
                                    else Some None)
                                 elements
                           | Some (NamespaceExport _) => Some None
                           | None => resolveImportSpecifier fuel' declarationName e
                           end
                       end)
                    (statements source)
              end
          end
      | _ => Some None
      end
  end.

Record Resolved := { declaration : Node; importSpecifier : option Node }.

Definition isImportSpecifier (n : Node) : bool :=
  match n with ImportSpecifier _ _ _ => true | _ => false end.

(** The first declaration behind [getDeclaredTypeOfSymbol(symbol)]. *)
Definition declaredTypeDeclaration (symbol : Symbol) : option Node :=
  match getDeclaredTypeOfSymbol host symbol with
  | Some resolvedType =>
      match typeSymbol resolvedType with
      | Some s => firstDeclaration s
      | None => None
      end
  | None => None
  end.

Definition resolveDeclaration (fuel : nat) (e : EntityName) : option (option Resolved) :=
  match e with
  | QualifiedName _ _ => Some None
  | EntityIdentifier e =>
      let symbol := getSymbolAtLocation host e in
      let declaration :=
        match symbol with Some s => firstDeclaration s | None => None end in
      let importSpecifier :=
        match declaration with
        | Some d => if isImportSpecifier d then Some d else None
        | None => None
        end in
      declaration <-
        match symbol with
        | Some s =>
            if match declaration with Some d => isImportSpecifier d | None => true end
            then
              match declaredTypeDeclaration s with
              | Some d => Some (Some d)
              | None =>
                  match declaration with
                  | Some (ImportSpecifier _ _ importDeclaration) =>
                      resolveImportSpecifier fuel "Message" importDeclaration
                  | _ => Some declaration
                  end
              end
            else Some declaration
        | None => Some declaration
        end ;;
      match declaration with
      | None => Some None
      | Some d => Some (Some {| declaration := d; importSpecifier := importSpecifier |})
      end
  end.
End Resolver.

(** ** The extractor *)

(** What [===] compares in a stack entry: the value of a string, a number
    or a boolean, the identity of an object. *)
Inductive EntryKey :=
| KeyString (s : string)
| KeyNumber (n : Z)
| KeyBoolean (b : bool)
| KeyNode (id : nat)
| KeyArrow (id : nat).

Definition entryKey (e : StackEntry) : EntryKey :=
  match e with
  | EString s => KeyString s
  | ENumber n => KeyNumber n
  | EBoolean b => KeyBoolean b
  | ELiteralNode l => KeyNode (literalId l)
  | EArrow a => KeyArrow (arrowId a)
  end.

Definition EntryKey_eq_dec (a b : EntryKey) : {a = b} + {a <> b}.
Proof.
  decide equality;
    first [apply string_dec | apply Z.eq_dec | apply bool_dec | apply Nat.eq_dec].
Defined.

Definition strictEquals (a b : StackEntry) : bool :=
  if EntryKey_eq_dec (entryKey a) (entryKey b) then true else false.

(** [stack.indexOf(entry)], counting from [i]; [None] is [-1]. *)
Fixpoint indexOfFrom (stack : list StackEntry) (entry : StackEntry) (i : nat)
  : option nat :=
  match stack with
  | [] => None
  | e :: rest => if strictEquals e entry then Some i else indexOfFrom rest entry (S i)
  end.

Definition indexOf (stack : list StackEntry) (entry : StackEntry) : option nat :=
  indexOfFrom stack entry 0.

(** Returns the stack after the call and the index of [entry] in it. *)
Definition findOrAddStackEntry (stack : list StackEntry) (entry : StackEntry)
  : list StackEntry * Z :=
  match indexOf stack entry with
  | Some index => (stack, Z.of_nat index)
  | None =>
      let stack' := stack ++ [entry] in
      (stack', Z.of_nat (List.length stack') - 1)
  end.

(** What the transformer changes outside the two arrays: the number of nodes
    the factory has made, and the import specifiers flagged [Synthesized]. *)
Record World := { created : nat; synthesized : list Node }.

(** The two arrays the extractor writes to, and the world. *)
Record Extraction := { struct : PackStruct; world : World }.

(** The state [getTypeOfType] starts an extraction from: a new
    [PackStruct]. *)
Definition newPackStruct (w : World) : Extraction :=
  {| struct := {| ops := []; stack := [] |}; world := w |}.

Definition opsOf (st : Extraction) : list Z := ops (struct st).

Definition stackOf (st : Extraction) : list StackEntry := stack (struct st).

(** [ops.push(...)]. *)
Definition pushOps (l : list Z) (st : Extraction) : Extraction :=
  {| struct := {| ops := opsOf st ++ l; stack := stackOf st |}; world := world st |}.

Definition withStack (stack' : list StackEntry) (st : Extraction) : Extraction :=
  {| struct := {| ops := opsOf st; stack := stack' |}; world := world st |}.

(** [ops.push(op, findOrAddStackEntry(stack, entry))]. *)
Definition pushWithEntry (op : Z) (entry : StackEntry) (st : Extraction) : Extraction :=
  let '(stack', index) := findOrAddStackEntry (stackOf st) entry in
  pushOps [op; index] (withStack stack' st).

(** [this.f.createArrowFunction(..., body)]: a node no one has seen. *)
Definition createArrowFunction (body : AccessExpr) (st : Extraction)
  : ArrowRef * Extraction :=
  ({| arrowId := created (world st); arrowBody := body |},
   {| struct := struct st;
      world := {| created := S (created (world st));
                  synthesized := synthesized (world st) |} |}).

(** The sixteen keys of the object [knownClasses]. *)
Definition knownClasses : list (string * Z) :=
  [ ("Int8Array"%string, ReflectionOp.int8Array);
    ("Uint8Array"%string, ReflectionOp.uint8Array);
    ("Uint8ClampedArray"%string, ReflectionOp.uint8ClampedArray);
    ("Int16Array"%string, ReflectionOp.int16Array);
    ("Uint16Array"%string, ReflectionOp.uint16Array);
    ("Int32Array"%string, ReflectionOp.int32Array);
    ("Uint32Array"%string, ReflectionOp.uint32Array);
    ("Float32Array"%string, ReflectionOp.float32Array);
    ("Float64Array"%string, ReflectionOp.float64Array);
    ("ArrayBuffer"%string, ReflectionOp.arrayBuffer);
    ("BigInt64Array"%string, ReflectionOp.bigInt64Array);
    ("Date"%string, ReflectionOp.date);
    ("String"%string, ReflectionOp.string);
    ("Number"%string, ReflectionOp.number);
    ("BigInt"%string, ReflectionOp.bigint);
    ("Boolean"%string, ReflectionOp.boolean) ].

(** The names under which every object finds a value in
    [Object.prototype]: functions, and for [__proto__] the prototype
    itself. *)
Definition inheritedNames : list string :=
  [ "constructor"%string; "hasOwnProperty"%string; "isPrototypeOf"%string;
    "propertyIsEnumerable"%string; "toLocaleString"%string; "toString"%string;
    "valueOf"%string; "__proto__"%string; "__defineGetter__"%string;
    "__defineSetter__"%string; "__lookupGetter__"%string;
    "__lookupSetter__"%string ].

(** What stands in [ops] for such a value. *)
Definition inheritedValue : Z := -1.

Definition isInheritedValue (op : Z) : bool := op =? inheritedValue.

(** [this.knownClasses[name]] where it is truthy: the opcode of an own key,
    or what the object inherits under that name. *)
Definition knownClassesGet (name : string) : option Z :=
  match tableGet knownClasses name with
  | Some op => Some op
  | None =>
      if existsb (String.eqb name) inheritedNames then Some inheritedValue else None
  end.

Definition isInterfaceDeclaration (n : Node) : bool :=
  match n with InterfaceDeclaration _ _ _ => true | _ => false end.

Definition membersOf (n : Node) : list Node :=
  match n with
  | InterfaceDeclaration _ members _ => members
  | TypeLiteral members => members
  | _ => []
  end.

(** The opcodes of the modifiers, in the order the source tests them. *)
Definition pushModifiers (modifiers : list SyntaxKind) (st : Extraction) : Extraction :=
  let st := if hasModifier modifiers PrivateKeyword
            then pushOps [ReflectionOp.private] st else st in
  let st := if hasModifier modifiers ProtectedKeyword
            then pushOps [ReflectionOp.protected] st else st in
  if hasModifier modifiers AbstractKeyword
  then pushOps [ReflectionOp.abstract] st else st.

Section Extractor.
Variable host : Host.

(** [ensureImportIsEmitted]. *)
Definition ensureImportIsEmitted (resolved : Resolved) (st : Extraction) : Extraction :=
  match importSpecifier resolved with
  | Some specifier =>
      {| struct := struct st;
         world := {| created := created (world st);
                     synthesized := synthesized (world st) ++ [specifier] |} |}
  | None => st
  end.

(** The value [typeName] or [createAccessorForEntityName(typeName)] under
    the arrow. *)
Definition referenceArrow (typeName : EntityName) (st : Extraction)
  : ArrowRef * Extraction :=
  createArrowFunction (createAccessorForEntityName typeName) st.

(** The closure [extractMembers] of the interface branch; [members] is
    the array it shares with its recursive calls, [rec] is
    [extractPackStructOfType]. *)
Fixpoint extractMembers (rec : Node -> Extraction -> option Extraction)
  (fuel : nat) (decl : Node) (acc : list Node * Extraction)
  : option (list Node * Extraction) :=
  match fuel with
  | O => None
  | S fuel' =>
      acc <-
        forEach
          (fun member '(members, st) =>
             let name := getNameAsString host (nodeName member) in
             if negb (String.eqb name "")
                && existsb
                     (fun v => String.eqb (getNameAsString host (nodeName v)) name)
                     members
             then Some (members, st)
             else
               let members := members ++ [member] in
               st' <- rec member st ;;
               Some (members, st'))
          (membersOf decl) acc ;;
      match decl with
      | InterfaceDeclaration _ _ (Some clauses) =>
          forEach
            (fun heritage acc =>
               if SyntaxKind_eqb (token heritage) ExtendsKeyword
               then
                 forEach
                   (fun extendType acc =>
                      match extendType with
                      | HeritageIdentifier expression =>
                          resolved <-
                            resolveDeclaration host fuel' (EntityIdentifier expression) ;;
                          match resolved with
                          | None => Some acc
                          | Some resolved =>
                              if isInterfaceDeclaration (declaration resolved)
                              then extractMembers rec fuel' (declaration resolved) acc
                              else Some acc
                          end
                      | HeritageOtherExpression => Some acc
                      end)
                   (heritageTypes heritage) acc
               else Some acc)
            clauses acc
      | _ => Some acc
      end
  end.

Definition extractPackStructOfTypeReference
  (rec : Node -> Extraction -> option Extraction) (fuel : nat)
  (typeName : EntityName) (typeArguments : option (list Node)) (st : Extraction)
  : option Extraction :=
  let known :=
    match typeName with
    | EntityIdentifier i => knownClassesGet (escapedText i)
    | QualifiedName _ _ => None
    end in
  match known with
  | Some op => Some (pushOps [op] st)
  | None =>
      if match typeName with
         | EntityIdentifier i => String.eqb (escapedText i) "Promise"
         | QualifiedName _ _ => false
         end
      then
        st <-
          match typeArguments with
          | Some (argument :: _) => rec argument st
          | _ => Some (pushOps [ReflectionOp.any] st)
          end ;;
        Some (pushOps [ReflectionOp.promise] st)
      else
        resolved <- resolveDeclaration host fuel typeName ;;
        match resolved with
        | None => Some (pushOps [ReflectionOp.any] st)
        | Some resolved =>
            match declaration resolved with
            | TypeAliasDeclaration _ type => rec type st
            | MappedType => Some st
            | EnumDeclaration _ =>
                let st := ensureImportIsEmitted resolved st in
                let '(arrow, st) := referenceArrow typeName st in
                Some (pushWithEntry ReflectionOp.enum (EArrow arrow) st)
            | ClassReference _ =>
                let st := ensureImportIsEmitted resolved st in
                let '(arrow, st) := referenceArrow typeName st in
                let st := withStack (stackOf st ++ [EArrow arrow]) st in
                st <-
                  match typeArguments with
                  | Some templates => forEach rec templates st
                  | None => Some st
                  end ;;
                Some (pushOps [ReflectionOp.class] st)
            | declaration => rec declaration st
            end
        end
  end.

(** The branch of methods, constructors and functions. *)
Definition extractCallable (rec : Node -> Extraction -> option Extraction)
  (isMethod isConstructor : bool) (modifiers : list SyntaxKind)
  (parameters : list (option Node)) (type : option Node) (st : Extraction)
  : option Extraction :=
  match parameters, type with
  | [], None => Some st
  | _, _ =>
      st <-
        forEach
          (fun parameter st =>
             match parameter with
             | Some parameterType => rec parameterType st
             | None => Some st
             end)
          parameters st ;;
      st <-
        match type with
        | Some t => rec t st
        | None => Some (pushOps [ReflectionOp.any] st)
        end ;;
      let st :=
        pushOps [if isMethod || isConstructor
                 then ReflectionOp.method else ReflectionOp.function] st in
      Some (if isMethod then pushModifiers modifiers st else st)
  end.

Fixpoint extractPackStructOfType (fuel : nat) (node : Node) (st : Extraction)
  : option Extraction :=
  match fuel with
  | O => None
  | S fuel' =>
      let rec := extractPackStructOfType fuel' in
      match node with
      | ParenthesizedType type => rec type st
      | Token StringKeyword | OtherNode StringKeyword _ =>
          Some (pushOps [ReflectionOp.string] st)
      | Token NumberKeyword | OtherNode NumberKeyword _ =>
          Some (pushOps [ReflectionOp.number] st)
      | Token BooleanKeyword | OtherNode BooleanKeyword _ =>
          Some (pushOps [ReflectionOp.boolean] st)
      | Token BigIntKeyword | OtherNode BigIntKeyword _ =>
          Some (pushOps [ReflectionOp.bigint] st)
      | Token VoidKeyword | OtherNode VoidKeyword _ =>
          Some (pushOps [ReflectionOp.void] st)
      | Token NullKeyword | OtherNode NullKeyword _ =>
          Some (pushOps [ReflectionOp.null] st)
      | Token UndefinedKeyword | OtherNode UndefinedKeyword _ =>
          Some (pushOps [ReflectionOp.undefined] st)
      | InterfaceDeclaration _ _ _ | TypeLiteral _ =>
          r <- extractMembers rec fuel' node ([], st) ;;
          Some (pushOps [ReflectionOp.objectLiteral] (snd r))
      | TypeReference typeName typeArguments =>
          extractPackStructOfTypeReference rec fuel' typeName typeArguments st
      | ArrayType elementType =>
          st <- rec elementType st ;;
          Some (pushOps [ReflectionOp.array] st)
      | PropertySignature name _ (Some type) =>
          st <- rec type st ;;
          let name := getNameAsString host (Some name) in
          Some (pushWithEntry ReflectionOp.propertySignature (EString name) st)
      | ConstructorDeclaration _ (Some type) =>
          st <- rec type st ;;
          Some (pushOps [ReflectionOp.constructor] st)
      | PropertyDeclaration modifiers _ questionToken (Some type) _ =>
          st <- rec type st ;;
          let st := if questionToken : bool
                    then pushOps [ReflectionOp.optional] st else st in
          Some (pushModifiers modifiers st)
      | MethodDeclaration modifiers _ parameters type =>
          extractCallable rec true false modifiers parameters type st
      | ConstructorDeclaration parameters None =>
          extractCallable rec false true [] parameters None st
      | ArrowFunction parameters type
      | FunctionExpression parameters type
      | FunctionDeclaration _ parameters type =>
          extractCallable rec false false [] parameters type st
      | LiteralType literal =>
          if SyntaxKind_eqb (literalKind literal) NullKeyword
          then Some (pushOps [ReflectionOp.null] st)
          else Some (pushWithEntry ReflectionOp.literal (ELiteralNode literal) st)
      | UnionType types =>
          match types with
          | [] => Some st
          | [type] => rec type st
          | _ =>
              let st := match opsOf st with
                        | [] => st
                        | _ :: _ => pushOps [ReflectionOp.frame] st
                        end in
              st <- forEach rec types st ;;
              Some (pushOps [ReflectionOp.union] st)
          end
      | IndexSignature parameter0 type =>
          st <-
            match parameter0 with
            | Some parameterType => rec parameterType st
            | None => Some (pushOps [ReflectionOp.any] st)
            end ;;
          st <- rec type st ;;
          Some (pushOps [ReflectionOp.indexSignature] st)
      | _ => Some (pushOps [ReflectionOp.any] st)
      end
  end.
End Extractor.

(** ** The reflection mode *)

(** The values a mode can be at run time: the comment of a tag is a string,
    the [reflection] field of a configuration is any JSON value. *)
Inductive JsValue :=
| VUndefined
| VNull
| VBoolean (b : bool)
| VString (s : string)
| VNumber (n : Z)
| VObject.

Definition truthy (v : JsValue) : bool :=
  match v with
  | VUndefined | VNull => false
  | VBoolean b => b
  | VString s => negb (String.eqb s "")
  | VNumber n => negb (n =? 0)
  | VObject => true
  end.

Definition parseReflectionMode (mode : JsValue) : JsValue :=
  match mode with
  | VBoolean b => VString (if b then "default" else "never")
  | _ => if truthy mode then mode else VString "never"
  end.

(** [mode === 'never']. *)
Definition isNever (mode : JsValue) : bool :=
  match mode with
  | VString s => String.eqb s "never"
  | _ => false
  end.

(** A doc-comment tag; [comment] is [None] when it is not a string. *)
Record JSDocTag := { tagName : string; comment : option string }.

(** Where a node stands: its own tags ([getJSDocTags]) and those of its
    parent, of the parent of its parent, and so on. *)
Record Position := { tags : list JSDocTag; parents : list (list JSDocTag) }.

(** What the probe of [tsconfig.json] finds in one directory; an absent
    [reflection] field is [VUndefined]. *)
Inductive ConfigProbe :=
| NoConfigFile
| UnparseableConfig
| ConfigFile (reflection : JsValue).

(** The transformer: the host, the mode set by [withReflectionMode], and
    the probes from the directory of the source file up to the root. *)
Record ReflectionTransformer := {
  env : Host;
  reflectionMode : option string;
  ancestorConfigs : list ConfigProbe
}.

(** The loop over the tags of one node. *)
Fixpoint reflectionOfTags (tags : list JSDocTag) : option JsValue :=
  match tags with
  | [] => None
  | tag :: rest =>
      match comment tag with
      | Some c =>
          if String.eqb (tagName tag) "reflection"
          then Some (parseReflectionMode
                       (if truthy (VString c) then VString c else VBoolean true))
          else reflectionOfTags rest
      | None => reflectionOfTags rest
      end
  end.

(** The loop [do ... while (current)] up the parents. *)
Fixpoint reflectionOfParents (chain : list (list JSDocTag)) : option JsValue :=
  match chain with
  | [] => None
  | tags :: rest =>
      match reflectionOfTags tags with
      | Some mode => Some mode
      | None => reflectionOfParents rest
      end
  end.

(** The loop [while (currentDir)] up the directories. *)
Fixpoint reflectionOfConfigs (dirs : list ConfigProbe) : option JsValue :=
  match dirs with
  | [] => None
  | ConfigFile reflection :: rest =>
      match reflection with
      | VUndefined => reflectionOfConfigs rest
      | _ => Some (parseReflectionMode reflection)
      end
  | _ :: rest => reflectionOfConfigs rest
  end.

Definition findReflectionConfig (t : ReflectionTransformer) (node : Position) : JsValue :=
  match reflectionOfParents (tags node :: parents node) with
  | Some mode => mode
  | None =>
      match reflectionMode t with
      | Some mode => VString mode
      | None =>
          match reflectionOfConfigs (ancestorConfigs t) with
          | Some mode => mode
          | None => VString "never"
          end
      end
  end.

(** ** The decorator *)

Definition entryToExpression (e : StackEntry) : Expression :=
  match e with
  | EString s => StringLiteral s true
  | ENumber n => NumericLiteral n
  | _ => ValueExpression e
  end.

Definition valueToExpression (value : Packed) : Expression :=
  match value with
  | PackedString s => StringLiteral s true
  | PackedArray items => ArrayLiteralExpression (map entryToExpression items)
  end.

(** [pack] on what the extractor wrote: [BigInt(ops[i])] throws a
    [SyntaxError] where [ops[i]] is an inherited value, no number; [None]
    is that throw. *)
Definition packExtracted (packStruct : PackStruct) : option Packed :=
  if existsb isInheritedValue (ops packStruct) then None
  else Some (pack (OfStruct packStruct)).

(** [Some None] is the return without a value. *)
Definition packOpsAndStack (packStruct : PackStruct) : option (option Expression) :=
  match ops packStruct with
  | [] => Some None
  | _ :: _ =>
      packed <- packExtracted packStruct ;;
      Some (Some (valueToExpression packed))
  end.

Definition getTypeOfType (t : ReflectionTransformer) (fuel : nat) (type : Node)
  (position : Position) (w : World) : option (option Expression * World) :=
  if isNever (findReflectionConfig t position) then Some (None, w)
  else
    st <- extractPackStructOfType (env t) fuel type (newPackStruct w) ;;
    encodedType <- packOpsAndStack (struct st) ;;
    Some (encodedType, world st).

Record ClassElement := { element : Node; elementTags : list JSDocTag }.

(** A class declaration: its members and where it stands. What
    [updateClassDeclaration] copies unchanged is left out. *)
Record ClassDeclaration := {
  className : option Identifier;
  classMembers : list ClassElement;
  classPosition : Position
}.

(** [property.name ? property.name : isConstructorDeclaration(property) ?
    'constructor' : '']; [None] is the empty string. *)
Definition memberName (property : Node) : option MemberName :=
  match nodeName property with
  | Some name => Some (NameNode name)
  | None =>
      match property with
      | ConstructorDeclaration _ _ => Some (NameText "constructor")
      | _ => None
      end
  end.

(** The test "already decorated". *)
Definition isTypeMember (name : MemberName) : bool :=
  match name with
  | NameText _ => false
  | NameNode (NameIdentifier i) => String.eqb (text i) "__type"
  | NameNode _ => false
  end.

(** How the loop over the members ends: by [return classDeclaration], or
    with the [elements] gathered. *)
Inductive MembersResult :=
| AlreadyDecorated (w : World)
| Gathered (elements : list (MemberName * Expression)) (w : World).

Definition positionOfMember (c : ClassDeclaration) (property : ClassElement) : Position :=
  {| tags := elementTags property;
     parents := tags (classPosition c) :: parents (classPosition c) |}.

Fixpoint decorateMembers (t : ReflectionTransformer) (fuel : nat)
  (c : ClassDeclaration) (members : list ClassElement)
  (elements : list (MemberName * Expression)) (w : World) : option MembersResult :=
  match members with
  | [] => Some (Gathered elements w)
  | property :: rest =>
      match memberName (element property) with
      | None => decorateMembers t fuel c rest elements w
      | Some name =>
          if isTypeMember name then Some (AlreadyDecorated w)
          else
            r <- getTypeOfType t fuel (element property) (positionOfMember c property) w ;;
            match r with
            | (None, w) => decorateMembers t fuel c rest elements w
            | (Some encodedType, w) =>
                decorateMembers t fuel c rest (elements ++ [(name, encodedType)]) w
            end
      end
  end.

(** The member [static __type = types]. *)
Definition typeMember (types : Expression) : ClassElement :=
  {| element :=
       PropertyDeclaration [StaticKeyword]
         (NameIdentifier {| text := "__type"; pos := -1 |}) false None (Some types);
     elementTags := [] |}.

Definition decorateClass (t : ReflectionTransformer) (fuel : nat)
  (classDeclaration : ClassDeclaration) (w : World)
  : option (ClassDeclaration * World) :=
  if isNever (findReflectionConfig t (classPosition classDeclaration))
  then Some (classDeclaration, w)
  else
    r <- decorateMembers t fuel classDeclaration (classMembers classDeclaration) [] w ;;
    match r with
    | AlreadyDecorated w => Some (classDeclaration, w)
    | Gathered [] w => Some (classDeclaration, w)
    | Gathered elements w =>
        Some ({| className := className classDeclaration;
                 classMembers :=
                   classMembers classDeclaration
                     ++ [typeMember (ObjectLiteralExpression elements)];
                 classPosition := classPosition classDeclaration |}, w)
    end.

(** ** The decorators of functions *)

(** An argument of a call: a node of the program, or an expression that the
    transformer made. *)
Inductive Argument :=
| ArgumentNode (node : Node)
| ArgumentExpression (expression : Expression).

(** What a decorator of functions returns: the node as it was, a call, or
    the declaration followed by the statement [name.property = value],
    where [name] is [declaration.name]. *)
Inductive Decorated :=
| Undecorated (node : Node)
| CallExpression (expression : AccessExpr) (arguments : list Argument)
| WithAssignment (declaration : Node) (name : Identifier) (property : string)
    (value : Expression).

(** [Object.assign], made by the factory. *)
Definition objectAssign : AccessExpr :=
  PropertyAccessExpression (AccessIdentifier {| text := "Object"; pos := -1 |})
    {| text := "assign"; pos := -1 |}.

(** [{ __type: encodedType }]. *)
Definition typeProperty (encodedType : Expression) : Expression :=
  ObjectLiteralExpression [(NameText "__type", encodedType)].

Definition decorateFunctionExpression (t : ReflectionTransformer) (fuel : nat)
  (expression : Node) (position : Position) (w : World)
  : option (Decorated * World) :=
  r <- getTypeOfType t fuel expression position w ;;
  match r with
  | (None, w) => Some (Undecorated expression, w)
  | (Some encodedType, w) =>
      Some (CallExpression objectAssign
              [ArgumentNode expression; ArgumentExpression (typeProperty encodedType)],
            w)
  end.

(** [declaration.name]. *)
Definition functionName (declaration : Node) : option Identifier :=
  match declaration with
  | FunctionDeclaration name _ _ => name
  | _ => None
  end.

(** Where the declaration has no name ([export default function () {}]),
    [createPropertyAccessExpression(declaration.name!, '__type')] throws a
    [TypeError]: [None]. *)
Definition decorateFunctionDeclaration (t : ReflectionTransformer) (fuel : nat)
  (declaration : Node) (position : Position) (w : World)
  : option (Decorated * World) :=
  r <- getTypeOfType t fuel declaration position w ;;
  match r with
  | (None, w) => Some (Undecorated declaration, w)
  | (Some encodedType, w) =>
      name <- functionName declaration ;;
      Some (WithAssignment declaration name "__type" encodedType, w)
  end.

Definition decorateArrow (t : ReflectionTransformer) (fuel : nat)
  (expression : Node) (position : Position) (w : World)
  : option (Decorated * World) :=
  r <- getTypeOfType t fuel expression position w ;;
  match r with
  | (None, w) => Some (Undecorated expression, w)
  | (Some encodedType, w) =>
      Some (CallExpression objectAssign
              [ArgumentNode expression; ArgumentExpression (typeProperty encodedType)],
            w)
  end.

(** ** Predicates of the properties *)

(** The opcodes that are followed by an address into the literal stack. *)
Definition hasParameter (op : Z) : bool :=
  (op =? ReflectionOp.literal) || (op =? ReflectionOp.propertySignature)
  || (op =? ReflectionOp.methodSignature) || (op =? ReflectionOp.enum).

(** Undo one [x <- e ;; k] in a hypothesis. *)
Ltac unbind H :=
  match type of H with
  | match ?e with Some _ => _ | None => _ end = Some _ =>
      let E := fresh "E" in
      destruct e eqn:E; [|discriminate H]
  end.

(** The second state is the first with opcodes and entries added at the
    end, and nodes made. *)
Definition appendsTo (st st' : Extraction) : Prop :=
  (exists o, opsOf st' = opsOf st ++ o)
  /\ (exists s, stackOf st' = stackOf st ++ s)
  /\ (created (world st) <= created (world st'))%nat.

(** The subtypes are recursed one after the other, each from the state the
    one before left. *)
Fixpoint recursedInOrder (host : Host) (fuel : nat) (types : list Node)
  (st st' : Extraction) : Prop :=
  match types with
  | [] => st' = st
  | type :: rest =>
      exists mid,
        extractPackStructOfType host fuel type st = Some mid
        /\ recursedInOrder host fuel rest mid st'
  end.

(** The opcode that opens a frame, when the accumulator holds something. *)
Definition frameIfDirty (st : Extraction) : list Z :=
  match opsOf st with
  | [] => []
  | _ :: _ => [ReflectionOp.frame]
  end.

(** The stream read from the left: an opcode with a parameter is followed
    by an integer in [[0, size)], which is then skipped. *)
Fixpoint parametersValid (size : Z) (ops : list Z) : bool :=
  match ops with
  | [] => true
  | op :: rest =>
      if hasParameter op
      then match rest with
           | [] => false
           | address :: rest' =>
               (0 <=? address) && (address <? size) && parametersValid size rest'
           end
      else parametersValid size rest
  end.

(** The state of an extraction whose parameters are all valid. *)
Definition addressesValid (st : Extraction) : Prop :=
  parametersValid (Z.of_nat (List.length (stackOf st))) (opsOf st) = true.

(** No two entries of the stack are [===], and every arrow on it is one
    the factory has made. *)
Definition entriesDistinct (st : Extraction) : Prop :=
  NoDup (map entryKey (stackOf st))
  /\ forall a, In (EArrow a) (stackOf st) -> (arrowId a < created (world st))%nat.

(** The text of an entry: a string is its own text, a node has the text of
    the source it was read from or stands for. *)
Fixpoint accessText (e : AccessExpr) : string :=
  match e with
  | AccessIdentifier name => text name
  | PropertyAccessExpression expression name =>
      (accessText expression ++ "." ++ text name)%string
  end.

Definition entryText (e : StackEntry) : string :=
  match e with
  | EString s => s
  | ENumber n => bigIntToString n 10
  | EBoolean b => if b then "true" else "false"
  | ELiteralNode l => literalText l
  | EArrow a => ("() => " ++ accessText (arrowBody a))%string
  end.

(** A function on states that relates every state it is given to the state
    it returns. *)
Definition preserving (R : Extraction -> Extraction -> Prop)
  (rec : Node -> Extraction -> option Extraction) : Prop :=
  forall node st st', rec node st = Some st' -> R st st'.

(** Two states that hold as many opcodes, with an inherited value among
    them in both or in neither. *)
Definition sameOps (st st2 : Extraction) : Prop :=
  List.length (opsOf st) = List.length (opsOf st2)
  /\ existsb isInheritedValue (opsOf st) = existsb isInheritedValue (opsOf st2).

(** Two states of the closure [extractMembers]: the same members seen, as
    many opcodes. *)
Definition samePair (acc acc2 : list Node * Extraction) : Prop :=
  fst acc = fst acc2 /\ sameOps (snd acc) (snd acc2).

(** A function on states that, where it returns from one state, returns
    from every state with as many opcodes, and leaves as many. *)
Definition simulating (rec : Node -> Extraction -> option Extraction) : Prop :=
  forall node st r st2,
    rec node st = Some r -> sameOps st st2 ->
    exists r2, rec node st2 = Some r2 /\ sameOps r r2.

(** Two ends of the loop over the members of the same kind: both by
    [return classDeclaration], or both with elements gathered, none in both
    or some in both. *)
Definition sameKind (r r2 : MembersResult) : Prop :=
  match r, r2 with
  | AlreadyDecorated _, AlreadyDecorated _ => True
  | Gathered elements _, Gathered elements2 _ => elements = [] <-> elements2 = []
  | _, _ => False
  end.

(** ** Sample programs *)

(** A [getNameAsString] for the samples: the text of the name. *)
Definition sampleNameAsString (name : option PropertyName) : string :=
  match name with
  | Some (NameIdentifier i) => text i
  | Some (NameStringLiteral t) => t
  | Some (NameNumericLiteral t) => t
  | Some (NamePrivateIdentifier t) => t
  | _ => ""
  end.

(** A host whose checker knows no symbol. *)
Definition closedHost : Host :=
  {| getNameAsString := sampleNameAsString;
     getSymbolAtLocation := fun _ => None;
     getDeclaredTypeOfSymbol := fun _ => None;
     getExternalModuleFileFromDeclaration := fun _ => None |}.

Definition emptyWorld : World := {| created := 0; synthesized := [] |}.

Definition ident (name : string) : Identifier := {| text := name; pos := 0 |}.

(** [title: string], a member of [class M { title: string }]. *)
Definition titleProperty : Node :=
  PropertyDeclaration [] (NameIdentifier (ident "title")) false
    (Some (Token StringKeyword)) None.

Definition titleMember (memberTags : list JSDocTag) : ClassElement :=
  {| element := titleProperty; elementTags := memberTags |}.

(** [class M { title: string }] at some position. *)
Definition classM (position : Position) (memberTags : list JSDocTag) : ClassDeclaration :=
  {| className := Some (ident "M");
     classMembers := [titleMember memberTags];
     classPosition := position |}.

(** [class M { title: string; static __type = { title: '3' } }]. *)
Definition classMDecorated (position : Position) (memberTags : list JSDocTag)
  : ClassDeclaration :=
  {| className := Some (ident "M");
     classMembers :=
       [titleMember memberTags;
        typeMember
          (ObjectLiteralExpression
             [(NameNode (NameIdentifier (ident "title")), StringLiteral "3" true)])];
     classPosition := position |}.

(** A transformer with the mode set to [default] by the application, on the
    closed host, with no configuration file. *)
Definition defaultTransformer : ReflectionTransformer :=
  {| env := closedHost; reflectionMode := Some "default"%string; ancestorConfigs := [] |}.

Definition topLevel : Position := {| tags := []; parents := [[]] |}.

(** [interface I { a: string; b?: number }]. *)
Definition interfaceI : Node :=
  InterfaceDeclaration (ident "I")
    [PropertySignature (NameIdentifier (ident "a")) false (Some (Token StringKeyword));
     PropertySignature (NameIdentifier (ident "b")) true (Some (Token NumberKeyword))]
    None.

(** [{ a: { a: string } }]: the name [a] is used twice. *)
Definition nestedA : Node :=
  TypeLiteral
    [PropertySignature (NameIdentifier (ident "a")) false
       (Some (TypeLiteral
                [PropertySignature (NameIdentifier (ident "a")) false
                   (Some (Token StringKeyword))]))].

(** ['a' | 'a']: two literal nodes of the same text. *)
Definition literalA (id : nat) : LiteralExpr :=
  {| literalKind := StringLiteralKind; literalId := id; literalText := "'a'" |}.

Definition unionOfEqualLiterals : Node :=
  UnionType [LiteralType (literalA 1); LiteralType (literalA 2)].

(** [import { User } from './user'], where [user.ts] declares
    [interface User { name: string }], and a checker that gives the import
    specifier for [User] and no declared type for it. *)
Definition userImport : ImportOrExport :=
  {| declarationId := 1;
     moduleSpecifier := Some (ModuleStringLiteral "./user");
     exportClause := None |}.

Definition userSpecifier : Node := ImportSpecifier (ident "User") None userImport.

Definition userInterface : Node :=
  InterfaceDeclaration (ident "User")
    [PropertySignature (NameIdentifier (ident "name")) false (Some (Token StringKeyword))]
    None.

Definition userFile : SourceFile :=
  {| fileName := "user.ts";
     locals := Some [("User"%string,
                      {| symbolId := 2; declarations := Some [userInterface] |})];
     statements := [] |}.

Definition importingHost : Host :=
  {| getNameAsString := sampleNameAsString;
     getSymbolAtLocation :=
       fun e => if String.eqb (text e) "User"
                then Some {| symbolId := 1; declarations := Some [userSpecifier] |}
                else None;
     getDeclaredTypeOfSymbol := fun _ => Some {| typeSymbol := None |};
     getExternalModuleFileFromDeclaration :=
       fun d => if Nat.eqb (declarationId d) 1 then Some userFile else None |}.

(** A class under [@reflection never], in a file where the application set
    the mode to [default]. *)
Definition neverTag : JSDocTag := {| tagName := "reflection"; comment := Some "never"%string |}.

Definition taggedNever : Position := {| tags := [neverTag]; parents := [[]] |}.

(** A transformer whose application set no mode, in a directory tree with
    no configuration that has a [reflection] field. *)
Definition unconfiguredTransformer : ReflectionTransformer :=
  {| env := closedHost;
     reflectionMode := None;
     ancestorConfigs := [NoConfigFile; ConfigFile VUndefined; UnparseableConfig] |}.

(** ** Predicates on tags, configurations, shapes and members *)

(** A tag the lookup stops at. *)
Definition isReflectionTag (tag : JSDocTag) : Prop :=
  tagName tag = "reflection"%string /\ comment tag <> None.

Definition untagged (chain : list (list JSDocTag)) : Prop :=
  forall tags tag, In tags chain -> In tag tags -> ~ isReflectionTag tag.

(** A probe that found a configuration file with a [reflection] field. *)
Definition carriesReflection (probe : ConfigProbe) : Prop :=
  match probe with
  | ConfigFile VUndefined => False
  | ConfigFile _ => True
  | _ => False
  end.

(** The order of precedence in the words of the specification: the nearest
    tag up the parents, then the mode set by the application, then the
    nearest configuration with the field, then [never]. *)
Inductive ResolvedMode (t : ReflectionTransformer) (node : Position) : JsValue -> Prop :=
| ByTag (before : list (list JSDocTag)) (pre : list JSDocTag) (tag : JSDocTag)
    (post : list JSDocTag) (after : list (list JSDocTag)) (c : string) :
    tags node :: parents node = before ++ (pre ++ tag :: post) :: after ->
    untagged before ->
    (forall x, In x pre -> ~ isReflectionTag x) ->
    tagName tag = "reflection"%string ->
    comment tag = Some c ->
    ResolvedMode t node
      (parseReflectionMode (if String.eqb c "" then VBoolean true else VString c))
| ByOverride (mode : string) :
    untagged (tags node :: parents node) ->
    reflectionMode t = Some mode ->
    ResolvedMode t node (VString mode)
| ByConfiguration (before : list ConfigProbe) (reflection : JsValue)
    (after : list ConfigProbe) :
    untagged (tags node :: parents node) ->
    reflectionMode t = None ->
    ancestorConfigs t = before ++ ConfigFile reflection :: after ->
    (forall probe, In probe before -> ~ carriesReflection probe) ->
    reflection <> VUndefined ->
    ResolvedMode t node (parseReflectionMode reflection)
| ByDefault :
    untagged (tags node :: parents node) ->
    reflectionMode t = None ->
    (forall probe, In probe (ancestorConfigs t) -> ~ carriesReflection probe) ->
    ResolvedMode t node (VString "never").

(** The shapes that no branch of [extractPackStructOfType] takes. *)
Definition unhandledShape (node : Node) : bool :=
  match node with
  | Token kind | OtherNode kind _ =>
      negb (existsb (SyntaxKind_eqb kind)
              [StringKeyword; NumberKeyword; BooleanKeyword; BigIntKeyword;
               VoidKeyword; NullKeyword; UndefinedKeyword])
  | PropertySignature _ _ None => true
  | PropertyDeclaration _ _ _ None _ => true
  | TypeAliasDeclaration _ _ | MappedType | EnumDeclaration _ | ClassReference _
  | ImportSpecifier _ _ _ => true
  | _ => false
  end.

(** A type reference under whose name [knownClasses] gives nothing, that is
    not [Promise], and for which the resolver, having returned, found no
    declaration. *)
Definition unresolvableReference (host : Host) (fuel : nat) (node : Node) : Prop :=
  match node with
  | TypeReference typeName _ =>
      (forall i, typeName = EntityIdentifier i ->
                 knownClassesGet (escapedText i) = None
                 /\ escapedText i <> "Promise"%string)
      /\ resolveDeclaration host fuel typeName = Some None
  | _ => False
  end.

(** A member whose name is the identifier [__type]. *)
Definition namedType (property : ClassElement) : Prop :=
  exists i, nodeName (element property) = Some (NameIdentifier i)
            /\ text i = "__type"%string.

(** A member named [__type], whatever kind of name it is: an identifier, a
    string literal, ... *)
Definition bearsTypeName (property : ClassElement) : Prop :=
  sampleNameAsString (nodeName (element property)) = "__type"%string.

(** A type reference in the words of the specification: its identifier is
    no known built-in, and no declaration is found for it, however long
    the resolver searches. *)
Definition neverResolved (host : Host) (node : Node) : Prop :=
  match node with
  | TypeReference (EntityIdentifier i) _ =>
      knownClassesGet (escapedText i) = None
      /\ escapedText i <> "Promise"%string
      /\ forall fuel resolved,
           resolveDeclaration host fuel (EntityIdentifier i) <> Some (Some resolved)
  | _ => False
  end.

(** ** Predicates of the further properties *)

(** The integer that [pack] builds, least significant opcode first. *)
Fixpoint packValue (ops : list Z) : Z :=
  match ops with
  | [] => 0
  | op :: rest => op + packSize * packValue rest
  end.

(** An entry of [ops] that fits the slot of [packSizeByte] bits. *)
Definition fitsSlot (op : Z) : Prop := 0 <= op < packSize.

(** The import specifiers flagged before are those flagged after, in the
    same order, with more at the end. *)
Definition flagsKept (st st' : Extraction) : Prop :=
  exists l, synthesized (world st') = synthesized (world st) ++ l.

(** The entries the extractor writes: names, literal nodes and arrows. *)
Definition extractedKind (e : StackEntry) : bool :=
  match e with
  | EString _ | ELiteralNode _ | EArrow _ => true
  | ENumber _ | EBoolean _ => false
  end.

(** The stack after is the stack before with such entries at the end. *)
Definition kindsKept (st st' : Extraction) : Prop :=
  exists s, stackOf st' = stackOf st ++ s /\ forallb extractedKind s = true.

Definition isClassOrEnum (n : Node) : bool :=
  match n with
  | ClassReference _ | EnumDeclaration _ => true
  | _ => false
  end.

(** The name of a member as [extractMembers] compares it. *)
Definition memberText (host : Host) (member : Node) : string :=
  getNameAsString host (nodeName member).

(** A statement that the loop of [resolveImportSpecifier] passes without a
    call: no export declaration, [export * as ns from], or [export { ... }
    from] with no element of the name sought. *)
Definition passedOver (declarationName : string) (statement : Statement) : bool :=
  match statement with
  | OtherStatement => true
  | ExportDeclaration e =>
      match exportClause e with
      | Some (NamedExports elements) =>
          forallb
            (fun element =>
               negb (String.eqb (escapedText (exportName element)) declarationName))
            elements
      | Some (NamespaceExport _) => true
      | None => false
      end
  end.

(** An import or export declaration from which the search for
    [declarationName] goes on: its file declares no such name, and the
    first statement of the file that the loop does not pass over is an
    [export * from] that is [next]. *)
Definition leadsTo (host : Host) (declarationName : string) (e next : ImportOrExport)
  : Prop :=
  exists m source pre post,
    moduleSpecifier e = Some (ModuleStringLiteral m)
    /\ getExternalModuleFileFromDeclaration host e = Some source
    /\ findDeclarationInFile source declarationName = None
    /\ statements source = pre ++ ExportDeclaration next :: post
    /\ forallb (passedOver declarationName) pre = true
    /\ exportClause next = None.

(** A function expression, an arrow function or a function declaration
    with the given parameters and return type. *)
Definition isFunctionOf (parameters : list (option Node)) (type : option Node)
  (node : Node) : Prop :=
  node = FunctionExpression parameters type
  \/ node = ArrowFunction parameters type
  \/ exists name, node = FunctionDeclaration name parameters type.

(** The keys of the object literal are names of members of the class, none
    of them the identifier [__type]. *)
Definition keyedByMembers (c : ClassDeclaration)
  (elements : list (MemberName * Expression)) : Prop :=
  Forall
    (fun entry =>
       isTypeMember (fst entry) = false
       /\ exists property,
            In property (classMembers c)
            /\ memberName (element property) = Some (fst entry))
    elements.

(** How deep the type nodes nest in one another. *)
Fixpoint depth (node : Node) : nat :=
  let ofOption (type : option Node) :=
    match type with Some t => depth t | None => O end in
  let ofCallable (parameters : list (option Node)) (type : option Node) :=
    S (Nat.max (list_max (map ofOption parameters)) (ofOption type)) in
  match node with
  | ParenthesizedType type => S (depth type)
  | InterfaceDeclaration _ members _ => S (Nat.max (list_max (map depth members)) 1)
  | TypeLiteral members => S (Nat.max (list_max (map depth members)) 1)
  | TypeReference _ typeArguments =>
      S (match typeArguments with
         | Some arguments => list_max (map depth arguments)
         | None => O
         end)
  | ArrayType elementType => S (depth elementType)
  | PropertySignature _ _ type => S (ofOption type)
  | ConstructorDeclaration parameters type => ofCallable parameters type
  | PropertyDeclaration _ _ _ type _ => S (ofOption type)
  | MethodDeclaration _ _ parameters type => ofCallable parameters type
  | ArrowFunction parameters type => ofCallable parameters type
  | FunctionExpression parameters type => ofCallable parameters type
  | FunctionDeclaration _ parameters type => ofCallable parameters type
  | UnionType types => S (list_max (map depth types))
  | IndexSignature parameter0 type => S (Nat.max (ofOption parameter0) (depth type))
  | _ => 1%nat
  end.

(** ** Further sample programs *)

(** [interface Tree { label: string; next: Tree }], and a checker that
    gives this declaration for the name [Tree]. *)
Definition treeInterface : Node :=
  InterfaceDeclaration (ident "Tree")
    [PropertySignature (NameIdentifier (ident "label")) false (Some (Token StringKeyword));
     PropertySignature (NameIdentifier (ident "next")) false
       (Some (TypeReference (EntityIdentifier (ident "Tree")) None))]
    None.

Definition treeHost : Host :=
  {| getNameAsString := sampleNameAsString;
     getSymbolAtLocation :=
       fun e => if String.eqb (text e) "Tree"
                then Some {| symbolId := 1; declarations := Some [treeInterface] |}
                else None;
     getDeclaredTypeOfSymbol := fun _ => None;
     getExternalModuleFileFromDeclaration := fun _ => None |}.

(** [import { Model } from './model'], where the checker gives the import
    specifier for the name [Model] and the class declaration for its
    declared type. *)
Definition modelImport : ImportOrExport :=
  {| declarationId := 2;
     moduleSpecifier := Some (ModuleStringLiteral "./model");
     exportClause := None |}.

Definition modelSpecifier : Node := ImportSpecifier (ident "Model") None modelImport.

Definition modelHost : Host :=
  {| getNameAsString := sampleNameAsString;
     getSymbolAtLocation :=
       fun e => if String.eqb (text e) "Model"
                then Some {| symbolId := 3; declarations := Some [modelSpecifier] |}
                else None;
     getDeclaredTypeOfSymbol :=
       fun _ => Some {| typeSymbol :=
                          Some {| symbolId := 4;
                                  declarations :=
                                    Some [ClassReference (Some (ident "Model"))] |} |};
     getExternalModuleFileFromDeclaration := fun _ => None |}.

(** [a.ts] holds [export * from './b'], and [b.ts] holds
    [export * from './a']. *)
Definition exportFromB : ImportOrExport :=
  {| declarationId := 11;
     moduleSpecifier := Some (ModuleStringLiteral "./b");
     exportClause := None |}.

Definition exportFromA : ImportOrExport :=
  {| declarationId := 12;
     moduleSpecifier := Some (ModuleStringLiteral "./a");
     exportClause := None |}.

Definition fileA : SourceFile :=
  {| fileName := "a.ts";
     locals := Some [];
     statements := [OtherStatement; ExportDeclaration exportFromB] |}.

Definition fileB : SourceFile :=
  {| fileName := "b.ts";
     locals := None;
     statements := [ExportDeclaration exportFromA] |}.

Definition cycleHost : Host :=
  {| getNameAsString := sampleNameAsString;
     getSymbolAtLocation := fun _ => None;
     getDeclaredTypeOfSymbol := fun _ => None;
     getExternalModuleFileFromDeclaration :=
       fun d => if Nat.eqb (declarationId d) 11 then Some fileB
                else if Nat.eqb (declarationId d) 12 then Some fileA
                else None |}.

(** [class Q { '__type': string }]: the member is named by a string
    literal. *)
Definition quotedTypeClass : ClassDeclaration :=
  {| className := Some (ident "Q");
     classMembers :=
       [{| element :=
             PropertyDeclaration [] (NameStringLiteral "__type") false
               (Some (Token StringKeyword)) None;
           elementTags := [] |}];
     classPosition := topLevel |}.

(** [class A { t: Tree; static __type = {} }], with the checker of
    [treeHost]. *)
Definition treeTransformer : ReflectionTransformer :=
  {| env := treeHost; reflectionMode := Some "default"%string; ancestorConfigs := [] |}.

Definition treeClass : ClassDeclaration :=
  {| className := Some (ident "A");
     classMembers :=
       [{| element :=
             PropertyDeclaration [] (NameIdentifier (ident "t")) false
               (Some (TypeReference (EntityIdentifier (ident "Tree")) None)) None;
           elementTags := [] |};
        typeMember (ObjectLiteralExpression [])];
     classPosition := topLevel |}.

(** [import { Thing } from './a'], where [a.ts] and [b.ts] are the files
    above, each with its [export * from] the other; the checker gives the
    import specifier for the name [Thing] and no declared type for it. *)
Definition thingImport : ImportOrExport :=
  {| declarationId := 13;
     moduleSpecifier := Some (ModuleStringLiteral "./a");
     exportClause := None |}.

Definition thingSpecifier : Node := ImportSpecifier (ident "Thing") None thingImport.

Definition thingHost : Host :=
  {| getNameAsString := sampleNameAsString;
     getSymbolAtLocation :=
       fun e => if String.eqb (text e) "Thing"
                then Some {| symbolId := 5; declarations := Some [thingSpecifier] |}
                else None;
     getDeclaredTypeOfSymbol := fun _ => Some {| typeSymbol := None |};
     getExternalModuleFileFromDeclaration :=
       fun d => if Nat.eqb (declarationId d) 13 then Some fileA
                else getExternalModuleFileFromDeclaration cycleHost d |}.

(** * Properties *)

(** ** The codec *)

Lemma substring_zero_length (m : nat) (s : string) :
  (String.length (substring 0 m s) <= m)%nat.
Proof.
  revert s; induction m as [|m IH]; intros [|c s]; simpl; try lia.
  specialize (IH s); lia.
Qed.

Lemma sliceDropLast_shorter (c : ascii) (s : string) :
  (String.length (sliceDropLast 12 (String c s)) < String.length (String c s))%nat.
Proof.
  unfold sliceDropLast.
  pose proof (substring_zero_length (String.length (String c s) - 12) (String c s)).
  simpl in *; lia.
Qed.

Lemma sliceDropLast_short (s : string) :
  (String.length s <= 12)%nat -> sliceDropLast 12 s = EmptyString.
Proof.
  intros H; unfold sliceDropLast.
  replace (String.length s - 12)%nat with 0%nat by lia.
  destruct s; reflexivity.
Qed.

(** A slot past the highest bit of the number is zero. *)
Lemma slot_past_end (d i : Z) :
  Z.log2 (Z.abs d) / packSizeByte < i -> slot (Some d) i = 0.
Proof.
  intros H; unfold slot, packSizeByte in *.
  assert (Hi : 0 <= i).
  { pose proof (Z.log2_nonneg (Z.abs d)).
    pose proof (Z.div_pos (Z.log2 (Z.abs d)) 6 ltac:(lia) ltac:(lia)). lia. }
  assert (Hlog : Z.log2 (Z.abs d) < 6 * i).
  { pose proof (Z.mul_succ_div_gt (Z.log2 (Z.abs d)) 6 ltac:(lia)). lia. }
  assert (Hq : Z.quot d (2 ^ (6 * i)) = 0).
  { apply Z.quot_small_iff.
    - apply Z.pow_nonzero; lia.
    - rewrite (Z.abs_eq (2 ^ (6 * i))) by (apply Z.pow_nonneg; lia).
      destruct (Z.eq_dec (Z.abs d) 0) as [E|E].
      + rewrite E. apply Z.pow_pos_nonneg; lia.
      + apply Z.log2_lt_pow2; lia. }
  rewrite Hq. reflexivity.
Qed.

(** The inner loop of [unpackOps] ends within the fuel it is given. *)
Lemma unpackSlots_returns (ops : option Z) (fuel : nat) (i : Z) (decodedOps : list Z) :
  (match ops with
   | Some d => Z.log2 (Z.abs d) / packSizeByte < i + Z.of_nat fuel
   | None => True
   end) ->
  unpackSlots fuel ops i decodedOps <> None.
Proof.
  revert i decodedOps; induction fuel as [|fuel IH]; intros i decodedOps H; simpl.
  - destruct ops as [d|].
    + rewrite slot_past_end by lia. discriminate.
    + discriminate.
  - destruct (slot ops i =? 0); [discriminate|].
    apply IH. destruct ops; [lia|exact I].
Qed.

Lemma unpackOpsLoop_returns (fuel : nat) (decodedOps : list Z) (encodedOPs : string) :
  (String.length encodedOPs <= fuel)%nat ->
  unpackOpsLoop fuel decodedOps encodedOPs <> None.
Proof.
  revert decodedOps encodedOPs; induction fuel as [|fuel IH];
    intros decodedOps [|c s] H; simpl in H |- *; try discriminate; try lia.
  fold (sliceDropLast 12 (String c s)).
  set (rest := sliceDropLast 12 (String c s)).
  set (n := parseInt (sliceLast 12 rest) 36).
  destruct (unpackSlots (slotFuel n) n 0 decodedOps) as [d'|] eqn:E.
  - apply IH. pose proof (sliceDropLast_shorter c s). fold rest in H0. simpl in H0. lia.
  - exfalso; revert E; apply unpackSlots_returns.
    unfold slotFuel; destruct n as [d|]; [|exact I].
    pose proof (Z.log2_nonneg (Z.abs d)).
    pose proof (Z.div_pos (Z.log2 (Z.abs d)) packSizeByte ltac:(lia) ltac:(reflexivity)).
    lia.
Qed.

(** [unpack] returns on every input. *)
Lemma unpack_returns (p : Packed) : unpack p <> None.
Proof.
  assert (H : forall s, unpackOps [] s <> None).
  { intros s; apply unpackOpsLoop_returns; lia. }
  destruct p as [s|items]; unfold unpack.
  - specialize (H s). destruct (unpackOps [] s); [discriminate|congruence].
  - destruct (lastEntry items) as [[s| | | |]|]; try discriminate.
    destruct (negb (String.eqb "string" s)); [discriminate|].
    specialize (H s). destruct (unpackOps [] s); [discriminate|congruence].
Qed.

(** A text of twelve characters or fewer decodes to no opcode at all: the
    loop drops the last twelve characters before it reads any. *)
Lemma unpackOps_short (s : string) :
  (String.length s <= 12)%nat -> unpackOps [] s = Some [].
Proof.
  intros H; unfold unpackOps.
  destruct s as [|c s]; [reflexivity|].
  cbn [String.length unpackOpsLoop].
  rewrite (sliceDropLast_short (String c s) H).
  destruct (String.length s); reflexivity.
Qed.

(** C1 (evaluated where it fails): the opcode sequence [[string]] does not
    come back from [unpack (pack _)], neither with an empty literal stack,
    where [unpackOps] discards the only group of characters, nor with a
    stack, where [unpack] compares the last element with the text "string"
    and gives up; both results are empty. *)
Theorem unpack_pack_loses_ops :
  pack (OfStruct {| ops := [ReflectionOp.string]; stack := [] |}) = PackedString "3"
  /\ unpack (pack (OfStruct {| ops := [ReflectionOp.string]; stack := [] |}))
     = Some {| ops := []; stack := [] |}
  /\ pack (OfStruct {| ops := [ReflectionOp.string]; stack := [EString "a"] |})
     = PackedArray [EString "a"; EString "3"]
  /\ unpack (pack (OfStruct {| ops := [ReflectionOp.string]; stack := [EString "a"] |}))
     = Some {| ops := []; stack := [] |}.
Proof. repeat split; reflexivity. Qed.

(** C10: an array whose last element is not the text "string" (an array
    with no element at all included) unpacks to no opcode and an empty
    stack, whatever the type of that element. *)
Theorem unpack_array_without_marker (items : list StackEntry) :
  lastEntry items <> Some (EString "string") ->
  unpack (PackedArray items) = Some {| ops := []; stack := [] |}.
Proof.
  intros H; unfold unpack.
  destruct (lastEntry items) as [[s| | | |]|]; try reflexivity.
  destruct (String.eqb_spec "string" s) as [E|E]; [|reflexivity].
  subst s. congruence.
Qed.

(** With the text "string" at the end, the elements before it come back as
    the stack, and no opcode: "string" is shorter than thirteen
    characters. *)
Lemma unpack_array_with_marker (entries : list StackEntry) :
  unpack (PackedArray (entries ++ [EString "string"]))
  = Some {| ops := []; stack := entries |}.
Proof.
  unfold unpack, lastEntry, dropLastEntry.
  rewrite length_app. cbn [List.length].
  replace (List.length entries + 1 - 1)%nat with (List.length entries) by lia.
  rewrite nth_error_app2 by lia. rewrite Nat.sub_diag. cbn [nth_error].
  cbn [String.eqb Ascii.eqb Bool.eqb negb andb].
  rewrite firstn_app, Nat.sub_diag, firstn_all. cbn [firstn]. rewrite app_nil_r.
  change (unpackOps [] "string") with (Some (@nil Z)).
  destruct entries as [|e rest]; [reflexivity|].
  destruct (Z.ltb_spec 1 (Z.of_nat (List.length (e :: rest) + 1))) as [_|H];
    [reflexivity|].
  cbn [List.length] in H. lia.
Qed.

Lemma unpack_array_without_marker_witness :
  lastEntry [EString "a"; EString "3"] <> Some (EString "string")
  /\ unpack (PackedArray [EString "a"; EString "3"]) = Some {| ops := []; stack := [] |}.
Proof.
  assert (H : lastEntry [EString "a"; EString "3"] <> Some (EString "string"))
    by (simpl; discriminate).
  split; [exact H | exact (unpack_array_without_marker _ H)].
Defined.

(** ** The extractor: what every run preserves *)

Lemma tableGet_In {V : Type} (table : list (string * V)) (key : string) (v : V) :
  tableGet table key = Some v -> In (key, v) table.
Proof.
  induction table as [|[k w] rest IH]; simpl; [discriminate|].
  destruct (String.eqb_spec k key) as [->|_].
  - intros [= ->]; now left.
  - intros H; right; auto.
Qed.

Lemma knownClasses_plain (name : string) (op : Z) :
  tableGet knownClasses name = Some op -> hasParameter op = false.
Proof.
  intros H; apply tableGet_In in H.
  assert (F : Forall (fun p => hasParameter (snd p) = false) knownClasses)
    by (repeat constructor).
  rewrite Forall_forall in F. exact (F _ H).
Qed.

Lemma knownClassesGet_plain (name : string) (op : Z) :
  knownClassesGet name = Some op -> hasParameter op = false.
Proof.
  unfold knownClassesGet. destruct (tableGet knownClasses name) as [own|] eqn:E.
  - intros [= <-]. exact (knownClasses_plain name own E).
  - destruct (existsb (String.eqb name) inheritedNames); [|discriminate].
    intros [= <-]. reflexivity.
Qed.

Section Preservation.
Variable host : Host.

(** A relation between the state before and the state after. *)
Variable R : Extraction -> Extraction -> Prop.

Hypothesis R_refl : forall st, R st st.
Hypothesis R_trans : forall a b c, R a b -> R b c -> R a c.
Hypothesis R_push :
  forall op st, hasParameter op = false -> R st (pushOps [op] st).
Hypothesis R_name :
  forall s st, R st (pushWithEntry ReflectionOp.propertySignature (EString s) st).
Hypothesis R_literal :
  forall l st, R st (pushWithEntry ReflectionOp.literal (ELiteralNode l) st).
Hypothesis R_enum :
  forall typeName st,
    R st (let '(arrow, st') := referenceArrow typeName st in
          pushWithEntry ReflectionOp.enum (EArrow arrow) st').
Hypothesis R_class :
  forall typeName st,
    R st (let '(arrow, st') := referenceArrow typeName st in
          withStack (stackOf st' ++ [EArrow arrow]) st').
Hypothesis R_ensure :
  forall resolved st, R st (ensureImportIsEmitted resolved st).

Lemma forEach_preserves {A : Type} (body : A -> Extraction -> option Extraction)
  (l : list A) :
  (forall a st st', body a st = Some st' -> R st st') ->
  forall st st', forEach body l st = Some st' -> R st st'.
Proof.
  intros Hbody; induction l as [|a l IH]; simpl; intros st st' H.
  - injection H as <-; apply R_refl.
  - unbind H. eapply R_trans; [eapply Hbody; eassumption|eauto].
Qed.

Lemma forEach_preserves_snd {A M : Type}
  (body : A -> M * Extraction -> option (M * Extraction)) (l : list A) :
  (forall a acc acc', body a acc = Some acc' -> R (snd acc) (snd acc')) ->
  forall acc acc', forEach body l acc = Some acc' -> R (snd acc) (snd acc').
Proof.
  intros Hbody; induction l as [|a l IH]; simpl; intros acc acc' H.
  - injection H as <-; apply R_refl.
  - unbind H. eapply R_trans; [eapply Hbody; eassumption|eauto].
Qed.

Lemma pushModifiers_preserves (modifiers : list SyntaxKind) (st : Extraction) :
  R st (pushModifiers modifiers st).
Proof.
  unfold pushModifiers.
  destruct (hasModifier modifiers PrivateKeyword),
           (hasModifier modifiers ProtectedKeyword),
           (hasModifier modifiers AbstractKeyword);
    repeat first [apply R_refl | apply R_push; reflexivity
                 | eapply R_trans; [|apply R_push; reflexivity]].
Qed.

Lemma extractMembers_preserves (rec : Node -> Extraction -> option Extraction) :
  preserving R rec ->
  forall fuel decl acc acc',
    extractMembers host rec fuel decl acc = Some acc' -> R (snd acc) (snd acc').
Proof.
  intros Hrec; induction fuel as [|fuel IH]; intros decl acc acc' H;
    simpl in H; [discriminate|].
  unbind H.
  assert (H1 : R (snd acc) (snd p)).
  { revert E; apply forEach_preserves_snd.
    intros member [members st] acc2 Hb.
    destruct (negb _ && existsb _ members).
    - injection Hb as <-; apply R_refl.
    - unbind Hb. injection Hb as <-. simpl. eapply Hrec; eassumption. }
  eapply R_trans; [exact H1|].
  destruct decl; try (injection H as <-; apply R_refl).
  destruct heritageClauses as [clauses|]; [|injection H as <-; apply R_refl].
  revert H; apply forEach_preserves_snd.
  intros heritage acc1 acc2 Hh.
  destruct (SyntaxKind_eqb (token heritage) ExtendsKeyword);
    [|injection Hh as <-; apply R_refl].
  revert Hh; apply forEach_preserves_snd.
  intros extendType acc3 acc4 He.
  destruct extendType as [expression|]; [|injection He as <-; apply R_refl].
  unbind He. destruct o as [resolved|]; [|injection He as <-; apply R_refl].
  destruct (isInterfaceDeclaration (declaration resolved)).
  - eapply IH; eassumption.
  - injection He as <-; apply R_refl.
Qed.

Lemma extractCallable_preserves (rec : Node -> Extraction -> option Extraction)
  (isMethod isConstructor : bool) (modifiers : list SyntaxKind)
  (parameters : list (option Node)) (type : option Node) :
  preserving R rec ->
  forall st st',
    extractCallable rec isMethod isConstructor modifiers parameters type st = Some st' ->
    R st st'.
Proof.
  intros Hrec st st' H.
  assert (G : forall st1,
    (st2 <- forEach (fun parameter st =>
               match parameter with
               | Some parameterType => rec parameterType st
               | None => Some st
               end) parameters st1 ;;
     st3 <- match type with
            | Some t => rec t st2
            | None => Some (pushOps [ReflectionOp.any] st2)
            end ;;
     Some (if isMethod
           then pushModifiers modifiers
                  (pushOps [if isMethod || isConstructor
                            then ReflectionOp.method else ReflectionOp.function] st3)
           else pushOps [if isMethod || isConstructor
                         then ReflectionOp.method else ReflectionOp.function] st3))
    = Some st' -> R st1 st').
  { clear H; intros st1 H. unbind H. unbind H. injection H as <-.
    assert (Ha : R st1 e).
    { revert E; apply forEach_preserves.
      intros [t|] s s' Hp; [eapply Hrec; eassumption|injection Hp as <-; apply R_refl]. }
    assert (Hb : R e e0).
    { destruct type; [eapply Hrec; eassumption|].
      injection E0 as <-; apply R_push; reflexivity. }
    assert (Hc : R e0 (pushOps [if isMethod || isConstructor
                                then ReflectionOp.method else ReflectionOp.function] e0))
      by (apply R_push; destruct (isMethod || isConstructor); reflexivity).
    destruct isMethod.
    - eapply R_trans; [exact Ha|]. eapply R_trans; [exact Hb|].
      eapply R_trans; [exact Hc|apply pushModifiers_preserves].
    - eapply R_trans; [exact Ha|]. eapply R_trans; [exact Hb|exact Hc]. }
  unfold extractCallable in H.
  destruct parameters as [|p ps]; [destruct type as [t|]|]; try (apply G; exact H).
  injection H as <-; apply R_refl.
Qed.

Lemma extractPackStructOfTypeReference_preserves
  (rec : Node -> Extraction -> option Extraction) (fuel : nat)
  (typeName : EntityName) (typeArguments : option (list Node)) :
  preserving R rec ->
  forall st st',
    extractPackStructOfTypeReference host rec fuel typeName typeArguments st = Some st' ->
    R st st'.
Proof.
  intros Hrec st st' H; unfold extractPackStructOfTypeReference in H.
  destruct (match typeName with
            | EntityIdentifier i => knownClassesGet (escapedText i)
            | QualifiedName _ _ => None
            end) as [op|] eqn:Known.
  { injection H as <-; apply R_push.
    destruct typeName; [eapply knownClassesGet_plain; eassumption|discriminate]. }
  destruct (match typeName with
            | EntityIdentifier i => String.eqb (escapedText i) "Promise"
            | QualifiedName _ _ => false
            end).
  { unbind H. injection H as <-.
    eapply R_trans; [|apply R_push; reflexivity].
    destruct typeArguments as [[|argument ?]|];
      first [eapply Hrec; eassumption
            | injection E as <-; apply R_push; reflexivity]. }
  unbind H. destruct o as [resolved|];
    [|injection H as <-; apply R_push; reflexivity].
  pose proof (R_enum typeName (ensureImportIsEmitted resolved st)) as He.
  pose proof (R_class typeName (ensureImportIsEmitted resolved st)) as Hc.
  destruct (declaration resolved) eqn:D; try (eapply Hrec; eassumption).
  - injection H as <-; apply R_refl.
  - destruct (referenceArrow typeName (ensureImportIsEmitted resolved st))
      as [arrow st1].
    injection H as <-.
    eapply R_trans; [apply R_ensure|exact He].
  - destruct (referenceArrow typeName (ensureImportIsEmitted resolved st))
      as [arrow st1].
    unbind H. injection H as <-.
    eapply R_trans; [apply R_ensure|].
    eapply R_trans; [exact Hc|].
    eapply R_trans; [|apply R_push; reflexivity].
    destruct typeArguments as [templates|].
    + revert E0; apply forEach_preserves. exact Hrec.
    + injection E0 as <-; apply R_refl.
Qed.

(** Every run of the extractor relates the state it starts from to the
    state it returns. *)
Lemma extractPackStructOfType_preserves :
  forall fuel node st st',
    extractPackStructOfType host fuel node st = Some st' -> R st st'.
Proof.
  induction fuel as [|fuel IH]; intros node st st' H; [discriminate|].
  assert (Hrec : preserving R (extractPackStructOfType host fuel)) by exact IH.
  cbn [extractPackStructOfType] in H.
  destruct node.
  - destruct kind; injection H as <-; apply R_push; reflexivity.
  - eapply IH; eassumption.
  - unbind H. injection H as <-.
    eapply R_trans; [|apply R_push; reflexivity].
    change st with (snd (@nil Node, st)).
    eapply extractMembers_preserves; eassumption.
  - unbind H. injection H as <-.
    eapply R_trans; [|apply R_push; reflexivity].
    change st with (snd (@nil Node, st)).
    eapply extractMembers_preserves; eassumption.
  - eapply extractPackStructOfTypeReference_preserves; eassumption.
  - unbind H. injection H as <-.
    eapply R_trans; [eapply IH; eassumption|apply R_push; reflexivity].
  - destruct type as [type|]; [|injection H as <-; apply R_push; reflexivity].
    unbind H. injection H as <-.
    eapply R_trans; [eapply IH; eassumption|apply R_name].
  - destruct type as [type|].
    + unbind H. injection H as <-.
      eapply R_trans; [eapply IH; eassumption|apply R_push; reflexivity].
    + eapply extractCallable_preserves; eassumption.
  - destruct type as [type|]; [|injection H as <-; apply R_push; reflexivity].
    unbind H. injection H as <-.
    eapply R_trans; [eapply IH; eassumption|].
    eapply R_trans; [|apply pushModifiers_preserves].
    destruct questionToken; [apply R_push; reflexivity|apply R_refl].
  - eapply extractCallable_preserves; eassumption.
  - eapply extractCallable_preserves; eassumption.
  - eapply extractCallable_preserves; eassumption.
  - eapply extractCallable_preserves; eassumption.
  - destruct (SyntaxKind_eqb (literalKind literal) NullKeyword);
      injection H as <-; [apply R_push; reflexivity|apply R_literal].
  - destruct types as [|t1 [|t2 rest]].
    + injection H as <-; apply R_refl.
    + eapply IH; eassumption.
    + unbind H. injection H as <-.
      eapply R_trans; [|apply R_push; reflexivity].
      apply (forEach_preserves _ _ Hrec) in E.
      eapply R_trans; [|exact E].
      destruct (opsOf st); [apply R_refl|apply R_push; reflexivity].
  - unbind H. unbind H. injection H as <-.
    eapply R_trans; [|apply R_push; reflexivity].
    eapply R_trans; [|eapply IH; eassumption].
    destruct parameter0; [eapply IH; eassumption|].
    injection E as <-; apply R_push; reflexivity.
  - injection H as <-; apply R_push; reflexivity.
  - injection H as <-; apply R_push; reflexivity.
  - injection H as <-; apply R_push; reflexivity.
  - injection H as <-; apply R_push; reflexivity.
  - injection H as <-; apply R_push; reflexivity.
  - destruct kind; injection H as <-; apply R_push; reflexivity.
Qed.
End Preservation.

(** *** The extractor only appends *)

Lemma appendsTo_refl (st : Extraction) : appendsTo st st.
Proof.
  repeat split; [exists []|exists []|lia]; now rewrite app_nil_r.
Qed.

Lemma appendsTo_trans (a b c : Extraction) :
  appendsTo a b -> appendsTo b c -> appendsTo a c.
Proof.
  intros [[o1 H1] [[s1 H2] H3]] [[o2 H4] [[s2 H5] H6]].
  repeat split; [exists (o1 ++ o2)|exists (s1 ++ s2)|lia].
  - now rewrite H4, H1, app_assoc.
  - now rewrite H5, H2, app_assoc.
Qed.

Lemma indexOfFrom_bounds (stack : list StackEntry) (entry : StackEntry) (i index : nat) :
  indexOfFrom stack entry i = Some index ->
  (i <= index < i + List.length stack)%nat.
Proof.
  revert i; induction stack as [|e rest IH]; simpl; intros i H; [discriminate|].
  destruct (strictEquals e entry).
  - injection H as <-; lia.
  - apply IH in H; lia.
Qed.

Lemma indexOfFrom_none (stack : list StackEntry) (entry : StackEntry) (i : nat) :
  indexOfFrom stack entry i = None ->
  ~ In (entryKey entry) (map entryKey stack).
Proof.
  revert i; induction stack as [|e rest IH]; simpl; intros i H; [tauto|].
  unfold strictEquals in H.
  destruct (EntryKey_eq_dec (entryKey e) (entryKey entry)) as [E|E]; [discriminate|].
  intros [E'|HIn]; [congruence|]. exact (IH _ H HIn).
Qed.

(** [findOrAddStackEntry] returns an index into the stack it leaves, and
    leaves the stack as it was or with the entry added at the end. *)
Lemma findOrAddStackEntry_spec (stack : list StackEntry) (entry : StackEntry) :
  let '(stack', index) := findOrAddStackEntry stack entry in
  0 <= index < Z.of_nat (List.length stack')
  /\ (stack' = stack
      \/ (stack' = stack ++ [entry] /\ ~ In (entryKey entry) (map entryKey stack))).
Proof.
  unfold findOrAddStackEntry, indexOf.
  destruct (indexOfFrom stack entry 0) as [index|] eqn:E.
  - apply indexOfFrom_bounds in E. split; [lia|now left].
  - apply indexOfFrom_none in E. split; [|now right].
    rewrite length_app; simpl; lia.
Qed.

Lemma pushWithEntry_appendsTo (op : Z) (entry : StackEntry) (st : Extraction) :
  appendsTo st (pushWithEntry op entry st).
Proof.
  unfold pushWithEntry.
  pose proof (findOrAddStackEntry_spec (stackOf st) entry) as H.
  destruct (findOrAddStackEntry (stackOf st) entry) as [stack' index].
  destruct H as [_ H]. repeat split; simpl; [eexists; reflexivity| |lia].
  destruct H as [->|[-> _]]; [exists []; now rewrite app_nil_r|eexists; reflexivity].
Qed.

Lemma extractPackStructOfType_appendsTo (host : Host) :
  forall fuel node st st',
    extractPackStructOfType host fuel node st = Some st' -> appendsTo st st'.
Proof.
  apply extractPackStructOfType_preserves.
  - apply appendsTo_refl.
  - apply appendsTo_trans.
  - intros op st _. repeat split; simpl;
      [eexists; reflexivity|exists []; now rewrite app_nil_r|lia].
  - intros; apply pushWithEntry_appendsTo.
  - intros; apply pushWithEntry_appendsTo.
  - intros typeName st. unfold referenceArrow, createArrowFunction.
    eapply appendsTo_trans; [|apply pushWithEntry_appendsTo].
    repeat split; simpl; [exists []|exists []|lia]; now rewrite app_nil_r.
  - intros typeName st. unfold referenceArrow, createArrowFunction.
    repeat split; simpl; [exists []; now rewrite app_nil_r|eexists; reflexivity|lia].
  - intros resolved st. unfold ensureImportIsEmitted.
    destruct (importSpecifier resolved); [|apply appendsTo_refl].
    repeat split; simpl; [exists []|exists []|lia]; now rewrite app_nil_r.
Qed.

(** ** Unions *)

Lemma forEach_recursedInOrder (host : Host) (fuel : nat) (types : list Node)
  (st st' : Extraction) :
  forEach (extractPackStructOfType host fuel) types st = Some st'
  <-> recursedInOrder host fuel types st st'.
Proof.
  revert st; induction types as [|type rest IH]; simpl; intros st.
  - split; [intros [= <-]; reflexivity|intros ->; reflexivity].
  - split.
    + intros H. unbind H. exists e. split; [reflexivity|now apply IH].
    + intros [mid [H1 H2]]. rewrite H1. now apply IH.
Qed.

(** C3: a union of no subtype emits nothing; a union of one subtype is the
    extraction of that subtype, with no frame and no union opcode; a union
    of two subtypes or more emits [frame] exactly when the accumulator is
    not empty, then recurses the subtypes in order, then emits [union]. *)
Theorem union_extraction (host : Host) (fuel : nat) (st : Extraction) :
  extractPackStructOfType host (S fuel) (UnionType []) st = Some st
  /\ (forall type,
        extractPackStructOfType host (S fuel) (UnionType [type]) st
        = extractPackStructOfType host fuel type st)
  /\ (forall t1 t2 rest st',
        extractPackStructOfType host (S fuel) (UnionType (t1 :: t2 :: rest)) st = Some st'
        <-> exists mid,
              recursedInOrder host fuel (t1 :: t2 :: rest)
                (pushOps (frameIfDirty st) st) mid
              /\ st' = pushOps [ReflectionOp.union] mid
              /\ exists emitted,
                   opsOf st'
                   = opsOf st ++ frameIfDirty st ++ emitted ++ [ReflectionOp.union]).
Proof.
  split; [reflexivity|]. split; [reflexivity|].
  intros t1 t2 rest st'.
  assert (Hstart :
    match opsOf st with [] => st | _ :: _ => pushOps [ReflectionOp.frame] st end
    = pushOps (frameIfDirty st) st).
  { unfold frameIfDirty. destruct (opsOf st) eqn:E; [|reflexivity].
    destruct st as [[o s] w]. unfold pushOps, opsOf, stackOf; simpl.
    now rewrite app_nil_r. }
  cbn [extractPackStructOfType]. rewrite Hstart.
  split.
  - intros H. unbind H. injection H as <-.
    exists e. split; [now apply forEach_recursedInOrder|]. split; [reflexivity|].
    apply (forEach_preserves appendsTo appendsTo_refl appendsTo_trans) in E;
      [|intros a s s'; apply extractPackStructOfType_appendsTo].
    destruct E as [[o Ho] _]. exists o.
    change (opsOf (pushOps [ReflectionOp.union] e)) with (opsOf e ++ [ReflectionOp.union]).
    rewrite Ho.
    change (opsOf (pushOps (frameIfDirty st) st)) with (opsOf st ++ frameIfDirty st).
    now rewrite <- !app_assoc.
  - intros [mid [Hrec [-> _]]].
    apply forEach_recursedInOrder in Hrec.
    rewrite Hrec. reflexivity.
Qed.

(** ** Parameters are valid addresses *)

Lemma parametersValid_app (size : Z) (a b : list Z) :
  parametersValid size a = true ->
  parametersValid size b = true ->
  parametersValid size (a ++ b) = true.
Proof.
  intros Ha Hb.
  assert (G : forall n a, (List.length a <= n)%nat ->
              parametersValid size a = true -> parametersValid size (a ++ b) = true).
  { clear a Ha. induction n as [|n IH]; intros a Hlen Ha.
    - destruct a; [exact Hb|simpl in Hlen; lia].
    - destruct a as [|op rest]; [exact Hb|].
      simpl in *. destruct (hasParameter op).
      + destruct rest as [|address rest']; [discriminate|].
        simpl in *. apply andb_true_iff in Ha as [Hbound Hrest].
        rewrite Hbound. apply IH; [lia|exact Hrest].
      + apply IH; [lia|exact Ha]. }
  exact (G _ a (le_n _) Ha).
Qed.

Lemma parametersValid_mono (size size' : Z) (ops : list Z) :
  size <= size' ->
  parametersValid size ops = true -> parametersValid size' ops = true.
Proof.
  intros Hle.
  assert (G : forall n ops, (List.length ops <= n)%nat ->
              parametersValid size ops = true -> parametersValid size' ops = true).
  { induction n as [|n IH]; intros o Hlen Ho.
    - destruct o; [reflexivity|simpl in Hlen; lia].
    - destruct o as [|op rest]; [reflexivity|].
      simpl in *. destruct (hasParameter op).
      + destruct rest as [|address rest']; [discriminate|].
        simpl in *. apply andb_true_iff in Ho as [Hbound Hrest].
        apply andb_true_iff in Hbound as [H0 H1].
        rewrite H0, (IH rest' ltac:(lia) Hrest). simpl.
        rewrite andb_true_r. apply Z.ltb_lt. apply Z.ltb_lt in H1. lia.
      + apply IH; [lia|exact Ho]. }
  exact (G _ ops (le_n _)).
Qed.

Lemma pushOps_plain_valid (op : Z) (st : Extraction) :
  hasParameter op = false -> addressesValid st -> addressesValid (pushOps [op] st).
Proof.
  intros Hop H; unfold addressesValid in *; simpl.
  apply parametersValid_app; [exact H|]. simpl. now rewrite Hop.
Qed.

Lemma pushWithEntry_valid (op : Z) (entry : StackEntry) (st : Extraction) :
  hasParameter op = true ->
  addressesValid st -> addressesValid (pushWithEntry op entry st).
Proof.
  intros Hop H; unfold addressesValid, pushWithEntry in *.
  pose proof (findOrAddStackEntry_spec (stackOf st) entry) as F.
  destruct (findOrAddStackEntry (stackOf st) entry) as [stack' index].
  destruct F as [Hindex Hstack].
  change (parametersValid (Z.of_nat (List.length stack')) (opsOf st ++ [op; index]) = true).
  apply parametersValid_app.
  - eapply parametersValid_mono; [|exact H].
    destruct Hstack as [->|[-> _]]; [lia|rewrite length_app; lia].
  - simpl. rewrite Hop.
    destruct (Z.leb_spec 0 index); [|lia].
    destruct (Z.ltb_spec index (Z.of_nat (List.length stack'))); [reflexivity|lia].
Qed.

(** The run of the extractor keeps the parameters valid. *)
Lemma extractPackStructOfType_valid (host : Host) :
  forall fuel node st st',
    extractPackStructOfType host fuel node st = Some st' ->
    addressesValid st -> addressesValid st'.
Proof.
  apply (extractPackStructOfType_preserves host
           (fun st st' => addressesValid st -> addressesValid st')).
  - auto.
  - auto.
  - intros; now apply pushOps_plain_valid.
  - intros; now apply pushWithEntry_valid.
  - intros; now apply pushWithEntry_valid.
  - intros typeName st H. unfold referenceArrow, createArrowFunction.
    now apply pushWithEntry_valid.
  - intros typeName st H. unfold referenceArrow, createArrowFunction.
    unfold addressesValid in *.
    change (parametersValid
              (Z.of_nat (List.length (stackOf st ++ [EArrow
                 {| arrowId := created (world st);
                    arrowBody := createAccessorForEntityName typeName |}])))
              (opsOf st) = true).
    eapply parametersValid_mono; [|exact H]. rewrite length_app; lia.
  - intros resolved st H. unfold ensureImportIsEmitted.
    destruct (importSpecifier resolved); exact H.
Qed.

(** C6: in every pair of opcodes and stack that the extractor produces,
    read from the left, each [literal], [propertySignature],
    [methodSignature] or [enum] opcode is followed by an integer of
    [[0, |stack|)]. *)
Theorem extracted_parameters_valid (host : Host) (fuel : nat) (node : Node)
  (w : World) (st : Extraction) :
  extractPackStructOfType host fuel node (newPackStruct w) = Some st ->
  parametersValid (Z.of_nat (List.length (stackOf st))) (opsOf st) = true.
Proof.
  intros H. apply (extractPackStructOfType_valid host _ _ _ _ H). reflexivity.
Qed.

Lemma extracted_parameters_valid_witness :
  extractPackStructOfType closedHost 4 interfaceI (newPackStruct emptyWorld)
  = Some {| struct := {| ops := [3; 14; 0; 4; 14; 1; 29];
                         stack := [EString "a"; EString "b"] |};
            world := emptyWorld |}
  /\ parametersValid 2 [3; 14; 0; 4; 14; 1; 29] = true.
Proof.
  split; [reflexivity|].
  exact (extracted_parameters_valid closedHost 4 interfaceI emptyWorld _ eq_refl).
Defined.

(** ** One index for equal entries *)

Lemma NoDup_snoc {A : Type} (l : list A) (x : A) :
  NoDup l -> ~ In x l -> NoDup (l ++ [x]).
Proof.
  intros Hl Hx. apply NoDup_app; [exact Hl|repeat constructor; simpl; tauto|].
  intros a Ha [<-|[]]. exact (Hx Ha).
Qed.

Lemma pushWithEntry_distinct (op : Z) (entry : StackEntry) (st : Extraction) :
  (forall a, entry = EArrow a -> (arrowId a < created (world st))%nat) ->
  entriesDistinct st -> entriesDistinct (pushWithEntry op entry st).
Proof.
  intros Hentry [Hnodup Harrows]; unfold pushWithEntry.
  pose proof (findOrAddStackEntry_spec (stackOf st) entry) as F.
  destruct (findOrAddStackEntry (stackOf st) entry) as [stack' index].
  unfold entriesDistinct.
  cbn [stackOf opsOf pushOps withStack struct stack world].
  destruct F as [_ [->|[-> Hnew]]]; split; auto.
  - rewrite map_app. now apply NoDup_snoc.
  - intros a Ha. apply in_app_or in Ha as [Ha|[Ha|[]]]; auto.
Qed.

Lemma fresh_arrow_not_on_stack (body : AccessExpr) (st : Extraction) :
  entriesDistinct st ->
  ~ In (entryKey (EArrow {| arrowId := created (world st); arrowBody := body |}))
       (map entryKey (stackOf st)).
Proof.
  intros [_ Harrows] Hin. apply in_map_iff in Hin as [e [Hkey He]].
  destruct e as [s|n|b|l|a]; try discriminate.
  simpl in Hkey. injection Hkey as Hid.
  specialize (Harrows a He). lia.
Qed.

Lemma extractPackStructOfType_distinct (host : Host) :
  forall fuel node st st',
    extractPackStructOfType host fuel node st = Some st' ->
    entriesDistinct st -> entriesDistinct st'.
Proof.
  apply (extractPackStructOfType_preserves host
           (fun st st' => entriesDistinct st -> entriesDistinct st')).
  - auto.
  - auto.
  - intros op st _ H; exact H.
  - intros s st H. apply pushWithEntry_distinct; [discriminate|exact H].
  - intros l st H. apply pushWithEntry_distinct; [discriminate|exact H].
  - intros typeName st [Hnodup Harrows]. unfold referenceArrow, createArrowFunction.
    apply pushWithEntry_distinct.
    + intros a [= <-]; simpl; lia.
    + split; [exact Hnodup|]. intros a Ha. specialize (Harrows a Ha). simpl; lia.
  - intros typeName st H. pose proof (fresh_arrow_not_on_stack
      (createAccessorForEntityName typeName) st H) as Hfresh.
    destruct H as [Hnodup Harrows].
    unfold referenceArrow, createArrowFunction, entriesDistinct.
    cbn [stackOf opsOf pushOps withStack struct stack world created].
    split.
    + rewrite map_app. now apply NoDup_snoc.
    + intros a Ha. apply in_app_or in Ha as [Ha|[Ha|[]]].
      * specialize (Harrows a Ha). lia.
      * injection Ha as <-. simpl; lia.
  - intros resolved st H. unfold ensureImportIsEmitted.
    destruct (importSpecifier resolved); exact H.
Qed.

(** C7 (as the code has it): in every literal stack the extractor
    produces, two entries that are [===] (strings of the same value, or the
    same node) stand at one index; so two equal strings used as property
    names share one index. *)
Theorem strictly_equal_entries_one_index (host : Host) (fuel : nat) (node : Node)
  (w : World) (st : Extraction) :
  extractPackStructOfType host fuel node (newPackStruct w) = Some st ->
  (forall i j a b,
     nth_error (stackOf st) i = Some a ->
     nth_error (stackOf st) j = Some b ->
     strictEquals a b = true -> i = j)
  /\ (forall i j name,
        nth_error (stackOf st) i = Some (EString name) ->
        nth_error (stackOf st) j = Some (EString name) -> i = j).
Proof.
  intros H.
  assert (Hinv : entriesDistinct st).
  { apply (extractPackStructOfType_distinct host _ _ _ _ H).
    split; [constructor|intros a []]. }
  assert (G : forall i j a b,
     nth_error (stackOf st) i = Some a ->
     nth_error (stackOf st) j = Some b ->
     strictEquals a b = true -> i = j).
  { intros i j a b Hi Hj Heq. destruct Hinv as [Hnodup _].
    unfold strictEquals in Heq.
    destruct (EntryKey_eq_dec (entryKey a) (entryKey b)) as [E|]; [|discriminate].
    rewrite NoDup_nth_error in Hnodup. apply Hnodup.
    - rewrite length_map. apply nth_error_Some. congruence.
    - rewrite (map_nth_error entryKey _ _ Hi), (map_nth_error entryKey _ _ Hj).
      now rewrite E. }
  split; [exact G|].
  intros i j name Hi Hj. apply (G i j _ _ Hi Hj).
  unfold strictEquals. destruct (EntryKey_eq_dec _ _); [reflexivity|congruence].
Qed.

Lemma strictly_equal_entries_one_index_witness :
  extractPackStructOfType closedHost 6 nestedA (newPackStruct emptyWorld)
  = Some {| struct := {| ops := [3; 14; 0; 29; 14; 0; 29]; stack := [EString "a"] |};
            world := emptyWorld |}
  /\ ((forall i j a b,
         nth_error [EString "a"] i = Some a ->
         nth_error [EString "a"] j = Some b ->
         strictEquals a b = true -> i = j)
      /\ (forall i j name,
            nth_error [EString "a"] i = Some (EString name) ->
            nth_error [EString "a"] j = Some (EString name) -> i = j)).
Proof.
  split; [reflexivity|].
  exact (strictly_equal_entries_one_index closedHost 6 nestedA emptyWorld _ eq_refl).
Defined.

(** C7 (as stated) fails: the two literal nodes of ['a' | 'a'] have the
    same text and stand at the indices 0 and 1 of the stack. *)
Lemma textually_equal_entries_two_indices :
  ~ (forall host fuel node w st i j a b,
       extractPackStructOfType host fuel node (newPackStruct w) = Some st ->
       nth_error (stackOf st) i = Some a ->
       nth_error (stackOf st) j = Some b ->
       entryText a = entryText b -> i = j).
Proof.
  intros H.
  specialize (H closedHost 2%nat unionOfEqualLiterals emptyWorld _ 0%nat 1%nat
                (ELiteralNode (literalA 1)) (ELiteralNode (literalA 2))
                eq_refl eq_refl eq_refl eq_refl).
  discriminate H.
Qed.

(** ** The class [M] *)

(** C2 (as stated) fails: no run of the extractor on [title: string] ends
    with the opcodes [string, property]. *)
Lemma title_member_without_property_opcode :
  ~ (exists host fuel w st,
       extractPackStructOfType host fuel titleProperty (newPackStruct w) = Some st
       /\ opsOf st = [ReflectionOp.string; ReflectionOp.property]).
Proof.
  intros [host [fuel [w [st [H Hops]]]]].
  destruct fuel as [|[|fuel]]; try discriminate H.
  injection H as <-. discriminate Hops.
Qed.

(** C2 (as the code has it): the member [title: string] extracts to the one
    opcode [string]; where the mode is not [never] for the class and for
    the member, the decorator appends [static __type = { title: '3' }],
    ['3'] being the packed form of [[string]]. *)
Theorem class_title_decorated (t : ReflectionTransformer) (fuel : nat) (w : World)
  (position : Position) (memberTags : list JSDocTag) :
  isNever (findReflectionConfig t position) = false ->
  isNever (findReflectionConfig t
             (positionOfMember (classM position memberTags) (titleMember memberTags)))
  = false ->
  extractPackStructOfType (env t) (S (S fuel)) titleProperty (newPackStruct w)
  = Some {| struct := {| ops := [ReflectionOp.string]; stack := [] |}; world := w |}
  /\ pack (OfStruct {| ops := [ReflectionOp.string]; stack := [] |}) = PackedString "3"
  /\ decorateClass t (S (S fuel)) (classM position memberTags) w
     = Some (classMDecorated position memberTags, w).
Proof.
  intros Hclass Hmember.
  split; [reflexivity|]. split; [reflexivity|].
  unfold decorateClass.
  change (classPosition (classM position memberTags)) with position.
  rewrite Hclass.
  cbn [classM classMembers decorateMembers titleMember element memberName nodeName
       titleProperty isTypeMember].
  change (String.eqb (text (ident "title")) "__type") with false.
  cbv iota.
  unfold getTypeOfType.
  change (positionOfMember _ _)
    with (positionOfMember (classM position memberTags) (titleMember memberTags)).
  rewrite Hmember. reflexivity.
Qed.

Lemma class_title_decorated_witness :
  isNever (findReflectionConfig defaultTransformer topLevel) = false
  /\ extractPackStructOfType closedHost 2 titleProperty (newPackStruct emptyWorld)
     = Some {| struct := {| ops := [3]; stack := [] |}; world := emptyWorld |}
  /\ pack (OfStruct {| ops := [3]; stack := [] |}) = PackedString "3"
  /\ decorateClass defaultTransformer 2 (classM topLevel []) emptyWorld
     = Some (classMDecorated topLevel [], emptyWorld).
Proof.
  split; [reflexivity|].
  exact (class_title_decorated defaultTransformer 0 emptyWorld topLevel []
           eq_refl eq_refl).
Defined.

(** ** The resolver behind an import specifier *)

(** What [resolveDeclaration] does when the first declaration of the symbol
    is an import specifier and the checker gives no declaration for the
    declared type: it searches the imported file for the name "Message". *)
Lemma resolveDeclaration_import_fallback (host : Host) (fuel : nat) (e : Identifier)
  (symbol : Symbol) (name : Identifier) (propertyName : option Identifier)
  (importDeclaration : ImportOrExport) :
  getSymbolAtLocation host e = Some symbol ->
  firstDeclaration symbol = Some (ImportSpecifier name propertyName importDeclaration) ->
  declaredTypeDeclaration host symbol = None ->
  resolveDeclaration host fuel (EntityIdentifier e)
  = match resolveImportSpecifier host fuel "Message" importDeclaration with
    | Some (Some d) =>
        Some (Some {| declaration := d;
                      importSpecifier :=
                        Some (ImportSpecifier name propertyName importDeclaration) |})
    | Some None => Some None
    | None => None
    end.
Proof.
  intros Hsymbol Hfirst Hchecker. unfold resolveDeclaration.
  rewrite Hsymbol, Hfirst, Hchecker. cbn [isImportSpecifier].
  destruct (resolveImportSpecifier host fuel "Message" importDeclaration)
    as [[d|]|]; reflexivity.
Qed.

(** C4 (evaluated where it fails): [User] is imported from a file that
    declares it, and the checker gives no declared type; searching that file
    for the name sought finds the interface, but [resolveDeclaration]
    searches it for "Message", finds nothing, and the reference to [User] is
    extracted as [any]. *)
Theorem import_fallback_probes_Message :
  resolveImportSpecifier importingHost 1 "User" userImport = Some (Some userInterface)
  /\ resolveImportSpecifier importingHost 1 "Message" userImport = Some None
  /\ resolveDeclaration importingHost 1 (EntityIdentifier (ident "User")) = Some None
  /\ extractPackStructOfType importingHost 2
       (TypeReference (EntityIdentifier (ident "User")) None) (newPackStruct emptyWorld)
     = Some {| struct := {| ops := [ReflectionOp.any]; stack := [] |};
               world := emptyWorld |}.
Proof. repeat split; reflexivity. Qed.

(** ** The reflection mode *)

Lemma reflectionOfTags_none (tags : list JSDocTag) :
  (forall x, In x tags -> ~ isReflectionTag x) -> reflectionOfTags tags = None.
Proof.
  induction tags as [|tag rest IH]; intros H; [reflexivity|].
  simpl. destruct (comment tag) as [c|] eqn:Ec.
  - destruct (String.eqb_spec (tagName tag) "reflection") as [En|_].
    + exfalso. apply (H tag); [now left|]. split; [exact En|congruence].
    + apply IH. intros x Hx. apply H. now right.
  - apply IH. intros x Hx. apply H. now right.
Qed.

Lemma reflectionOfParents_none (chain : list (list JSDocTag)) :
  untagged chain -> reflectionOfParents chain = None.
Proof.
  induction chain as [|tags rest IH]; intros H; [reflexivity|].
  simpl. rewrite reflectionOfTags_none.
  - apply IH. intros ts tag Hts. apply H. now right.
  - intros x Hx. apply (H tags); [now left|exact Hx].
Qed.

Lemma reflectionOfTags_first (pre post : list JSDocTag) (tag : JSDocTag) (c : string) :
  (forall x, In x pre -> ~ isReflectionTag x) ->
  tagName tag = "reflection"%string ->
  comment tag = Some c ->
  reflectionOfTags (pre ++ tag :: post)
  = Some (parseReflectionMode (if String.eqb c "" then VBoolean true else VString c)).
Proof.
  intros Hpre Hname Hcomment.
  induction pre as [|x pre IH]; simpl.
  - rewrite Hcomment, Hname. simpl. destruct (String.eqb c ""); reflexivity.
  - assert (Hx : ~ isReflectionTag x) by (apply Hpre; now left).
    assert (IH' := IH (fun y Hy => Hpre y (or_intror Hy))).
    destruct (comment x) as [cx|] eqn:Ecx; [|exact IH'].
    destruct (String.eqb_spec (tagName x) "reflection") as [En|_]; [|exact IH'].
    exfalso. apply Hx. split; [exact En|congruence].
Qed.

Lemma reflectionOfParents_nearest (before after : list (list JSDocTag))
  (tags : list JSDocTag) (mode : JsValue) :
  untagged before ->
  reflectionOfTags tags = Some mode ->
  reflectionOfParents (before ++ tags :: after) = Some mode.
Proof.
  intros Hbefore Htags.
  induction before as [|ts before IH]; simpl.
  - now rewrite Htags.
  - rewrite reflectionOfTags_none.
    + apply IH. intros ts' tag Hts'. apply Hbefore. now right.
    + intros x Hx. apply (Hbefore ts); [now left|exact Hx].
Qed.

Lemma reflectionOfConfigs_none (dirs : list ConfigProbe) :
  (forall probe, In probe dirs -> ~ carriesReflection probe) ->
  reflectionOfConfigs dirs = None.
Proof.
  induction dirs as [|probe rest IH]; intros H; [reflexivity|].
  assert (IH' := IH (fun p Hp => H p (or_intror Hp))).
  assert (Hp := H probe (or_introl eq_refl)).
  destruct probe as [| |[]]; simpl in *; try exact IH'; exfalso; apply Hp; exact I.
Qed.

Lemma reflectionOfConfigs_nearest (before after : list ConfigProbe) (reflection : JsValue) :
  (forall probe, In probe before -> ~ carriesReflection probe) ->
  reflection <> VUndefined ->
  reflectionOfConfigs (before ++ ConfigFile reflection :: after)
  = Some (parseReflectionMode reflection).
Proof.
  intros Hbefore Hfield.
  induction before as [|probe before IH]; simpl.
  - destruct reflection; congruence.
  - assert (IH' := IH (fun p Hp => Hbefore p (or_intror Hp))).
    assert (Hp := Hbefore probe (or_introl eq_refl)).
    destruct probe as [| |[]]; simpl in *; try exact IH'; exfalso; apply Hp; exact I.
Qed.

(** Under the mode [never] the decorator returns the class as it is. *)
Lemma decorateClass_never (t : ReflectionTransformer) (fuel : nat)
  (c : ClassDeclaration) (w : World) :
  isNever (findReflectionConfig t (classPosition c)) = true ->
  decorateClass t fuel c w = Some (c, w).
Proof. intros H; unfold decorateClass; now rewrite H. Qed.

(** C5: the mode of a node is the one of the nearest [@reflection] tag up
    the parents, before the mode set by the application, before the nearest
    configuration with a [reflection] field, before [never]; and under
    [never] a class gets no [__type] member: the decorator returns it
    unchanged. *)
Theorem reflection_mode_precedence (t : ReflectionTransformer) (node : Position)
  (mode : JsValue) :
  ResolvedMode t node mode ->
  findReflectionConfig t node = mode
  /\ (isNever mode = true ->
      forall fuel c w, classPosition c = node -> decorateClass t fuel c w = Some (c, w)).
Proof.
  intros H.
  assert (Hmode : findReflectionConfig t node = mode).
  { unfold findReflectionConfig.
    destruct H as [before pre tag post after c Hchain Hbefore Hpre Hname Hcomment
                  | m Hchain Hoverride
                  | before reflection after Hchain Hoverride Hdirs Hbefore Hfield
                  | Hchain Hoverride Hdirs].
    - rewrite Hchain.
      rewrite (reflectionOfParents_nearest before after _ _ Hbefore
                 (reflectionOfTags_first pre post tag c Hpre Hname Hcomment)).
      reflexivity.
    - rewrite (reflectionOfParents_none _ Hchain), Hoverride. reflexivity.
    - rewrite (reflectionOfParents_none _ Hchain), Hoverride, Hdirs.
      rewrite (reflectionOfConfigs_nearest before after _ Hbefore Hfield). reflexivity.
    - rewrite (reflectionOfParents_none _ Hchain), Hoverride.
      rewrite (reflectionOfConfigs_none _ Hdirs). reflexivity. }
  split; [exact Hmode|].
  intros Hnever fuel c w Hposition. apply decorateClass_never.
  rewrite Hposition, Hmode. exact Hnever.
Qed.

Lemma reflection_mode_precedence_witness :
  (findReflectionConfig defaultTransformer taggedNever = VString "never"
   /\ decorateClass defaultTransformer 2 (classM taggedNever []) emptyWorld
      = Some (classM taggedNever [], emptyWorld))
  /\ (findReflectionConfig unconfiguredTransformer topLevel = VString "never"
      /\ decorateClass unconfiguredTransformer 2 (classM topLevel []) emptyWorld
         = Some (classM topLevel [], emptyWorld)).
Proof.
  assert (Htag : ResolvedMode defaultTransformer taggedNever (VString "never")).
  { apply (ByTag defaultTransformer taggedNever [] [] neverTag [] [[]] "never").
    - reflexivity.
    - intros tags tag [].
    - intros x [].
    - reflexivity.
    - reflexivity. }
  assert (Hnone : ResolvedMode unconfiguredTransformer topLevel (VString "never")).
  { apply ByDefault.
    - intros tags tag [<-|[<-|[]]] [].
    - reflexivity.
    - intros probe [<-|[<-|[<-|[]]]]; simpl; tauto. }
  split.
  - destruct (reflection_mode_precedence _ _ _ Htag) as [Hmode Hclass].
    split; [exact Hmode|exact (Hclass eq_refl 2%nat (classM taggedNever []) emptyWorld eq_refl)].
  - destruct (reflection_mode_precedence _ _ _ Hnone) as [Hmode Hclass].
    split; [exact Hmode|exact (Hclass eq_refl 2%nat (classM topLevel []) emptyWorld eq_refl)].
Defined.

(** ** Recovering with [any] *)

(** C9 (as the code has it): a type reference under whose name
    [knownClasses] gives nothing, that is not [Promise] and for which the
    resolver returns without a declaration, and a node of a shape no branch
    handles, are extracted as the single opcode [any]; the extractor
    returns, the stack is untouched. *)
Theorem unresolved_or_unhandled_is_any (host : Host) (fuel : nat) (node : Node)
  (st : Extraction) :
  unresolvableReference host fuel node \/ unhandledShape node = true ->
  extractPackStructOfType host (S fuel) node st
  = Some (pushOps [ReflectionOp.any] st).
Proof.
  intros [H|H].
  - destruct node; try contradiction.
    destruct H as [Hknown Hresolve].
    cbn [extractPackStructOfType]. unfold extractPackStructOfTypeReference.
    destruct typeName as [i|l r].
    + destruct (Hknown i eq_refl) as [Htable Hpromise].
      rewrite Htable.
      destruct (String.eqb_spec (escapedText i) "Promise") as [E|_]; [contradiction|].
      rewrite Hresolve. reflexivity.
    + rewrite Hresolve. reflexivity.
  - destruct node; try discriminate H; cbn [extractPackStructOfType].
    + destruct kind; try discriminate H; reflexivity.
    + destruct type; [discriminate H|reflexivity].
    + destruct type; [discriminate H|reflexivity].
    + reflexivity.
    + reflexivity.
    + reflexivity.
    + reflexivity.
    + reflexivity.
    + destruct kind; try discriminate H; reflexivity.
Qed.

Lemma unresolved_or_unhandled_is_any_witness :
  extractPackStructOfType closedHost 1
    (TypeReference (EntityIdentifier (ident "Missing")) None) (newPackStruct emptyWorld)
  = Some {| struct := {| ops := [ReflectionOp.any]; stack := [] |}; world := emptyWorld |}
  /\ extractPackStructOfType closedHost 1 (OtherNode TupleTypeKind None)
       (newPackStruct emptyWorld)
     = Some {| struct := {| ops := [ReflectionOp.any]; stack := [] |}; world := emptyWorld |}.
Proof.
  split.
  - apply (unresolved_or_unhandled_is_any closedHost 0
             (TypeReference (EntityIdentifier (ident "Missing")) None)
             (newPackStruct emptyWorld)).
    left. split; [|reflexivity].
    intros i [= <-]. split; [reflexivity|discriminate].
  - apply (unresolved_or_unhandled_is_any closedHost 0 (OtherNode TupleTypeKind None)
             (newPackStruct emptyWorld)).
    right. reflexivity.
Defined.

(** ** More fuel, same result *)

Lemma firstFound_mono {A B : Type} (body body' : A -> option (option B)) (l : list A) :
  (forall a r, body a = Some r -> body' a = Some r) ->
  forall r, firstFound body l = Some r -> firstFound body' l = Some r.
Proof.
  intros Hbody; induction l as [|a l IH]; simpl; intros r H; [exact H|].
  destruct (body a) as [[b|]|] eqn:E; try discriminate H.
  - rewrite (Hbody _ _ E). exact H.
  - rewrite (Hbody _ _ E). apply IH. exact H.
Qed.

Lemma forEach_mono {A S : Type} (body body' : A -> S -> option S) (l : list A) :
  (forall a s r, body a s = Some r -> body' a s = Some r) ->
  forall s r, forEach body l s = Some r -> forEach body' l s = Some r.
Proof.
  intros Hbody; induction l as [|a l IH]; simpl; intros s r H; [exact H|].
  unbind H. rewrite (Hbody _ _ _ E). apply IH. exact H.
Qed.

Lemma resolveImportSpecifier_mono (host : Host) :
  forall fuel declarationName importOrExport r,
    resolveImportSpecifier host fuel declarationName importOrExport = Some r ->
    resolveImportSpecifier host (S fuel) declarationName importOrExport = Some r.
Proof.
  induction fuel as [|fuel IH]; intros declarationName importOrExport r H;
    [discriminate|].
  cbn [resolveImportSpecifier] in H |- *.
  destruct (moduleSpecifier importOrExport) as [[specifier|]|]; try exact H.
  destruct (getExternalModuleFileFromDeclaration host importOrExport) as [source|];
    [|exact H].
  destruct (findDeclarationInFile source declarationName); [exact H|].
  revert r H. apply firstFound_mono.
  intros [e|] r H; [|exact H].
  destruct (exportClause e) as [[elements|name]|]; [|exact H|apply IH; exact H].
  revert r H. apply firstFound_mono.
  intros element r H.
  destruct (String.eqb (escapedText (exportName element)) declarationName);
    [apply IH; exact H|exact H].
Qed.

Lemma resolveDeclaration_mono (host : Host) (fuel : nat) (e : EntityName)
  (r : option Resolved) :
  resolveDeclaration host fuel e = Some r ->
  resolveDeclaration host (S fuel) e = Some r.
Proof.
  unfold resolveDeclaration. destruct e as [e|]; [|auto].
  destruct (getSymbolAtLocation host e) as [s|]; [|auto].
  destruct (firstDeclaration s) as [d|]; cbn [isImportSpecifier].
  - destruct (isImportSpecifier d); [|auto].
    destruct (declaredTypeDeclaration host s); [auto|].
    destruct d; auto.
    intros H. unbind H. rewrite (resolveImportSpecifier_mono _ _ _ _ _ E). exact H.
  - auto.
Qed.

Lemma extractMembers_mono (host : Host)
  (rec rec' : Node -> Extraction -> option Extraction) :
  (forall node st r, rec node st = Some r -> rec' node st = Some r) ->
  forall fuel decl acc r,
    extractMembers host rec fuel decl acc = Some r ->
    extractMembers host rec' (S fuel) decl acc = Some r.
Proof.
  intros Hrec; induction fuel as [|fuel IH]; intros decl acc r H; [discriminate|].
  cbn [extractMembers] in H. remember (S fuel) as fuel1 eqn:Ef.
  cbn [extractMembers]. unbind H.
  erewrite forEach_mono; [|clear E|exact E].
  - destruct decl; try exact H.
    destruct heritageClauses as [clauses|]; [|exact H].
    revert H. apply forEach_mono. intros heritage acc1 r1 H1.
    destruct (SyntaxKind_eqb (token heritage) ExtendsKeyword); [|exact H1].
    revert H1. apply forEach_mono. intros extendType acc2 r2 H2.
    destruct extendType as [expression|]; [|exact H2].
    unbind H2. subst fuel1. rewrite (resolveDeclaration_mono _ _ _ _ E0).
    destruct o as [resolved|]; [|exact H2].
    destruct (isInterfaceDeclaration (declaration resolved)); [|exact H2].
    apply IH. exact H2.
  - intros member [members st] r1 H1.
    destruct (negb _ && existsb _ members); [exact H1|].
    unbind H1. rewrite (Hrec _ _ _ E). exact H1.
Qed.

Lemma extractCallable_mono (rec rec' : Node -> Extraction -> option Extraction)
  (isMethod isConstructor : bool) (modifiers : list SyntaxKind)
  (parameters : list (option Node)) (type : option Node) :
  (forall node st r, rec node st = Some r -> rec' node st = Some r) ->
  forall st r,
    extractCallable rec isMethod isConstructor modifiers parameters type st = Some r ->
    extractCallable rec' isMethod isConstructor modifiers parameters type st = Some r.
Proof.
  intros Hrec st r H. unfold extractCallable in *.
  assert (G : forall st1 (k : Extraction -> option Extraction),
    (st2 <- forEach (fun parameter st =>
               match parameter with
               | Some parameterType => rec parameterType st
               | None => Some st
               end) parameters st1 ;;
     st3 <- match type with
            | Some t => rec t st2
            | None => Some (pushOps [ReflectionOp.any] st2)
            end ;; k st3) = Some r ->
    (st2 <- forEach (fun parameter st =>
               match parameter with
               | Some parameterType => rec' parameterType st
               | None => Some st
               end) parameters st1 ;;
     st3 <- match type with
            | Some t => rec' t st2
            | None => Some (pushOps [ReflectionOp.any] st2)
            end ;; k st3) = Some r).
  { intros st1 k G. unbind G. unbind G.
    erewrite forEach_mono; [|clear E|exact E].
    - destruct type as [t|]; [rewrite (Hrec _ _ _ E0)|injection E0 as <-]; exact G.
    - intros [t|] s r1 H1; [apply Hrec|]; exact H1. }
  destruct parameters as [|p ps]; [destruct type as [t|]|]; try exact H;
    revert H; apply G.
Qed.

Lemma extractPackStructOfTypeReference_mono (host : Host)
  (rec rec' : Node -> Extraction -> option Extraction) (fuel : nat)
  (typeName : EntityName) (typeArguments : option (list Node)) :
  (forall node st r, rec node st = Some r -> rec' node st = Some r) ->
  forall st r,
    extractPackStructOfTypeReference host rec fuel typeName typeArguments st = Some r ->
    extractPackStructOfTypeReference host rec' (S fuel) typeName typeArguments st = Some r.
Proof.
  intros Hrec st r H. unfold extractPackStructOfTypeReference in *.
  destruct (match typeName with
            | EntityIdentifier i => knownClassesGet (escapedText i)
            | QualifiedName _ _ => None
            end); [exact H|].
  destruct (match typeName with
            | EntityIdentifier i => String.eqb (escapedText i) "Promise"
            | QualifiedName _ _ => false
            end).
  { unbind H. destruct typeArguments as [[|argument ?]|];
      [injection E as <-|rewrite (Hrec _ _ _ E)|injection E as <-]; exact H. }
  unbind H. rewrite (resolveDeclaration_mono _ _ _ _ E).
  destruct o as [resolved|]; [|exact H].
  destruct (declaration resolved); try (apply Hrec; exact H); try exact H.
  destruct (referenceArrow typeName (ensureImportIsEmitted resolved st)) as [arrow st1].
  unbind H. destruct typeArguments as [templates|].
  - rewrite (forEach_mono rec rec' templates Hrec _ _ E0). exact H.
  - injection E0 as <-. exact H.
Qed.

(** A run that returned returns the same with more fuel. *)
Lemma extractPackStructOfType_mono (host : Host) :
  forall fuel node st r,
    extractPackStructOfType host fuel node st = Some r ->
    extractPackStructOfType host (S fuel) node st = Some r.
Proof.
  induction fuel as [|fuel IH]; intros node st r H; [discriminate|].
  cbn [extractPackStructOfType] in H. remember (S fuel) as fuel1 eqn:Ef.
  cbn [extractPackStructOfType].
  assert (Hrec : forall node st r,
            extractPackStructOfType host fuel node st = Some r ->
            extractPackStructOfType host fuel1 node st = Some r)
    by (subst fuel1; exact IH).
  destruct node; try exact H; try (apply Hrec; exact H);
    try (revert H; apply extractCallable_mono; exact Hrec).
  - unbind H. subst fuel1.
    rewrite (extractMembers_mono host _ _ IH _ _ _ _ E). exact H.
  - unbind H. subst fuel1.
    rewrite (extractMembers_mono host _ _ IH _ _ _ _ E). exact H.
  - subst fuel1. revert H. apply extractPackStructOfTypeReference_mono. exact IH.
  - unbind H. rewrite (Hrec _ _ _ E). exact H.
  - destruct type as [type|]; [|exact H].
    unbind H. rewrite (Hrec _ _ _ E). exact H.
  - destruct type as [type|].
    + unbind H. rewrite (Hrec _ _ _ E). exact H.
    + revert H. apply extractCallable_mono. exact Hrec.
  - destruct type as [type|]; [|exact H].
    unbind H. rewrite (Hrec _ _ _ E). exact H.
  - destruct types as [|t1 [|t2 rest]]; [exact H|apply Hrec; exact H|].
    unbind H. rewrite (forEach_mono _ _ _ Hrec _ _ E). exact H.
  - unbind H. unbind H.
    destruct parameter0 as [p|]; [rewrite (Hrec _ _ _ E)|injection E as <-];
      rewrite (Hrec _ _ _ E0); exact H.
Qed.

(** ** Whether a run returns does not depend on the state *)

Lemma sameOps_pushOps (l : list Z) (st st2 : Extraction) :
  sameOps st st2 -> sameOps (pushOps l st) (pushOps l st2).
Proof.
  unfold sameOps. cbn [opsOf pushOps struct ops]. intros [Hlength Hvalue].
  fold (opsOf st) (opsOf st2). rewrite !length_app, !existsb_app, Hvalue.
  split; [lia|reflexivity].
Qed.

Lemma findOrAddStackEntry_index (stack : list StackEntry) (entry : StackEntry) :
  isInheritedValue (snd (findOrAddStackEntry stack entry)) = false.
Proof.
  pose proof (findOrAddStackEntry_spec stack entry) as H.
  destruct (findOrAddStackEntry stack entry) as [stack' index].
  destruct H as [H _]. cbn [snd]. unfold isInheritedValue, inheritedValue.
  apply Z.eqb_neq. lia.
Qed.

Lemma sameOps_pushWithEntry (op : Z) (entry entry2 : StackEntry) (st st2 : Extraction) :
  sameOps st st2 -> sameOps (pushWithEntry op entry st) (pushWithEntry op entry2 st2).
Proof.
  unfold sameOps, pushWithEntry. intros [Hlength Hvalue].
  pose proof (findOrAddStackEntry_index (stackOf st) entry) as H1.
  pose proof (findOrAddStackEntry_index (stackOf st2) entry2) as H2.
  destruct (findOrAddStackEntry (stackOf st) entry) as [s1 i1].
  destruct (findOrAddStackEntry (stackOf st2) entry2) as [s2 i2].
  cbn [snd] in H1, H2.
  cbn [opsOf pushOps withStack struct ops]. fold (opsOf st) (opsOf st2).
  rewrite !length_app, !existsb_app, Hvalue. cbn [existsb List.length].
  rewrite H1, H2. split; [lia|reflexivity].
Qed.

Lemma sameOps_pushModifiers (modifiers : list SyntaxKind) (st st2 : Extraction) :
  sameOps st st2 -> sameOps (pushModifiers modifiers st) (pushModifiers modifiers st2).
Proof.
  intros H. unfold pushModifiers.
  destruct (hasModifier modifiers PrivateKeyword),
           (hasModifier modifiers ProtectedKeyword),
           (hasModifier modifiers AbstractKeyword);
    repeat apply sameOps_pushOps; exact H.
Qed.

Lemma referenceArrow_sameOps (typeName : EntityName) (st st2 : Extraction) :
  sameOps st st2 ->
  sameOps (snd (referenceArrow typeName st)) (snd (referenceArrow typeName st2)).
Proof. intros H; exact H. Qed.

Lemma forEach_simulates {A S : Type} (RS : S -> S -> Prop)
  (body : A -> S -> option S) (l : list A) :
  (forall a s r s2, body a s = Some r -> RS s s2 ->
                    exists r2, body a s2 = Some r2 /\ RS r r2) ->
  forall s r s2, forEach body l s = Some r -> RS s s2 ->
                 exists r2, forEach body l s2 = Some r2 /\ RS r r2.
Proof.
  intros Hbody; induction l as [|a l IH]; simpl; intros s r s2 H HR.
  - injection H as <-. now exists s2.
  - unbind H. destruct (Hbody _ _ _ _ E HR) as [e2 [-> HR2]]. eauto.
Qed.

Lemma extractMembers_simulates (host : Host)
  (rec : Node -> Extraction -> option Extraction) :
  simulating rec ->
  forall fuel decl acc r acc2,
    extractMembers host rec fuel decl acc = Some r ->
    samePair acc acc2 ->
    exists r2, extractMembers host rec fuel decl acc2 = Some r2 /\ samePair r r2.
Proof.
  intros Hrec; induction fuel as [|fuel IH]; intros decl acc r acc2 H HR;
    [discriminate|].
  cbn [extractMembers] in H |- *. unbind H.
  eapply (forEach_simulates samePair) in E; [|clear E|exact HR].
  - destruct E as [p2 [-> HR1]].
    destruct decl; try (injection H as <-; eauto).
    destruct heritageClauses as [clauses|]; [|injection H as <-; eauto].
    revert H HR1. apply forEach_simulates. intros heritage a1 r1 a2 H1 HR2.
    destruct (SyntaxKind_eqb (token heritage) ExtendsKeyword);
      [|injection H1 as <-; eauto].
    revert H1 HR2. apply forEach_simulates. intros extendType a3 r3 a4 H3 HR3.
    destruct extendType as [expression|]; [|injection H3 as <-; eauto].
    unbind H3. destruct o as [resolved|]; [|injection H3 as <-; eauto].
    destruct (isInterfaceDeclaration (declaration resolved));
      [eapply IH; eassumption|injection H3 as <-; eauto].
  - intros member [members st] r1 [members2 st2] H1 [Hm Hs]. simpl in Hm, Hs.
    subst members2.
    destruct (negb _ && existsb _ members).
    + injection H1 as <-. eexists; split; [reflexivity|]. now split.
    + unbind H1. injection H1 as <-.
      destruct (Hrec _ _ _ _ E Hs) as [e2 [-> Hs2]].
      eexists; split; [reflexivity|]. now split.
Qed.

Lemma extractCallable_simulates (rec : Node -> Extraction -> option Extraction)
  (isMethod isConstructor : bool) (modifiers : list SyntaxKind)
  (parameters : list (option Node)) (type : option Node) :
  simulating rec ->
  forall st r st2,
    extractCallable rec isMethod isConstructor modifiers parameters type st = Some r ->
    sameOps st st2 ->
    exists r2,
      extractCallable rec isMethod isConstructor modifiers parameters type st2 = Some r2
      /\ sameOps r r2.
Proof.
  intros Hrec st r st2 H HR. unfold extractCallable in *.
  assert (G : forall st1 st3,
    (st2 <- forEach (fun parameter st =>
               match parameter with
               | Some parameterType => rec parameterType st
               | None => Some st
               end) parameters st1 ;;
     st3 <- match type with
            | Some t => rec t st2
            | None => Some (pushOps [ReflectionOp.any] st2)
            end ;;
     Some (if isMethod
           then pushModifiers modifiers
                  (pushOps [if isMethod || isConstructor
                            then ReflectionOp.method else ReflectionOp.function] st3)
           else pushOps [if isMethod || isConstructor
                         then ReflectionOp.method else ReflectionOp.function] st3))
    = Some r ->
    sameOps st1 st3 ->
    exists r2,
      (st2 <- forEach (fun parameter st =>
                 match parameter with
                 | Some parameterType => rec parameterType st
                 | None => Some st
                 end) parameters st3 ;;
       st3 <- match type with
              | Some t => rec t st2
              | None => Some (pushOps [ReflectionOp.any] st2)
              end ;;
       Some (if isMethod
             then pushModifiers modifiers
                    (pushOps [if isMethod || isConstructor
                              then ReflectionOp.method else ReflectionOp.function] st3)
             else pushOps [if isMethod || isConstructor
                           then ReflectionOp.method else ReflectionOp.function] st3))
      = Some r2 /\ sameOps r r2).
  { clear H HR st st2. intros st1 st3 H HR. unbind H. unbind H. injection H as <-.
    eapply (forEach_simulates sameOps) in E; [|clear E|exact HR].
    - destruct E as [e2 [-> HR1]].
      assert (Ht : exists e3,
                match type with
                | Some t => rec t e2
                | None => Some (pushOps [ReflectionOp.any] e2)
                end = Some e3 /\ sameOps e0 e3).
      { destruct type as [t|]; [eapply Hrec; eassumption|].
        injection E0 as <-. eexists; split; [reflexivity|].
        now apply sameOps_pushOps. }
      destruct Ht as [e3 [-> HR2]].
      eexists; split; [reflexivity|].
      destruct isMethod; [apply sameOps_pushModifiers|];
        now apply sameOps_pushOps.
    - intros [t|] s r1 s2 H1 HR1; [eapply Hrec; eassumption|].
      injection H1 as <-. eauto. }
  destruct parameters as [|p ps]; [destruct type as [t|]|];
    try (eapply G; eassumption).
  injection H as <-. eauto.
Qed.

Lemma extractPackStructOfTypeReference_simulates (host : Host)
  (rec : Node -> Extraction -> option Extraction) (fuel : nat)
  (typeName : EntityName) (typeArguments : option (list Node)) :
  simulating rec ->
  forall st r st2,
    extractPackStructOfTypeReference host rec fuel typeName typeArguments st = Some r ->
    sameOps st st2 ->
    exists r2,
      extractPackStructOfTypeReference host rec fuel typeName typeArguments st2 = Some r2
      /\ sameOps r r2.
Proof.
  intros Hrec st r st2 H HR. unfold extractPackStructOfTypeReference in *.
  destruct (match typeName with
            | EntityIdentifier i => knownClassesGet (escapedText i)
            | QualifiedName _ _ => None
            end).
  { injection H as <-. eexists; split; [reflexivity|]. now apply sameOps_pushOps. }
  destruct (match typeName with
            | EntityIdentifier i => String.eqb (escapedText i) "Promise"
            | QualifiedName _ _ => false
            end).
  { unbind H. injection H as <-.
    assert (Ha : exists e2,
              match typeArguments with
              | Some (argument :: _) => rec argument st2
              | _ => Some (pushOps [ReflectionOp.any] st2)
              end = Some e2 /\ sameOps e e2).
    { destruct typeArguments as [[|argument ?]|];
        first [eapply Hrec; eassumption
              | injection E as <-; eexists; split;
                [reflexivity|now apply sameOps_pushOps]]. }
    destruct Ha as [e2 [-> HR1]].
    eexists; split; [reflexivity|]. now apply sameOps_pushOps. }
  destruct (resolveDeclaration host fuel typeName) as [[resolved|]|];
    [|injection H as <-; eexists; split; [reflexivity|now apply sameOps_pushOps]
     |discriminate H].
  assert (Hensure : sameOps (ensureImportIsEmitted resolved st)
                            (ensureImportIsEmitted resolved st2)).
  { unfold ensureImportIsEmitted. destruct (importSpecifier resolved); exact HR. }
  pose proof (referenceArrow_sameOps typeName _ _ Hensure) as Harrow.
  destruct (declaration resolved); try (eapply Hrec; eassumption).
  - injection H as <-. eauto.
  - destruct (referenceArrow typeName (ensureImportIsEmitted resolved st))
      as [arrow st1].
    destruct (referenceArrow typeName (ensureImportIsEmitted resolved st2))
      as [arrow2 st3].
    injection H as <-. eexists; split; [reflexivity|].
    apply sameOps_pushWithEntry. exact Harrow.
  - destruct (referenceArrow typeName (ensureImportIsEmitted resolved st))
      as [arrow st1].
    destruct (referenceArrow typeName (ensureImportIsEmitted resolved st2))
      as [arrow2 st3].
    unbind H. injection H as <-.
    assert (Hstart : sameOps (withStack (stackOf st1 ++ [EArrow arrow]) st1)
                             (withStack (stackOf st3 ++ [EArrow arrow2]) st3))
      by exact Harrow.
    assert (Ht : exists e2,
              match typeArguments with
              | Some templates =>
                  forEach rec templates (withStack (stackOf st3 ++ [EArrow arrow2]) st3)
              | None => Some (withStack (stackOf st3 ++ [EArrow arrow2]) st3)
              end = Some e2 /\ sameOps e e2).
    { destruct typeArguments as [templates|].
      - eapply (forEach_simulates sameOps); [exact Hrec|exact E|exact Hstart].
      - injection E as <-. eexists; split; [reflexivity|exact Hstart]. }
    destruct Ht as [e2 [-> HR1]].
    eexists; split; [reflexivity|]. now apply sameOps_pushOps.
Qed.

(** A run that returns from one state returns from every state that holds
    as many opcodes, and leaves as many. *)
Lemma extractPackStructOfType_simulates (host : Host) :
  forall fuel, simulating (extractPackStructOfType host fuel).
Proof.
  induction fuel as [|fuel IH]; intros node st r st2 H HR; [discriminate|].
  assert (Hrec : simulating (extractPackStructOfType host fuel)) by exact IH.
  cbn [extractPackStructOfType] in H |- *.
  assert (Hpush : forall op e e2 r1, Some (pushOps [op] e) = Some r1 -> sameOps e e2 ->
            exists r2, Some (pushOps [op] e2) = Some r2 /\ sameOps r1 r2).
  { intros op e e2 r1 [= <-] He. eexists; split; [reflexivity|].
    now apply sameOps_pushOps. }
  destruct node; try (eapply Hpush; eassumption); try (eapply Hrec; eassumption);
    try (eapply extractCallable_simulates; eassumption).
  - destruct kind; eapply Hpush; eassumption.
  - unbind H.
    destruct (extractMembers_simulates host _ Hrec _ _ _ _ ([], st2) E) as [p2 [-> [_ HR1]]];
      [now split|]. eapply Hpush; eassumption.
  - unbind H.
    destruct (extractMembers_simulates host _ Hrec _ _ _ _ ([], st2) E) as [p2 [-> [_ HR1]]];
      [now split|]. eapply Hpush; eassumption.
  - eapply extractPackStructOfTypeReference_simulates; eassumption.
  - unbind H. destruct (Hrec _ _ _ _ E HR) as [e2 [-> HR1]].
    eapply Hpush; eassumption.
  - destruct type as [type|]; [|eapply Hpush; eassumption].
    unbind H. destruct (Hrec _ _ _ _ E HR) as [e2 [-> HR1]].
    injection H as <-. eexists; split; [reflexivity|].
    now apply sameOps_pushWithEntry.
  - destruct type as [type|].
    + unbind H. destruct (Hrec _ _ _ _ E HR) as [e2 [-> HR1]].
      eapply Hpush; eassumption.
    + eapply extractCallable_simulates; eassumption.
  - destruct type as [type|]; [|eapply Hpush; eassumption].
    unbind H. destruct (Hrec _ _ _ _ E HR) as [e2 [-> HR1]].
    injection H as <-. eexists; split; [reflexivity|].
    apply sameOps_pushModifiers.
    destruct questionToken; [now apply sameOps_pushOps|exact HR1].
  - destruct (SyntaxKind_eqb (literalKind literal) NullKeyword);
      [eapply Hpush; eassumption|].
    injection H as <-. eexists; split; [reflexivity|].
    now apply sameOps_pushWithEntry.
  - destruct types as [|t1 [|t2 rest]].
    + injection H as <-. eauto.
    + eapply Hrec; eassumption.
    + unbind H.
      assert (Hstart : sameOps
                match opsOf st with [] => st | _ :: _ => pushOps [ReflectionOp.frame] st end
                match opsOf st2 with [] => st2 | _ :: _ => pushOps [ReflectionOp.frame] st2 end).
      { pose proof HR as [Hlength _].
        destruct (opsOf st) eqn:E1, (opsOf st2) eqn:E2; try discriminate Hlength.
        - exact HR.
        - apply sameOps_pushOps. exact HR. }
      destruct (forEach_simulates sameOps _ _ Hrec _ _ _ E Hstart) as [e2 [-> HR1]].
      eapply Hpush; eassumption.
  - unbind H. unbind H.
    assert (Hp : exists e2,
              match parameter0 with
              | Some parameterType => extractPackStructOfType host fuel parameterType st2
              | None => Some (pushOps [ReflectionOp.any] st2)
              end = Some e2 /\ sameOps e e2).
    { destruct parameter0; [eapply Hrec; eassumption|eapply Hpush; eassumption]. }
    destruct Hp as [e2 [-> HR1]].
    destruct (Hrec _ _ _ _ E0 HR1) as [e3 [-> HR2]].
    eapply Hpush; eassumption.
  - destruct kind; eapply Hpush; eassumption.
Qed.

(** ** Decorating a class twice *)

(** Whether [packOpsAndStack] throws, and whether it returns a pack, is
    the same for two such states. *)
Lemma packOpsAndStack_sameOps (st st2 : Extraction) (r : option Expression) :
  sameOps st st2 ->
  packOpsAndStack (struct st) = Some r ->
  exists r2, packOpsAndStack (struct st2) = Some r2 /\ (r = None <-> r2 = None).
Proof.
  unfold sameOps, opsOf, packOpsAndStack, packExtracted. intros [Hlength Hvalue].
  rewrite <- Hvalue.
  destruct (ops (struct st)) as [|o1 l1], (ops (struct st2)) as [|o2 l2];
    try discriminate Hlength.
  - intros [= <-]. eexists. split; [reflexivity|tauto].
  - destruct (existsb isInheritedValue (o1 :: l1)); [discriminate|].
    intros [= <-]. eexists. split; [reflexivity|]. split; discriminate.
Qed.

(** Whether [getTypeOfType] returns, and whether with a pack, does not
    depend on the world. *)
Lemma getTypeOfType_simulates (t : ReflectionTransformer) (fuel : nat) (type : Node)
  (position : Position) (w w2 : World) (r : option Expression * World) :
  getTypeOfType t fuel type position w = Some r ->
  exists r2, getTypeOfType t fuel type position w2 = Some r2
             /\ (fst r = None <-> fst r2 = None).
Proof.
  unfold getTypeOfType.
  destruct (isNever (findReflectionConfig t position)).
  - intros [= <-]. eexists; split; [reflexivity|]. simpl; tauto.
  - intros H. unbind H. unbind H. injection H as <-.
    destruct (extractPackStructOfType_simulates (env t) fuel type _ _
                (newPackStruct w2) E (conj eq_refl eq_refl)) as [e2 [-> HR]].
    destruct (packOpsAndStack_sameOps _ _ _ HR E0) as [r2 [-> Hnone]].
    eexists; split; [reflexivity|]. exact Hnone.
Qed.

Lemma getTypeOfType_returns (t : ReflectionTransformer) (fuel : nat) (type : Node)
  (position : Position) (w w2 : World) :
  getTypeOfType t fuel type position w <> None ->
  getTypeOfType t fuel type position w2 <> None.
Proof.
  destruct (getTypeOfType t fuel type position w) as [r|] eqn:E; [|congruence].
  intros _. destruct (getTypeOfType_simulates t fuel type position w w2 r E)
    as [r2 [-> _]]. discriminate.
Qed.

Lemma decorateMembers_simulates (t : ReflectionTransformer) (fuel : nat)
  (c c2 : ClassDeclaration) :
  classPosition c2 = classPosition c ->
  forall members elements w r elements2 w2,
    decorateMembers t fuel c members elements w = Some r ->
    (elements = [] <-> elements2 = []) ->
    exists r2, decorateMembers t fuel c2 members elements2 w2 = Some r2
               /\ sameKind r r2.
Proof.
  intros Hposition. induction members as [|p members IH];
    intros elements w r elements2 w2 H He; simpl in H |- *.
  - injection H as <-. eexists; split; [reflexivity|exact He].
  - destruct (memberName (element p)) as [name|]; [|eapply IH; eassumption].
    destruct (isTypeMember name).
    { injection H as <-. eexists; split; [reflexivity|exact I]. }
    unbind H.
    assert (Hp : positionOfMember c2 p = positionOfMember c p)
      by (unfold positionOfMember; now rewrite Hposition).
    rewrite Hp.
    destruct (getTypeOfType_simulates t fuel _ _ w w2 _ E) as [[e2 w3] [-> Hnone]].
    destruct p0 as [[encodedType|] w1], e2 as [encodedType2|]; simpl in Hnone.
    + eapply IH; [exact H|]. split; intros Habs; destruct (app_cons_not_nil _ _ _ (eq_sym Habs)).
    + destruct Hnone as [_ Hn]. discriminate (Hn eq_refl).
    + destruct Hnone as [Hn _]. discriminate (Hn eq_refl).
    + eapply IH; eassumption.
Qed.

Lemma decorateMembers_app (t : ReflectionTransformer) (fuel : nat)
  (c : ClassDeclaration) (members extra : list ClassElement) :
  forall elements w,
    decorateMembers t fuel c (members ++ extra) elements w
    = match decorateMembers t fuel c members elements w with
      | Some (Gathered elements' w') => decorateMembers t fuel c extra elements' w'
      | other => other
      end.
Proof.
  induction members as [|p members IH]; intros elements w; simpl; [reflexivity|].
  destruct (memberName (element p)) as [name|]; [|apply IH].
  destruct (isTypeMember name); [reflexivity|].
  destruct (getTypeOfType t fuel (element p) (positionOfMember c p) w)
    as [[[encodedType|] w1]|]; [apply IH|apply IH|reflexivity].
Qed.

(** What the decorator returns, it returns again when given it. *)
Lemma decorateClass_idempotent (t : ReflectionTransformer) (fuel : nat)
  (c c' : ClassDeclaration) (w w' : World) :
  decorateClass t fuel c w = Some (c', w') ->
  exists w'', decorateClass t fuel c' w' = Some (c', w'').
Proof.
  unfold decorateClass at 1.
  destruct (isNever (findReflectionConfig t (classPosition c))) eqn:Hnever.
  { intros [= <- <-]. exists w. now apply decorateClass_never. }
  intros H. unbind H.
  destruct m as [w1|elements w1].
  - injection H as <- <-.
    destruct (decorateMembers_simulates t fuel c c eq_refl _ _ _ _ [] w1 E)
      as [r2 [E2 Hk]]; [tauto|].
    unfold decorateClass. rewrite Hnever, E2.
    destruct r2 as [w3|? ?]; [now exists w3|contradiction].
  - destruct elements as [|x xs].
    + injection H as <- <-.
      destruct (decorateMembers_simulates t fuel c c eq_refl _ _ _ _ [] w1 E)
        as [r2 [E2 Hk]]; [tauto|].
      unfold decorateClass. rewrite Hnever, E2.
      destruct r2 as [w3|e2 w3]; [contradiction|].
      simpl in Hk. destruct Hk as [Hk _]. rewrite (Hk eq_refl). now exists w3.
    + injection H as <- <-.
      set (c' := {| className := className c;
                    classMembers :=
                      classMembers c
                        ++ [typeMember (ObjectLiteralExpression (x :: xs))];
                    classPosition := classPosition c |}).
      destruct (decorateMembers_simulates t fuel c c' eq_refl _ _ _ _ [] w1 E)
        as [r2 [E2 Hk]]; [tauto|].
      unfold decorateClass.
      change (classPosition c') with (classPosition c). rewrite Hnever.
      change (classMembers c')
        with (classMembers c ++ [typeMember (ObjectLiteralExpression (x :: xs))]).
      rewrite decorateMembers_app, E2.
      destruct r2 as [w3|e2 w3]; [contradiction|].
      now exists w3.
Qed.

Lemma isTypeMember_namedType (property : ClassElement) :
  namedType property ->
  exists name, memberName (element property) = Some name /\ isTypeMember name = true.
Proof.
  intros [i [Hname Htext]]. exists (NameNode (NameIdentifier i)).
  unfold memberName. rewrite Hname. split; [reflexivity|].
  simpl. rewrite Htext. reflexivity.
Qed.

(** The loop over the members ends at the member [__type], if the
    extractions of the named members before it return. *)
Lemma decorateMembers_already_decorated (t : ReflectionTransformer) (fuel : nat)
  (c : ClassDeclaration) (before after : list ClassElement) (property : ClassElement) :
  namedType property ->
  (forall p w0, In p before -> memberName (element p) <> None ->
     getTypeOfType t fuel (element p) (positionOfMember c p) w0 <> None) ->
  forall elements w,
    exists w',
      decorateMembers t fuel c (before ++ property :: after) elements w
      = Some (AlreadyDecorated w').
Proof.
  intros Hnamed. induction before as [|p before IH]; intros Hreturn elements w.
  - destruct (isTypeMember_namedType property Hnamed) as [name [Hn Ht]].
    exists w. simpl. rewrite Hn, Ht. reflexivity.
  - assert (IH' := IH (fun q w0 Hq => Hreturn q w0 (or_intror Hq))).
    specialize (Hreturn p w (or_introl eq_refl)).
    simpl. destruct (memberName (element p)) as [name|]; [|apply IH'].
    destruct (isTypeMember name); [now exists w|].
    destruct (getTypeOfType t fuel (element p) (positionOfMember c p) w)
      as [[[encodedType|] w1]|]; [apply IH'|apply IH'|].
    exfalso. apply Hreturn; [discriminate|reflexivity].
Qed.

(** C8 (as the code has it): a class that has a member named by the
    identifier [__type] comes back from the decorator unchanged, where
    [getTypeOfType] returns for the named members before it (their types
    are extracted and packed before the decorator meets [__type]); and
    what the decorator returns, it returns again when given it: decorating
    twice is decorating once. *)
Theorem decorateClass_already_decorated (t : ReflectionTransformer) (fuel : nat)
  (c : ClassDeclaration) (w : World) :
  (forall before property after,
     classMembers c = before ++ property :: after ->
     namedType property ->
     (forall p, In p before -> memberName (element p) <> None ->
        exists w0, getTypeOfType t fuel (element p) (positionOfMember c p) w0 <> None) ->
     exists w', decorateClass t fuel c w = Some (c, w'))
  /\ (forall c' w',
        decorateClass t fuel c w = Some (c', w') ->
        exists w'', decorateClass t fuel c' w' = Some (c', w'')).
Proof.
  split; [|intros c' w'; apply decorateClass_idempotent].
  intros before property after Hmembers Hnamed Hreturn. unfold decorateClass.
  destruct (isNever (findReflectionConfig t (classPosition c))); [now exists w|].
  rewrite Hmembers.
  destruct (decorateMembers_already_decorated t fuel c before after property
              Hnamed) with (elements := @nil (MemberName * Expression)) (w := w)
    as [w' ->]; [|now exists w'].
  intros p w0 Hp Hname. destruct (Hreturn p Hp Hname) as [w1 H1].
  exact (getTypeOfType_returns t fuel _ _ w1 w0 H1).
Qed.

Lemma decorateClass_already_decorated_witness :
  (exists w', decorateClass defaultTransformer 2 (classMDecorated topLevel []) emptyWorld
              = Some (classMDecorated topLevel [], w'))
  /\ (decorateClass defaultTransformer 2 (classM topLevel []) emptyWorld
       = Some (classMDecorated topLevel [], emptyWorld)
       /\ exists w'', decorateClass defaultTransformer 2 (classMDecorated topLevel [])
                        emptyWorld
                      = Some (classMDecorated topLevel [], w'')).
Proof.
  split.
  - apply (proj1 (decorateClass_already_decorated defaultTransformer 2
                    (classMDecorated topLevel []) emptyWorld)
             [titleMember []]
             (typeMember
                (ObjectLiteralExpression
                   [(NameNode (NameIdentifier (ident "title")), StringLiteral "3" true)]))
             []).
    + reflexivity.
    + exists {| text := "__type"; pos := -1 |}. split; reflexivity.
    + intros p [<-|[]] _. exists emptyWorld. discriminate.
  - split; [reflexivity|].
    exact (proj2 (decorateClass_already_decorated defaultTransformer 2
                    (classM topLevel []) emptyWorld)
             (classMDecorated topLevel []) emptyWorld eq_refl).
Defined.

(** * Further properties *)

(** ** The packed integer and its slots *)

Lemma packLoop_packValue (ops : list Z) :
  forall i packedOp,
    0 <= i -> packLoop ops i packedOp = packedOp + packSize ^ i * packValue ops.
Proof.
  induction ops as [|op rest IH]; intros i packedOp Hi; cbn [packLoop packValue].
  - lia.
  - rewrite IH by lia. rewrite Z.pow_add_r, Z.pow_1_r by lia. ring.
Qed.

Lemma packSize_64 : packSize = 64.
Proof. reflexivity. Qed.

Lemma packValue_nonneg (ops : list Z) :
  Forall (fun op => 0 <= op) ops -> 0 <= packValue ops.
Proof.
  induction 1 as [|op rest Hop _ IH]; cbn [packValue]; [lia|].
  rewrite packSize_64. lia.
Qed.

Lemma packValue_app (a b : list Z) :
  packValue (a ++ b) = packValue a + packSize ^ Z.of_nat (List.length a) * packValue b.
Proof.
  induction a as [|op rest IH]; cbn [packValue app List.length].
  - change (Z.of_nat 0) with 0. rewrite Z.pow_0_r. lia.
  - rewrite IH, Nat2Z.inj_succ, Z.pow_succ_r by lia. ring.
Qed.

Lemma slot_nonneg (d i : Z) :
  0 <= d -> 0 <= i -> slot (Some d) i = (d / packSize ^ i) mod packSize.
Proof.
  intros Hd Hi. unfold slot.
  rewrite Z.quot_div_nonneg.
  - change (packSize - 1) with (Z.ones 6). rewrite Z.land_ones by lia.
    unfold packSize, packSizeByte. now rewrite Z.pow_mul_r by lia.
  - exact Hd.
  - apply Z.pow_pos_nonneg; [reflexivity|]. unfold packSizeByte; lia.
Qed.

(** The slot [k] of the packed integer holds the entry [k], for the entries
    that fit a slot, whatever follows them. *)
Lemma slot_packValue (a b : list Z) :
  Forall fitsSlot a -> 0 <= packValue b ->
  forall k, (k < List.length a)%nat ->
            slot (Some (packValue (a ++ b))) (Z.of_nat k) = nth k a 0.
Proof.
  intros Ha Hb. induction Ha as [|op rest Hop Hrest IH]; intros k Hk;
    [simpl in Hk; lia|].
  assert (Hv : 0 <= packValue (rest ++ b)).
  { rewrite packValue_app.
    assert (0 <= packValue rest)
      by (apply packValue_nonneg; eapply Forall_impl; [|exact Hrest];
          unfold fitsSlot; intros; lia).
    assert (0 < packSize ^ Z.of_nat (List.length rest))
      by (apply Z.pow_pos_nonneg; [reflexivity|lia]).
    nia. }
  unfold fitsSlot in Hop. rewrite packSize_64 in Hop.
  cbn [app packValue].
  rewrite slot_nonneg by (rewrite ?packSize_64; lia).
  rewrite packSize_64 in *.
  destruct k as [|k].
  - cbn [nth]. change (64 ^ Z.of_nat 0) with 1. rewrite Z.div_1_r.
    rewrite (Z.mul_comm 64), Z.mod_add by lia.
    apply Z.mod_small. exact Hop.
  - cbn [nth]. rewrite Nat2Z.inj_succ, Z.pow_succ_r by lia.
    rewrite <- Z.div_div by (try apply Z.pow_pos_nonneg; lia).
    rewrite (Z.add_comm op), (Z.mul_comm 64), Z.div_add_l by lia.
    rewrite (Z.div_small op) by exact Hop. rewrite Z.add_0_r.
    rewrite <- packSize_64. rewrite <- slot_nonneg by lia.
    apply IH. simpl in Hk. lia.
Qed.

Lemma unpackSlots_prefix (d : Z) (pre : list Z) :
  (forall k, (k < List.length pre)%nat ->
             slot (Some d) (Z.of_nat k) = nth k pre 0 /\ nth k pre 0 <> 0) ->
  slot (Some d) (Z.of_nat (List.length pre)) = 0 ->
  forall fuel k decodedOps r,
    (k <= List.length pre)%nat ->
    unpackSlots fuel (Some d) (Z.of_nat k) decodedOps = Some r ->
    r = decodedOps ++ skipn k pre.
Proof.
  intros Hslots Hend. induction fuel as [|fuel IH]; intros k decodedOps r Hk H;
    cbn [unpackSlots] in H.
  - destruct (Z.eqb_spec (slot (Some d) (Z.of_nat k)) 0) as [E|E]; [|discriminate H].
    injection H as <-.
    destruct (Nat.eq_dec k (List.length pre)) as [->|Hne].
    + now rewrite skipn_all, app_nil_r.
    + destruct (Hslots k ltac:(lia)) as [Hs Hnz]. congruence.
  - destruct (Z.eqb_spec (slot (Some d) (Z.of_nat k)) 0) as [E|E].
    + injection H as <-.
      destruct (Nat.eq_dec k (List.length pre)) as [->|Hne].
      * now rewrite skipn_all, app_nil_r.
      * destruct (Hslots k ltac:(lia)) as [Hs Hnz]. congruence.
    + assert (Hlt : (k < List.length pre)%nat).
      { destruct (Nat.eq_dec k (List.length pre)) as [->|Hne]; [congruence|lia]. }
      destruct (Hslots k Hlt) as [Hs _].
      replace (Z.of_nat k + 1) with (Z.of_nat (S k)) in H by lia.
      apply IH in H; [|lia]. subst r. rewrite Hs, <- app_assoc. f_equal.
      clear - Hlt. revert k Hlt. induction pre as [|x pre IHp]; intros k Hlt;
        [simpl in Hlt; lia|].
      destruct k as [|k]; [reflexivity|].
      simpl in Hlt. cbn [skipn nth]. apply IHp. lia.
Qed.

(** The slots of the integer give the entries back as far as the first
    zero. *)
Lemma unpackSlots_packValue (pre rest decodedOps : list Z) :
  Forall (fun op => 0 < op < packSize) pre ->
  Forall (fun op => 0 <= op) rest ->
  hd 0 rest = 0 ->
  unpackSlots (slotFuel (Some (packValue (pre ++ rest))))
    (Some (packValue (pre ++ rest))) 0 decodedOps
  = Some (decodedOps ++ pre).
Proof.
  intros Hpre Hrest Hhd.
  set (d := packValue (pre ++ rest)).
  assert (Hd : d = packValue ((pre ++ [0]) ++ tl rest) /\ 0 <= packValue (tl rest)).
  { unfold d. destruct rest as [|x post]; cbn [tl].
    - split; [|simpl; lia]. rewrite !app_nil_r, packValue_app.
      cbn [packValue]. lia.
    - simpl in Hhd. subst x. rewrite <- app_assoc. split; [reflexivity|].
      apply packValue_nonneg. now inversion Hrest. }
  destruct Hd as [Hd Htl].
  assert (Hfits : Forall fitsSlot (pre ++ [0])).
  { apply Forall_app. split.
    - eapply Forall_impl; [|exact Hpre]. unfold fitsSlot. intros; lia.
    - repeat constructor; unfold fitsSlot; rewrite ?packSize_64; lia. }
  assert (Hslot : forall k, (k < List.length (pre ++ [0%Z]))%nat ->
            slot (Some d) (Z.of_nat k) = nth k (pre ++ [0]) 0).
  { intros k Hk. rewrite Hd. now apply slot_packValue. }
  destruct (unpackSlots (slotFuel (Some d)) (Some d) 0 decodedOps) as [r|] eqn:E.
  - apply (unpackSlots_prefix d pre) with (k := 0%nat) in E; [now subst r| | |lia].
    + intros k Hk. rewrite Hslot by (rewrite length_app; simpl; lia).
      rewrite app_nth1 by exact Hk. split; [reflexivity|].
      rewrite Forall_forall in Hpre.
      specialize (Hpre (nth k pre 0) (nth_In _ _ Hk)). lia.
    + rewrite Hslot by (rewrite length_app; simpl; lia).
      rewrite app_nth2 by lia. now rewrite Nat.sub_diag.
  - exfalso. revert E. apply unpackSlots_returns. unfold slotFuel.
    pose proof (Z.log2_nonneg (Z.abs d)).
    pose proof (Z.div_pos (Z.log2 (Z.abs d)) packSizeByte ltac:(lia) ltac:(reflexivity)).
    lia.
Qed.

(** ** The text of the packed integer *)

Lemma digit_cases (d : Z) :
  0 <= d < 36 -> In d (map Z.of_nat (seq 0 36)).
Proof.
  intros H. replace d with (Z.of_nat (Z.to_nat d)) by lia.
  apply in_map, in_seq. lia.
Qed.

Lemma digitValue_digitChar (d : Z) :
  0 <= d < 36 -> digitValue 36 (digitChar d) = Some d.
Proof.
  intros H. apply digit_cases in H. cbv [seq map] in H.
  repeat (destruct H as [<-|H]; [reflexivity|]). destruct H.
Qed.

(** A digit at the head of a text is no white space and no sign. *)
Lemma parseInt_digit_head (d : Z) (rest : string) :
  0 <= d < 36 ->
  parseInt (String (digitChar d) rest) 36
  = match readDigits 36 (String (digitChar d) rest) None with
    | Some m => Some (roundToDouble (1 * m))
    | None => None
    end.
Proof.
  intros H. apply digit_cases in H. cbv [seq map] in H.
  repeat (destruct H as [<-|H]; [reflexivity|]). destruct H.
Qed.

Lemma readDigits_digitsOf :
  forall fuel n acc,
    0 < n < 36 ^ Z.of_nat fuel ->
    readDigits 36 (digitsOf fuel 36 n acc) None = readDigits 36 acc (Some n).
Proof.
  induction fuel as [|fuel IH]; intros n acc Hn.
  - change (36 ^ Z.of_nat 0) with 1 in Hn. lia.
  - rewrite Nat2Z.inj_succ, Z.pow_succ_r in Hn by lia.
    cbn [digitsOf].
    assert (Hmod : 0 <= n mod 36 < 36) by (apply Z.mod_pos_bound; lia).
    pose proof (Z.div_mod n 36 ltac:(lia)) as Hdm.
    destruct (Z.eqb_spec (n / 36) 0) as [E|E].
    + cbn [readDigits]. rewrite digitValue_digitChar by exact Hmod.
      f_equal. f_equal. lia.
    + assert (0 <= n / 36) by (apply Z.div_pos; lia).
      rewrite IH.
      * cbn [readDigits]. rewrite digitValue_digitChar by exact Hmod.
        f_equal. f_equal. lia.
      * split; [lia|]. apply Z.div_lt_upper_bound; lia.
Qed.

Lemma below_power_of_radix (n : Z) :
  0 < n -> n < 36 ^ Z.of_nat (S (Z.to_nat (Z.log2 n))).
Proof.
  intros H. pose proof (Z.log2_nonneg n).
  rewrite Nat2Z.inj_succ, Z2Nat.id by lia.
  pose proof (Z.log2_spec n H) as [_ Hlt].
  eapply Z.lt_le_trans; [exact Hlt|].
  apply Z.pow_le_mono_l. lia.
Qed.

(** Reading the text of a non-negative integer gives the integer. *)
Lemma readDigits_bigIntToString (n : Z) :
  0 <= n -> readDigits 36 (bigIntToString n 36) None = Some n.
Proof.
  intros H. unfold bigIntToString.
  destruct (Z.eqb_spec n 0) as [->|Hne]; [reflexivity|].
  destruct (Z.ltb_spec n 0); [lia|].
  rewrite readDigits_digitsOf; [reflexivity|].
  split; [lia|]. apply below_power_of_radix. lia.
Qed.

Lemma digitsOf_head :
  forall fuel n acc,
    0 <= n ->
    exists d rest, 0 <= d < 36 /\ digitsOf (S fuel) 36 n acc = String (digitChar d) rest.
Proof.
  induction fuel as [|fuel IH]; intros n acc Hn.
  - assert (Hmod : 0 <= n mod 36 < 36) by (apply Z.mod_pos_bound; lia).
    cbn [digitsOf]. destruct (n / 36 =? 0); eauto.
  - assert (Hmod : 0 <= n mod 36 < 36) by (apply Z.mod_pos_bound; lia).
    cbn [digitsOf]. destruct (n / 36 =? 0); [eauto|].
    apply (IH (n / 36) (String (digitChar (n mod 36)) acc)).
    apply Z.div_pos; lia.
Qed.

(** [parseInt(n.toString(36), 36)] is [n] as a Number. *)
Lemma parseInt_bigIntToString (n : Z) :
  parseInt (bigIntToString n 36) 36 = Some (roundToDouble n).
Proof.
  destruct (Z.lt_trichotomy n 0) as [Hneg|[->|Hpos]]; [| reflexivity |].
  - pose proof (readDigits_bigIntToString (- n) ltac:(lia)) as Hread.
    unfold bigIntToString in *.
    destruct (Z.eqb_spec n 0); [lia|]. destruct (Z.eqb_spec (- n) 0); [lia|].
    destruct (Z.ltb_spec n 0); [|lia]. destruct (Z.ltb_spec (- n) 0); [lia|].
    unfold parseInt. cbn [trimStart]. change (isWhiteSpace "-") with false. cbv iota.
    rewrite Hread. f_equal. f_equal. lia.
  - pose proof (readDigits_bigIntToString n ltac:(lia)) as Hread.
    unfold bigIntToString in *.
    destruct (Z.eqb_spec n 0); [lia|]. destruct (Z.ltb_spec n 0); [lia|].
    destruct (digitsOf_head (Z.to_nat (Z.log2 n)) n EmptyString ltac:(lia))
      as [d [rest [Hd Hs]]].
    rewrite Hs in *. rewrite (parseInt_digit_head d rest Hd), Hread.
    f_equal. f_equal. lia.
Qed.

(** ** What [pack] keeps apart *)

Lemma packValue_injective (o1 o2 : list Z) :
  Forall fitsSlot o1 -> Forall fitsSlot o2 ->
  List.length o1 = List.length o2 ->
  packValue o1 = packValue o2 -> o1 = o2.
Proof.
  intros H1 H2 Hlen Hv.
  apply (nth_ext o1 o2 0 0 Hlen). intros k Hk.
  rewrite <- (slot_packValue o1 [] H1 ltac:(simpl; lia) k Hk).
  rewrite <- (slot_packValue o2 [] H2 ltac:(simpl; lia) k ltac:(lia)).
  now rewrite !app_nil_r, Hv.
Qed.

Lemma fitsSlot_nonneg (o : list Z) :
  Forall fitsSlot o -> Forall (fun op => 0 <= op) o.
Proof.
  intros H. eapply Forall_impl; [|exact H]. unfold fitsSlot. intros; lia.
Qed.

Lemma packText_injective (o1 o2 : list Z) :
  Forall fitsSlot o1 -> Forall fitsSlot o2 ->
  List.length o1 = List.length o2 ->
  bigIntToString (packLoop o1 0 0) 36 = bigIntToString (packLoop o2 0 0) 36 ->
  o1 = o2.
Proof.
  intros H1 H2 Hlen Ht.
  rewrite !packLoop_packValue in Ht by lia.
  rewrite !Z.pow_0_r, !Z.mul_1_l, !Z.add_0_l in Ht.
  apply packValue_injective; try assumption.
  pose proof (packValue_nonneg o1 (fitsSlot_nonneg o1 H1)) as P1.
  pose proof (packValue_nonneg o2 (fitsSlot_nonneg o2 H2)) as P2.
  pose proof (readDigits_bigIntToString _ P1) as R1.
  pose proof (readDigits_bigIntToString _ P2) as R2.
  rewrite Ht in R1. congruence.
Qed.

(** X2: [pack] keeps apart any two structs whose opcodes fit a slot and are
    equally many: equal packed values come from equal opcodes and equal
    stacks. *)
Theorem pack_injective (p1 p2 : PackStruct) :
  Forall fitsSlot (ops p1) -> Forall fitsSlot (ops p2) ->
  List.length (ops p1) = List.length (ops p2) ->
  pack (OfStruct p1) = pack (OfStruct p2) ->
  p1 = p2.
Proof.
  destruct p1 as [o1 s1], p2 as [o2 s2]. cbn [ops stack pack].
  intros H1 H2 Hlen Hp.
  destruct s1 as [|e1 s1], s2 as [|e2 s2]; try discriminate Hp.
  - injection Hp as Ht. f_equal. now apply packText_injective.
  - injection Hp as He Hp.
    apply app_inj_tail in Hp. destruct Hp as [Hs Ht].
    injection Ht as Ht. rewrite He, Hs. f_equal. now apply packText_injective.
Qed.

Lemma pack_injective_witness :
  {| ops := [3; 14; 1]; stack := [EString "title"] |}
  = {| ops := [3; 14; 1]; stack := [EString "title"] |}.
Proof.
  apply pack_injective.
  - repeat constructor; discriminate.
  - repeat constructor; discriminate.
  - reflexivity.
  - reflexivity.
Defined.

(** ** The twelve characters that [unpackOps] leaves unread *)

Lemma string_length_append (s1 s2 : string) :
  String.length (s1 ++ s2)%string = (String.length s1 + String.length s2)%nat.
Proof. induction s1 as [|c s1 IH]; simpl; [reflexivity|now rewrite IH]. Qed.

Lemma substring_append_prefix (t u : string) :
  substring 0 (String.length t) (t ++ u)%string = t.
Proof. induction t as [|c t IH]; simpl; [now destruct u|now rewrite IH]. Qed.

Lemma substring_whole (m : nat) (t : string) :
  (String.length t <= m)%nat -> substring 0 m t = t.
Proof.
  revert t; induction m as [|m IH]; intros [|c t] H; simpl in *;
    try reflexivity; try lia.
  rewrite IH by lia. reflexivity.
Qed.

Lemma sliceDropLast_append (t u : string) :
  String.length u = 12%nat -> sliceDropLast 12 (t ++ u)%string = t.
Proof.
  intros Hu. unfold sliceDropLast. rewrite string_length_append, Hu.
  replace (String.length t + 12 - 12)%nat with (String.length t) by lia.
  apply substring_append_prefix.
Qed.

Lemma sliceLast_short (t : string) :
  (String.length t <= 12)%nat -> sliceLast 12 t = t.
Proof.
  intros H. unfold sliceLast.
  replace (String.length t - 12)%nat with 0%nat by lia.
  now apply substring_whole.
Qed.

Lemma digitsOf_length :
  forall fuel n acc k,
    0 <= n < 36 ^ Z.of_nat k -> (1 <= k)%nat ->
    (String.length (digitsOf fuel 36 n acc) <= String.length acc + k)%nat.
Proof.
  induction fuel as [|fuel IH]; intros n acc k Hn Hk; cbn [digitsOf]; [lia|].
  destruct (Z.eqb_spec (n / 36) 0) as [E|E]; [simpl; lia|].
  destruct k as [|[|k]]; [lia| |].
  - exfalso. apply E. apply Z.div_small. change (36 ^ Z.of_nat 1) with 36 in Hn. lia.
  - specialize (IH (n / 36) (String (digitChar (n mod 36)) acc) (S k)).
    simpl String.length in IH.
    assert (0 <= n / 36 < 36 ^ Z.of_nat (S k)).
    { split; [apply Z.div_pos; lia|].
      apply Z.div_lt_upper_bound; [lia|].
      rewrite (Nat2Z.inj_succ (S k)), Z.pow_succ_r in Hn by lia. lia. }
    specialize (IH ltac:(assumption) ltac:(lia)). lia.
Qed.

(** A non-negative integer below [36 ^ 12] has at most twelve digits in
    base 36. *)
Lemma bigIntToString_short (p : Z) :
  0 <= p < 36 ^ 12 -> (String.length (bigIntToString p 36) <= 12)%nat.
Proof.
  intros H. unfold bigIntToString.
  destruct (Z.eqb_spec p 0); [simpl; lia|].
  destruct (Z.ltb_spec p 0); [lia|].
  pose proof (digitsOf_length (S (Z.to_nat (Z.log2 p))) p EmptyString 12) as L.
  change (String.length EmptyString) with 0%nat in L.
  change (Z.of_nat 12) with 12 in L.
  specialize (L H ltac:(lia)). lia.
Qed.

Lemma bigIntToString_nonempty (p : Z) :
  0 <= p -> bigIntToString p 36 <> EmptyString.
Proof.
  intros H. unfold bigIntToString.
  destruct (Z.eqb_spec p 0); [discriminate|].
  destruct (Z.ltb_spec p 0); [lia|].
  destruct (digitsOf_head (Z.to_nat (Z.log2 p)) p EmptyString H) as [d [rest [_ E]]].
  rewrite E. discriminate.
Qed.

Lemma unpackOpsLoop_step (fuel : nat) (decodedOps : list Z) (s : string) :
  s <> EmptyString ->
  unpackOpsLoop (S fuel) decodedOps s
  = match unpackSlots (slotFuel (parseInt (sliceLast 12 (sliceDropLast 12 s)) 36))
            (parseInt (sliceLast 12 (sliceDropLast 12 s)) 36) 0 decodedOps with
    | Some decodedOps' => unpackOpsLoop fuel decodedOps' (sliceDropLast 12 s)
    | None => None
    end.
Proof. destruct s; [congruence|reflexivity]. Qed.

Lemma roundToDouble_exact (p : Z) :
  Z.abs p < 2 ^ 53 -> roundToDouble p = p.
Proof.
  intros H. unfold roundToDouble.
  destruct (Z.ltb_spec (Z.abs p) (2 ^ 53)); [reflexivity|lia].
Qed.

(** X1: the inner loop of [unpackOps] reads what the loop of [pack] built
    back into the opcodes, one slot each, as far as the first zero, where
    the packed integer is below [2 ^ 53]: the number that [parseInt] reads
    from the text is then that integer, the opcodes before the first zero
    come back, and what follows an address 0 (or the end of the sequence)
    does not. *)
Theorem unpackSlots_stops_at_zero (pre rest decodedOps : list Z) :
  Forall (fun op => 0 < op < packSize) pre ->
  Forall (fun op => 0 <= op) rest ->
  hd 0 rest = 0 ->
  packLoop (pre ++ rest) 0 0 < 2 ^ 53 ->
  unpackSlots
    (slotFuel (parseInt (bigIntToString (packLoop (pre ++ rest) 0 0) 36) 36))
    (parseInt (bigIntToString (packLoop (pre ++ rest) 0 0) 36) 36) 0 decodedOps
  = Some (decodedOps ++ pre).
Proof.
  intros Hpre Hrest Hhd Hsmall.
  rewrite parseInt_bigIntToString.
  rewrite packLoop_packValue in * by lia.
  rewrite Z.pow_0_r, Z.mul_1_l, Z.add_0_l in *.
  assert (Hp : 0 <= packValue (pre ++ rest)).
  { apply packValue_nonneg, Forall_app. split; [|exact Hrest].
    eapply Forall_impl; [|exact Hpre]. cbv beta. intros; lia. }
  rewrite roundToDouble_exact by lia.
  now apply unpackSlots_packValue.
Qed.

Lemma unpackSlots_stops_at_zero_witness :
  unpackSlots
    (slotFuel
       (parseInt (bigIntToString (packLoop ([3; 14] ++ [0; 4; 14; 1; 29]) 0 0) 36) 36))
    (parseInt (bigIntToString (packLoop ([3; 14] ++ [0; 4; 14; 1; 29]) 0 0) 36) 36)
    0 []
  = Some ([] ++ [3; 14]).
Proof.
  apply (unpackSlots_stops_at_zero [3; 14] [0; 4; 14; 1; 29] []).
  - repeat constructor.
  - repeat constructor; discriminate.
  - reflexivity.
  - reflexivity.
Defined.

(** X3: [unpack] reads the text of [pack] only when twelve further characters
    follow it, whatever they are: it then gives the opcodes before the first
    zero, as long as the packed integer is one that a double holds exactly. *)
Theorem unpack_reads_before_last_twelve (pre rest : list Z) (t u : string) :
  Forall (fun op => 0 < op < packSize) pre ->
  Forall (fun op => 0 <= op) rest ->
  hd 0 rest = 0 ->
  packLoop (pre ++ rest) 0 0 < 2 ^ 53 ->
  pack (OfOps (pre ++ rest)) = PackedString t ->
  String.length u = 12%nat ->
  unpack (PackedString (t ++ u)) = Some {| ops := pre; stack := [] |}.
Proof.
  intros Hpre Hrest Hhd Hsmall Hpack Hu.
  cbn [pack] in Hpack. injection Hpack as <-.
  set (p := packLoop (pre ++ rest) 0 0) in *.
  assert (Hp : 0 <= p).
  { unfold p. rewrite packLoop_packValue by lia.
    rewrite Z.pow_0_r, Z.mul_1_l, Z.add_0_l.
    apply packValue_nonneg, Forall_app. split; [|exact Hrest].
    eapply Forall_impl; [|exact Hpre]. cbv beta. intros; lia. }
  assert (Hshort : (String.length (bigIntToString p 36) <= 12)%nat).
  { apply bigIntToString_short. split; [exact Hp|].
    eapply Z.lt_trans; [exact Hsmall|reflexivity]. }
  pose proof (bigIntToString_nonempty p Hp) as Hne.
  set (t := bigIntToString p 36) in *.
  unfold unpack, unpackOps.
  rewrite string_length_append, Hu.
  destruct (String.length t) as [|n] eqn:Ht; [destruct t; [congruence|discriminate]|].
  replace (S n + 12)%nat with (S (S (S (n + 10)))) by lia.
  rewrite unpackOpsLoop_step by (destruct t; [congruence|discriminate]).
  rewrite sliceDropLast_append by exact Hu.
  rewrite sliceLast_short by lia.
  unfold t at 1 2. rewrite parseInt_bigIntToString.
  rewrite roundToDouble_exact by lia.
  unfold p at 1 2. rewrite packLoop_packValue by lia.
  rewrite Z.pow_0_r, Z.mul_1_l, Z.add_0_l.
  rewrite unpackSlots_packValue by assumption.
  cbn [app].
  rewrite unpackOpsLoop_step by exact Hne.
  rewrite sliceDropLast_short by lia.
  reflexivity.
Qed.

Lemma unpack_reads_before_last_twelve_witness :
  unpack (PackedString ("3ur" ++ "............"))
  = Some {| ops := [3; 14; 1]; stack := [] |}.
Proof.
  apply (unpack_reads_before_last_twelve [3; 14; 1] [] "3ur" "............").
  - repeat constructor.
  - constructor.
  - reflexivity.
  - reflexivity.
  - reflexivity.
  - reflexivity.
Defined.

(** ** What [unpack] loses of what [pack] wrote *)

Lemma packValue_bound (ops : list Z) :
  Forall fitsSlot ops ->
  0 <= packValue ops < packSize ^ Z.of_nat (List.length ops).
Proof.
  induction 1 as [|op rest Hop _ IH]; cbn [packValue List.length].
  - change (packSize ^ Z.of_nat 0) with 1. lia.
  - unfold fitsSlot in Hop. rewrite Nat2Z.inj_succ, Z.pow_succ_r by lia.
    rewrite packSize_64 in *. nia.
Qed.

Lemma packText_short (ops : list Z) :
  Forall fitsSlot ops -> (List.length ops <= 10)%nat ->
  (String.length (bigIntToString (packLoop ops 0 0) 36) <= 12)%nat.
Proof.
  intros Hfits Hlen. apply bigIntToString_short.
  rewrite packLoop_packValue by lia. rewrite Z.pow_0_r, Z.mul_1_l, Z.add_0_l.
  pose proof (packValue_bound ops Hfits) as [H0 H1]. split; [exact H0|].
  eapply Z.lt_le_trans; [exact H1|].
  transitivity (packSize ^ 10); [|discriminate].
  apply Z.pow_le_mono_r; [reflexivity|lia].
Qed.

Lemma lastEntry_snoc (items : list StackEntry) (e : StackEntry) :
  lastEntry (items ++ [e]) = Some e.
Proof.
  unfold lastEntry. rewrite length_app. cbn [List.length].
  replace (List.length items + 1 - 1)%nat with (List.length items) by lia.
  rewrite nth_error_app2 by lia. now rewrite Nat.sub_diag.
Qed.

(** X4: what [pack] writes for ten opcodes or fewer, each fitting a slot,
    [unpack] reads back as no opcode at all, with or without a stack: the
    text has at most twelve characters, and those [unpackOps] drops before
    it reads. *)
Theorem unpack_pack_loses_short_ops (p : PackStruct) :
  Forall fitsSlot (ops p) -> (List.length (ops p) <= 10)%nat ->
  exists stack', unpack (pack (OfStruct p)) = Some {| ops := []; stack := stack' |}.
Proof.
  intros Hfits Hlen. pose proof (packText_short (ops p) Hfits Hlen) as Hshort.
  cbn [pack]. set (t := bigIntToString (packLoop (ops p) 0 0) 36) in *.
  destruct (stack p) as [|e entries].
  - exists []. unfold unpack. now rewrite unpackOps_short.
  - unfold unpack. rewrite lastEntry_snoc.
    destruct (negb (String.eqb "string" t)); [now exists []|].
    rewrite unpackOps_short by exact Hshort. eauto.
Qed.

Lemma unpack_pack_loses_short_ops_witness :
  exists stack',
    unpack (pack (OfStruct {| ops := [3; 14; 0; 29]; stack := [EString "title"] |}))
    = Some {| ops := []; stack := stack' |}.
Proof.
  apply (unpack_pack_loses_short_ops
           {| ops := [3; 14; 0; 29]; stack := [EString "title"] |}).
  - repeat constructor; discriminate.
  - simpl. lia.
Defined.

(** X5: [pack] adds the entries into one integer without masking them: an
    entry of [packSize] or more carries into the next slot, and a zero at
    the end leaves no trace, so that different sequences are packed to the
    same value. *)
Theorem pack_collisions (op next : Z) (rest ops : list Z) :
  pack (OfOps (op + packSize :: next :: rest)) = pack (OfOps (op :: next + 1 :: rest))
  /\ pack (OfOps (ops ++ [0])) = pack (OfOps ops).
Proof.
  cbn [pack]. rewrite !packLoop_packValue by lia. split; do 2 f_equal.
  - cbn [packValue]. ring.
  - rewrite packValue_app. cbn [packValue]. ring.
Qed.

(** ** The literal stack *)

Lemma strictEquals_refl (e : StackEntry) : strictEquals e e = true.
Proof. unfold strictEquals. destruct (EntryKey_eq_dec _ _); congruence. Qed.

Lemma indexOfFrom_first (stack : list StackEntry) (entry : StackEntry) :
  forall i index,
    indexOfFrom stack entry i = Some index ->
    (i <= index)%nat
    /\ (exists e, nth_error stack (index - i) = Some e /\ strictEquals e entry = true)
    /\ (forall k e, (k < index - i)%nat -> nth_error stack k = Some e ->
                    strictEquals e entry = false).
Proof.
  induction stack as [|x rest IH]; intros i index H; cbn [indexOfFrom] in H;
    [discriminate|].
  destruct (strictEquals x entry) eqn:E.
  - injection H as <-. rewrite Nat.sub_diag. split; [lia|].
    split; [exists x; split; [reflexivity|exact E]|].
    intros k e Hk. lia.
  - destruct (IH _ _ H) as [Hle [[e [He Heq]] Hbefore]].
    replace (index - i)%nat with (S (index - S i)) by lia.
    split; [lia|]. split; [exists e; split; [exact He|exact Heq]|].
    intros [|k] e' Hk He'; cbn [nth_error] in He'; [congruence|].
    apply (Hbefore k e'); [lia|exact He'].
Qed.

Lemma indexOfFrom_absent (stack : list StackEntry) (entry : StackEntry) :
  forall i, indexOfFrom stack entry i = None ->
            forall k e, nth_error stack k = Some e -> strictEquals e entry = false.
Proof.
  induction stack as [|x rest IH]; intros i H k e He; [now destruct k|].
  cbn [indexOfFrom] in H. destruct (strictEquals x entry) eqn:E; [discriminate|].
  destruct k as [|k]; cbn [nth_error] in He; [congruence|eauto].
Qed.

Lemma indexOfFrom_added (stack : list StackEntry) (entry : StackEntry) :
  forall i, indexOfFrom stack entry i = None ->
            indexOfFrom (stack ++ [entry]) entry i = Some (i + List.length stack)%nat.
Proof.
  induction stack as [|x rest IH]; intros i H; cbn [indexOfFrom app List.length].
  - rewrite strictEquals_refl. f_equal. lia.
  - cbn [indexOfFrom] in H. destruct (strictEquals x entry); [discriminate|].
    rewrite IH by exact H. f_equal. lia.
Qed.

(** X6: the index that [findOrAddStackEntry] returns is the first index of
    the stack it leaves at which an entry [===] the one sought stands. *)
Theorem findOrAddStackEntry_first_index (stack : list StackEntry) (entry : StackEntry) :
  let '(stack', index) := findOrAddStackEntry stack entry in
  0 <= index
  /\ (exists e, nth_error stack' (Z.to_nat index) = Some e
                /\ strictEquals e entry = true)
  /\ (forall k e, (k < Z.to_nat index)%nat -> nth_error stack' k = Some e ->
                  strictEquals e entry = false).
Proof.
  unfold findOrAddStackEntry, indexOf.
  destruct (indexOfFrom stack entry 0) as [index|] eqn:E.
  - destruct (indexOfFrom_first _ _ _ _ E) as [_ [Hat Hbefore]].
    rewrite Nat.sub_0_r in *. rewrite Nat2Z.id. split; [lia|]. split; assumption.
  - rewrite length_app. cbn [List.length].
    replace (Z.to_nat (Z.of_nat (List.length stack + 1) - 1)) with (List.length stack)
      by lia.
    split; [lia|]. split.
    + exists entry. rewrite nth_error_app2, Nat.sub_diag by lia.
      split; [reflexivity|apply strictEquals_refl].
    + intros k e Hk He. rewrite nth_error_app1 in He by exact Hk.
      exact (indexOfFrom_absent _ _ _ E k e He).
Qed.

(** X7: asked again for the same entry, [findOrAddStackEntry] returns the
    same index and adds nothing. *)
Theorem findOrAddStackEntry_again (stack : list StackEntry) (entry : StackEntry) :
  findOrAddStackEntry (fst (findOrAddStackEntry stack entry)) entry
  = findOrAddStackEntry stack entry.
Proof.
  unfold findOrAddStackEntry, indexOf.
  destruct (indexOfFrom stack entry 0) as [index|] eqn:E; cbn [fst].
  - now rewrite E.
  - rewrite (indexOfFrom_added _ _ _ E). f_equal.
    rewrite length_app. cbn [List.length]. lia.
Qed.

(** ** What the extractor leaves of the state it is given *)

Lemma flagsKept_refl (st : Extraction) : flagsKept st st.
Proof. exists []. now rewrite app_nil_r. Qed.

Lemma flagsKept_trans (a b c : Extraction) :
  flagsKept a b -> flagsKept b c -> flagsKept a c.
Proof.
  intros [l1 H1] [l2 H2]. exists (l1 ++ l2). now rewrite H2, H1, app_assoc.
Qed.

Lemma pushWithEntry_world (op : Z) (entry : StackEntry) (st : Extraction) :
  world (pushWithEntry op entry st) = world st.
Proof.
  unfold pushWithEntry. now destruct (findOrAddStackEntry (stackOf st) entry).
Qed.

Lemma extractPackStructOfType_flagsKept (host : Host) :
  forall fuel node st st',
    extractPackStructOfType host fuel node st = Some st' -> flagsKept st st'.
Proof.
  apply extractPackStructOfType_preserves.
  - apply flagsKept_refl.
  - apply flagsKept_trans.
  - intros op st _. exists []. cbn. now rewrite app_nil_r.
  - intros s st. exists []. now rewrite pushWithEntry_world, app_nil_r.
  - intros l st. exists []. now rewrite pushWithEntry_world, app_nil_r.
  - intros typeName st. unfold referenceArrow, createArrowFunction.
    exists []. rewrite pushWithEntry_world. cbn. now rewrite app_nil_r.
  - intros typeName st. exists []. cbn. now rewrite app_nil_r.
  - intros resolved st. unfold ensureImportIsEmitted.
    destruct (importSpecifier resolved); [|apply flagsKept_refl].
    eexists. reflexivity.
Qed.

(** X8: a run of the extractor only adds: the opcodes, the stack and the
    flagged import specifiers it was given are still there when it returns,
    in their places, with what it wrote behind them. *)
Theorem extraction_only_appends (host : Host) (fuel : nat) (node : Node)
  (st st' : Extraction) :
  extractPackStructOfType host fuel node st = Some st' ->
  (exists o, opsOf st' = opsOf st ++ o)
  /\ (exists s, stackOf st' = stackOf st ++ s)
  /\ (exists l, synthesized (world st') = synthesized (world st) ++ l).
Proof.
  intros H.
  destruct (extractPackStructOfType_appendsTo host _ _ _ _ H) as [Ho [Hs _]].
  pose proof (extractPackStructOfType_flagsKept host _ _ _ _ H) as Hl.
  split; [exact Ho|]. split; [exact Hs|exact Hl].
Qed.

Lemma extraction_only_appends_witness :
  (exists o, [4; 3; 14; 0; 29] = [4] ++ o)
  /\ (exists s, [EString "a"] = [] ++ s)
  /\ (exists l, @nil Node = [] ++ l).
Proof.
  exact (extraction_only_appends closedHost 4
           (TypeLiteral
              [PropertySignature (NameIdentifier (ident "a")) false
                 (Some (Token StringKeyword))])
           {| struct := {| ops := [4]; stack := [] |}; world := emptyWorld |}
           _ eq_refl).
Defined.

Lemma kindsKept_refl (st : Extraction) : kindsKept st st.
Proof. exists []. now rewrite app_nil_r. Qed.

Lemma kindsKept_trans (a b c : Extraction) :
  kindsKept a b -> kindsKept b c -> kindsKept a c.
Proof.
  intros [s1 [H1 K1]] [s2 [H2 K2]]. exists (s1 ++ s2). split.
  - now rewrite H2, H1, app_assoc.
  - now rewrite forallb_app, K1, K2.
Qed.

Lemma pushWithEntry_kindsKept (op : Z) (entry : StackEntry) (st : Extraction) :
  extractedKind entry = true -> kindsKept st (pushWithEntry op entry st).
Proof.
  intros Hk. unfold pushWithEntry.
  pose proof (findOrAddStackEntry_spec (stackOf st) entry) as H.
  destruct (findOrAddStackEntry (stackOf st) entry) as [stack' index].
  destruct H as [_ [->|[-> _]]]; unfold kindsKept; cbn.
  - exists []. now rewrite app_nil_r.
  - exists [entry]. split; [reflexivity|]. cbn. now rewrite Hk.
Qed.

Lemma extractPackStructOfType_kindsKept (host : Host) :
  forall fuel node st st',
    extractPackStructOfType host fuel node st = Some st' -> kindsKept st st'.
Proof.
  apply extractPackStructOfType_preserves.
  - apply kindsKept_refl.
  - apply kindsKept_trans.
  - intros op st _. exists []. cbn. now rewrite app_nil_r.
  - intros s st. now apply pushWithEntry_kindsKept.
  - intros l st. now apply pushWithEntry_kindsKept.
  - intros typeName st. unfold referenceArrow, createArrowFunction.
    eapply kindsKept_trans; [|now apply pushWithEntry_kindsKept].
    exists []. cbn. now rewrite app_nil_r.
  - intros typeName st. unfold referenceArrow, createArrowFunction.
    eexists. split; [reflexivity|reflexivity].
  - intros resolved st. unfold ensureImportIsEmitted.
    destruct (importSpecifier resolved); [|apply kindsKept_refl].
    exists []. cbn. now rewrite app_nil_r.
Qed.

(** X9: the literal stack of an extraction holds names, literal nodes and
    arrow functions, and never a number or a boolean. *)
Theorem extracted_stack_kinds (host : Host) (fuel : nat) (node : Node)
  (w : World) (st : Extraction) :
  extractPackStructOfType host fuel node (newPackStruct w) = Some st ->
  forallb extractedKind (stackOf st) = true.
Proof.
  intros H.
  destruct (extractPackStructOfType_kindsKept host _ _ _ _ H) as [s [Hs Hk]].
  rewrite Hs. exact Hk.
Qed.

Lemma extracted_stack_kinds_witness :
  forallb extractedKind [ELiteralNode (literalA 1); ELiteralNode (literalA 2)] = true.
Proof.
  exact (extracted_stack_kinds closedHost 2 unionOfEqualLiterals emptyWorld _ eq_refl).
Defined.

(** ** Members of the same name *)

Lemma forEach_app {A S : Type} (body : A -> S -> option S) (a b : list A) (s : S) :
  forEach body (a ++ b) s = (s' <- forEach body a s ;; forEach body b s').
Proof.
  revert s; induction a as [|x a IH]; intros s; cbn [forEach app]; [reflexivity|].
  destruct (body x s); [apply IH|reflexivity].
Qed.

(** After the loop over some members, each of them that has a name finds
    its name among the members seen. *)
Lemma forEach_members_seen (name : Node -> string)
  (rec : Node -> Extraction -> option Extraction)
  (body : Node -> list Node * Extraction -> option (list Node * Extraction)) :
  (forall member ms st,
     body member (ms, st)
     = if negb (String.eqb (name member) "")
          && existsb (fun v => String.eqb (name v) (name member)) ms
       then Some (ms, st)
       else st' <- rec member st ;; Some (ms ++ [member], st')) ->
  forall l ms0 st0 ms st,
    forEach body l (ms0, st0) = Some (ms, st) ->
    (forall u, In u ms0 -> In u ms)
    /\ (forall v, In v l -> name v <> ""%string ->
                  existsb (fun u => String.eqb (name u) (name v)) ms = true).
Proof.
  intros Hbody. induction l as [|m l IH]; intros ms0 st0 ms st H; cbn [forEach] in H.
  - injection H as <- <-. split; [auto|intros v []].
  - rewrite Hbody in H.
    destruct (negb (String.eqb (name m) "")
              && existsb (fun v => String.eqb (name v) (name m)) ms0) eqn:Eskip.
    + destruct (IH _ _ _ _ H) as [Hsub Hseen]. split; [exact Hsub|].
      intros v [<-|Hv] Hname; [|now apply Hseen].
      apply andb_prop in Eskip. destruct Eskip as [_ Eex].
      apply existsb_exists in Eex. destruct Eex as [u [Hu Heq]].
      apply existsb_exists. exists u. split; [now apply Hsub|exact Heq].
    + destruct (rec m st0) as [st1|]; [|discriminate H].
      destruct (IH _ _ _ _ H) as [Hsub Hseen]. split.
      * intros u Hu. apply Hsub, in_or_app. now left.
      * intros v [<-|Hv] Hname; [|now apply Hseen].
        apply existsb_exists. exists m. split.
        -- apply Hsub, in_or_app. right. now left.
        -- apply String.eqb_refl.
Qed.

Lemma extractMembers_duplicate (host : Host)
  (rec : Node -> Extraction -> option Extraction) (fuel : nat)
  (pre post : list Node) (m v : Node) (acc : list Node * Extraction) :
  memberText host m <> ""%string -> In v pre -> memberText host v = memberText host m ->
  (forall n h,
     extractMembers host rec fuel (InterfaceDeclaration n (pre ++ m :: post) h) acc
     = extractMembers host rec fuel (InterfaceDeclaration n (pre ++ post) h) acc)
  /\ extractMembers host rec fuel (TypeLiteral (pre ++ m :: post)) acc
     = extractMembers host rec fuel (TypeLiteral (pre ++ post)) acc.
Proof.
  intros Hname Hv Hsame. destruct fuel as [|fuel]; [split; reflexivity|].
  destruct acc as [ms0 st0].
  assert (Hloop :
    forall body : Node -> list Node * Extraction -> option (list Node * Extraction),
      (forall member ms st,
         body member (ms, st)
         = if negb (String.eqb (memberText host member) "")
              && existsb (fun v => String.eqb (memberText host v) (memberText host member)) ms
           then Some (ms, st)
           else st' <- rec member st ;; Some (ms ++ [member], st')) ->
      forEach body (pre ++ m :: post) (ms0, st0) = forEach body (pre ++ post) (ms0, st0)).
  { intros body Hbody. rewrite !forEach_app.
    destruct (forEach body pre (ms0, st0)) as [[ms st]|] eqn:E; [|reflexivity].
    cbn [forEach]. rewrite Hbody.
    destruct (forEach_members_seen (memberText host) rec body Hbody _ _ _ _ _ E)
      as [_ Hseen].
    assert (Hex : existsb (fun u => String.eqb (memberText host u) (memberText host m)) ms = true).
    { rewrite <- Hsame. apply Hseen; [exact Hv|]. now rewrite Hsame. }
    rewrite Hex. destruct (String.eqb_spec (memberText host m) ""); [contradiction|].
    reflexivity. }
  split; [intros n h|]; cbn [extractMembers membersOf];
    rewrite Hloop by (intros; reflexivity); reflexivity.
Qed.

(** X10: a member of an interface or of a type literal whose name an
    earlier member of it already has adds nothing to the extraction: the
    type is extracted as if the later member were not there. *)
Theorem duplicate_member_ignored (host : Host) (fuel : nat) (pre post : list Node)
  (m v : Node) (st : Extraction) :
  memberText host m <> ""%string -> In v pre -> memberText host v = memberText host m ->
  (forall n h,
     extractPackStructOfType host fuel (InterfaceDeclaration n (pre ++ m :: post) h) st
     = extractPackStructOfType host fuel (InterfaceDeclaration n (pre ++ post) h) st)
  /\ extractPackStructOfType host fuel (TypeLiteral (pre ++ m :: post)) st
     = extractPackStructOfType host fuel (TypeLiteral (pre ++ post)) st.
Proof.
  intros Hname Hv Hsame. destruct fuel as [|fuel]; [split; reflexivity|].
  destruct (extractMembers_duplicate host (extractPackStructOfType host fuel) fuel
              pre post m v ([], st) Hname Hv Hsame) as [Hi Ht].
  split; [intros n h|]; cbn [extractPackStructOfType].
  - now rewrite Hi.
  - now rewrite Ht.
Qed.

Lemma duplicate_member_ignored_witness :
  extractPackStructOfType closedHost 4
    (TypeLiteral
       ([PropertySignature (NameIdentifier (ident "a")) false (Some (Token StringKeyword))]
        ++ PropertySignature (NameIdentifier (ident "a")) false (Some (Token NumberKeyword))
        :: []))
    (newPackStruct emptyWorld)
  = extractPackStructOfType closedHost 4
      (TypeLiteral
         ([PropertySignature (NameIdentifier (ident "a")) false (Some (Token StringKeyword))]
          ++ []))
      (newPackStruct emptyWorld).
Proof.
  apply (duplicate_member_ignored closedHost 4
           [PropertySignature (NameIdentifier (ident "a")) false (Some (Token StringKeyword))]
           []
           (PropertySignature (NameIdentifier (ident "a")) false (Some (Token NumberKeyword)))
           (PropertySignature (NameIdentifier (ident "a")) false (Some (Token StringKeyword)))
           (newPackStruct emptyWorld)).
  - discriminate.
  - now left.
  - reflexivity.
Defined.

(** ** An interface that refers to itself *)

Lemma forEach_members_subset (name : Node -> string)
  (rec : Node -> Extraction -> option Extraction)
  (body : Node -> list Node * Extraction -> option (list Node * Extraction)) :
  (forall member ms st,
     body member (ms, st)
     = if negb (String.eqb (name member) "")
          && existsb (fun v => String.eqb (name v) (name member)) ms
       then Some (ms, st)
       else st' <- rec member st ;; Some (ms ++ [member], st')) ->
  forall l ms0 st0 ms st,
    forEach body l (ms0, st0) = Some (ms, st) ->
    forall u, In u ms -> In u ms0 \/ In u l.
Proof.
  intros Hbody. induction l as [|m l IH]; intros ms0 st0 ms st H u Hu;
    cbn [forEach] in H.
  - injection H as <- <-. now left.
  - rewrite Hbody in H.
    destruct (negb (String.eqb (name m) "")
              && existsb (fun v => String.eqb (name v) (name m)) ms0).
    + destruct (IH _ _ _ _ H u Hu); [now left|right; now right].
    + destruct (rec m st0) as [st1|]; [|discriminate H].
      destruct (IH _ _ _ _ H u Hu) as [Hin|Hin]; [|right; now right].
      apply in_app_or in Hin. destruct Hin as [Hin|[<-|[]]]; [now left|right; now left].
Qed.

Lemma resolveDeclaration_local (host : Host) (fuel : nat) (j : Identifier)
  (s : Symbol) (d : Node) :
  getSymbolAtLocation host j = Some s ->
  firstDeclaration s = Some d ->
  isImportSpecifier d = false ->
  resolveDeclaration host fuel (EntityIdentifier j)
  = Some (Some {| declaration := d; importSpecifier := None |}).
Proof.
  intros Hs Hd Hi. unfold resolveDeclaration. now rewrite Hs, Hd, Hi.
Qed.

(** The extraction of an interface with a member typed by a reference to
    the interface, and of such a reference, does not return. *)
Lemma self_reference_never_returns (host : Host) (j : Identifier)
  (s : Symbol) (n : Identifier) (pre post : list Node) (p : PropertyName) (q : bool)
  (arguments : option (list Node)) (h : option (list HeritageClause)) :
  knownClassesGet (escapedText j) = None ->
  String.eqb (escapedText j) "Promise" = false ->
  getSymbolAtLocation host j = Some s ->
  firstDeclaration s
  = Some (InterfaceDeclaration n
            (pre ++ PropertySignature p q
                      (Some (TypeReference (EntityIdentifier j) arguments)) :: post) h) ->
  Forall (fun v => memberText host v <> getNameAsString host (Some p)) pre ->
  forall fuel,
    (forall st,
       extractPackStructOfType host fuel
         (InterfaceDeclaration n
            (pre ++ PropertySignature p q
                      (Some (TypeReference (EntityIdentifier j) arguments)) :: post) h) st
       = None)
    /\ (forall st,
          extractPackStructOfType host fuel
            (TypeReference (EntityIdentifier j) arguments) st = None).
Proof.
  intros Hknown Hpromise Hs Hd Hpre.
  set (member := PropertySignature p q
                   (Some (TypeReference (EntityIdentifier j) arguments))) in *.
  set (decl := InterfaceDeclaration n (pre ++ member :: post) h) in *.
  intros fuel.
  assert (Hall : forall bound k, (k <= bound)%nat ->
    (forall st, extractPackStructOfType host k decl st = None)
    /\ (forall st,
          extractPackStructOfType host k
            (TypeReference (EntityIdentifier j) arguments) st = None));
    [|exact (Hall fuel fuel (le_n _))].
  clear fuel. induction bound as [|bound IH]; intros k Hk.
  { replace k with 0%nat by lia. split; reflexivity. }
  destruct k as [|k]; [split; reflexivity|].
  destruct (IH k ltac:(lia)) as [IHdecl IHref].
  split.
  - intros st. unfold decl. cbn [extractPackStructOfType]. fold decl.
    destruct k as [|k]; [reflexivity|].
    assert (Hmember : forall st1,
      extractPackStructOfType host (S k) member st1 = None).
    { intros st1. unfold member. cbn [extractPackStructOfType].
      now rewrite (proj2 (IH k ltac:(lia)) st1). }
    unfold decl. cbn [extractMembers membersOf]. fold member.
    rewrite forEach_app.
    match goal with
    | |- context [forEach ?b pre ?a] =>
        set (body := b); destruct (forEach body pre a) as [[ms st1]|] eqn:E
    end; [|reflexivity].
    cbn [forEach].
    assert (Hbody : forall member ms st,
      body member (ms, st)
      = if negb (String.eqb (memberText host member) "")
           && existsb (fun v => String.eqb (memberText host v) (memberText host member)) ms
        then Some (ms, st)
        else st' <- extractPackStructOfType host (S k) member st ;;
             Some (ms ++ [member], st')) by reflexivity.
    rewrite Hbody.
    assert (Hex : existsb
              (fun v => String.eqb (memberText host v) (memberText host member)) ms
            = false).
    { apply not_true_is_false. intros Hex. apply existsb_exists in Hex.
      destruct Hex as [u [Hu Heq]].
      destruct (forEach_members_subset (memberText host) _ body Hbody _ _ _ _ _ E u Hu)
        as [[]|Hin].
      rewrite Forall_forall in Hpre. apply (Hpre u Hin).
      now apply String.eqb_eq in Heq. }
    rewrite Hex, andb_false_r, Hmember. reflexivity.
  - intros st. cbn [extractPackStructOfType].
    unfold extractPackStructOfTypeReference.
    rewrite Hknown, Hpromise.
    rewrite (resolveDeclaration_local host k j s decl Hs Hd eq_refl).
    cbn [declaration]. unfold decl at 1. apply IHdecl.
Qed.



(** ** Imports that the extractor keeps *)

(** X12: when the name of a type reference, one under which
    [knownClasses] gives nothing and not [Promise], resolves through an
    import specifier to a class or an enum, the extraction that returns has
    flagged that import specifier as synthesized, so that the import is
    kept. *)
Theorem referenced_import_is_flagged (host : Host) (fuel : nat) (typeName : EntityName)
  (typeArguments : option (list Node)) (resolved : Resolved) (specifier : Node)
  (st st' : Extraction) :
  (forall i, typeName = EntityIdentifier i ->
             knownClassesGet (escapedText i) = None
             /\ String.eqb (escapedText i) "Promise" = false) ->
  resolveDeclaration host fuel typeName = Some (Some resolved) ->
  importSpecifier resolved = Some specifier ->
  isClassOrEnum (declaration resolved) = true ->
  extractPackStructOfType host (S fuel) (TypeReference typeName typeArguments) st
  = Some st' ->
  In specifier (synthesized (world st')).
Proof.
  intros Hname Hresolved Hspecifier Hkind H.
  cbn [extractPackStructOfType] in H. unfold extractPackStructOfTypeReference in H.
  assert (Hskip :
    match typeName with
    | EntityIdentifier i => knownClassesGet (escapedText i)
    | QualifiedName _ _ => None
    end = None
    /\ match typeName with
       | EntityIdentifier i => String.eqb (escapedText i) "Promise"
       | QualifiedName _ _ => false
       end = false).
  { destruct typeName as [i|]; [|now split]. exact (Hname i eq_refl). }
  destruct Hskip as [Hk Hp]. rewrite Hk, Hp, Hresolved in H.
  assert (Hflag : forall st0,
    In specifier (synthesized (world (ensureImportIsEmitted resolved st0)))).
  { intros st0. unfold ensureImportIsEmitted. rewrite Hspecifier. cbn.
    apply in_or_app. right. now left. }
  destruct (declaration resolved); try discriminate Hkind.
  - injection H as <-. unfold referenceArrow, createArrowFunction.
    rewrite pushWithEntry_world. cbn [world synthesized]. apply Hflag.
  - unfold referenceArrow, createArrowFunction in H.
    destruct typeArguments as [templates|].
    + unbind H. injection H as <-.
      apply (forEach_preserves flagsKept flagsKept_refl flagsKept_trans _ _
               (extractPackStructOfType_flagsKept host fuel)) in E.
      destruct E as [l Hl]. cbn [world pushOps]. rewrite Hl.
      apply in_or_app. left. cbn [world synthesized withStack]. apply Hflag.
    + injection H as <-. cbn [world synthesized withStack pushOps]. apply Hflag.
Qed.

Lemma referenced_import_is_flagged_witness :
  In modelSpecifier
    (synthesized
       (world
          {| struct :=
               {| ops := [ReflectionOp.class];
                  stack := [EArrow {| arrowId := 0;
                                      arrowBody := AccessIdentifier (ident "Model") |}] |};
             world := {| created := 1; synthesized := [modelSpecifier] |} |})).
Proof.
  apply (referenced_import_is_flagged modelHost 1 (EntityIdentifier (ident "Model")) None
           {| declaration := ClassReference (Some (ident "Model"));
              importSpecifier := Some modelSpecifier |}
           modelSpecifier (newPackStruct emptyWorld)).
  - intros i [= <-]. split; reflexivity.
  - reflexivity.
  - reflexivity.
  - reflexivity.
  - reflexivity.
Defined.

(** ** The search through the exports *)

Lemma firstFound_found {A B : Type} (body : A -> option (option B)) (l : list A) (b : B) :
  firstFound body l = Some (Some b) -> exists a, In a l /\ body a = Some (Some b).
Proof.
  induction l as [|a l IH]; cbn [firstFound]; [discriminate|].
  destruct (body a) as [[b'|]|] eqn:E; [|intros H|discriminate].
  - intros [= <-]. exists a. split; [now left|exact E].
  - destruct (IH H) as [a' [Hin Ha']]. exists a'. split; [now right|exact Ha'].
Qed.

(** X13: a declaration that [resolveImportSpecifier] returns is the first
    declaration of a local symbol of a file that the resolver gave for an
    import or export declaration. *)
Theorem resolveImportSpecifier_sound (host : Host) (fuel : nat) :
  forall (declarationName : string) (importOrExport : ImportOrExport) (d : Node),
    resolveImportSpecifier host fuel declarationName importOrExport = Some (Some d) ->
    exists e source name,
      getExternalModuleFileFromDeclaration host e = Some source
      /\ findDeclarationInFile source name = Some d.
Proof.
  induction fuel as [|fuel IH]; intros declarationName importOrExport d H;
    [discriminate|].
  cbn [resolveImportSpecifier] in H.
  destruct (moduleSpecifier importOrExport) as [[m|]|]; try discriminate H.
  destruct (getExternalModuleFileFromDeclaration host importOrExport)
    as [source|] eqn:Esource; [|discriminate H].
  destruct (findDeclarationInFile source declarationName) as [found|] eqn:Efound.
  - injection H as <-. eauto.
  - apply firstFound_found in H. destruct H as [statement [_ H]].
    destruct statement as [e|]; [|discriminate H].
    destruct (exportClause e) as [[elements|]|]; [|discriminate H|eauto].
    apply firstFound_found in H. destruct H as [element [_ H]].
    destruct (String.eqb _ _); [eauto|discriminate H].
Qed.

Lemma resolveImportSpecifier_sound_witness :
  exists e source name,
    getExternalModuleFileFromDeclaration importingHost e = Some source
    /\ findDeclarationInFile source name = Some userInterface.
Proof.
  exact (resolveImportSpecifier_sound importingHost 1 "User" userImport userInterface
           eq_refl).
Defined.

Lemma firstFound_passed {A B : Type} (body : A -> option (option B)) (pre l : list A) :
  (forall a, In a pre -> body a = Some None) ->
  firstFound body (pre ++ l) = firstFound body l.
Proof.
  induction pre as [|a pre IH]; intros H; cbn [firstFound app]; [reflexivity|].
  rewrite (H a) by now left. apply IH. intros a' Ha'. apply H. now right.
Qed.

Lemma firstFound_none {A B : Type} (body : A -> option (option B)) (l : list A) :
  (forall a, In a l -> body a = Some None) ->
  firstFound body l = Some None.
Proof.
  intros H. rewrite <- (app_nil_r l). now rewrite firstFound_passed.
Qed.

(** X14: files whose [export * from] statements lead round in a circle,
    none of them declaring the name sought, are searched without end: from
    an import or export declaration on the circle, [resolveImportSpecifier]
    does not return. *)
Theorem reexport_cycle_never_resolved (host : Host) (declarationName : string)
  (onCycle : ImportOrExport -> Prop) (e : ImportOrExport) (fuel : nat) :
  (forall x, onCycle x ->
             exists next, leadsTo host declarationName x next /\ onCycle next) ->
  onCycle e ->
  resolveImportSpecifier host fuel declarationName e = None.
Proof.
  intros Hcycle. revert e. induction fuel as [|fuel IH]; intros e He; [reflexivity|].
  destruct (Hcycle e He)
    as [next [[m [source [pre [post [Hm [Hs [Hf [Hst [Hpre Hnext]]]]]]]]] Hon]].
  cbn [resolveImportSpecifier]. rewrite Hm, Hs, Hf, Hst.
  rewrite firstFound_passed.
  - cbn [firstFound]. rewrite Hnext, (IH next Hon). reflexivity.
  - intros statement Hin. rewrite forallb_forall in Hpre.
    specialize (Hpre statement Hin). destruct statement as [x|]; [|reflexivity].
    cbn [passedOver] in Hpre.
    destruct (exportClause x) as [[elements|]|]; [|reflexivity|discriminate].
    apply firstFound_none. intros element Hel. rewrite forallb_forall in Hpre.
    specialize (Hpre element Hel). now destruct (String.eqb _ _).
Qed.

Lemma reexport_cycle_never_resolved_witness :
  resolveImportSpecifier cycleHost 1000 "Thing" exportFromB = None.
Proof.
  apply (reexport_cycle_never_resolved cycleHost "Thing"
           (fun x => x = exportFromB \/ x = exportFromA)).
  - intros x [-> | ->].
    + exists exportFromA. split; [|now right].
      exists "./b"%string, fileB, [], []. repeat split; reflexivity.
    + exists exportFromB. split; [|now left].
      exists "./a"%string, fileA, [OtherStatement], []. repeat split; reflexivity.
  - now left.
Defined.

(** ** What the decorators add *)

Lemma decorateMembers_keys (t : ReflectionTransformer) (fuel : nat)
  (c : ClassDeclaration) (P : MemberName -> Prop) :
  forall members elements w elements' w',
    (forall property name,
       In property members -> memberName (element property) = Some name ->
       isTypeMember name = false -> P name) ->
    decorateMembers t fuel c members elements w = Some (Gathered elements' w') ->
    exists added, elements' = elements ++ added /\ Forall (fun entry => P (fst entry)) added.
Proof.
  induction members as [|p members IH]; intros elements w elements' w' HP H;
    cbn [decorateMembers] in H.
  - injection H as <- <-. exists []. split; [now rewrite app_nil_r|constructor].
  - assert (HP' : forall property name,
       In property members -> memberName (element property) = Some name ->
       isTypeMember name = false -> P name)
      by (intros property name Hin; apply HP; now right).
    destruct (memberName (element p)) as [name|] eqn:En; [|now apply (IH _ _ _ _ HP' H)].
    destruct (isTypeMember name) eqn:Et; [discriminate H|].
    unbind H. destruct p0 as [[encodedType|] w1].
    + destruct (IH _ _ _ _ HP' H) as [added [-> Hadded]].
      exists ((name, encodedType) :: added). split; [now rewrite <- app_assoc|].
      constructor; [|exact Hadded]. apply (HP p name); [now left|exact En|exact Et].
    + now apply (IH _ _ _ _ HP' H).
Qed.

(** X15: the class that [decorateClass] returns is the class it was given,
    or that class with one member more at the end: the static [__type],
    whose object literal has at least one property, each keyed by the name
    of a member of the class. No member is removed, changed or moved. *)
Theorem decorateClass_adds_one_member (t : ReflectionTransformer) (fuel : nat)
  (c c' : ClassDeclaration) (w w' : World) :
  decorateClass t fuel c w = Some (c', w') ->
  c' = c
  \/ exists elements,
       elements <> []
       /\ keyedByMembers c elements
       /\ c' = {| className := className c;
                  classMembers :=
                    classMembers c ++ [typeMember (ObjectLiteralExpression elements)];
                  classPosition := classPosition c |}.
Proof.
  unfold decorateClass.
  destruct (isNever (findReflectionConfig t (classPosition c)));
    [intros [= <- <-]; now left|].
  intros H. unbind H. destruct m as [w1|elements w1]; [injection H as <- <-; now left|].
  destruct elements as [|x xs]; injection H as <- <-; [now left|].
  right. exists (x :: xs). split; [discriminate|]. split; [|reflexivity].
  assert (HP : forall property name,
    In property (classMembers c) -> memberName (element property) = Some name ->
    isTypeMember name = false ->
    isTypeMember name = false
    /\ exists property0,
         In property0 (classMembers c) /\ memberName (element property0) = Some name)
    by eauto.
  destruct (decorateMembers_keys t fuel c _ _ _ _ _ _ HP E) as [added [Heq Hadded]].
  cbn [app] in Heq. rewrite Heq. exact Hadded.
Qed.

Lemma decorateClass_adds_one_member_witness :
  classMDecorated topLevel [] = classM topLevel []
  \/ exists elements,
       elements <> []
       /\ keyedByMembers (classM topLevel []) elements
       /\ classMDecorated topLevel []
          = {| className := className (classM topLevel []);
               classMembers :=
                 classMembers (classM topLevel [])
                   ++ [typeMember (ObjectLiteralExpression elements)];
               classPosition := classPosition (classM topLevel []) |}.
Proof.
  exact (decorateClass_adds_one_member defaultTransformer 2 (classM topLevel [])
           (classMDecorated topLevel []) emptyWorld emptyWorld eq_refl).
Defined.

Lemma extractCallable_function (rec : Node -> Extraction -> option Extraction)
  (parameters : list (option Node)) (type : option Node) (st st' : Extraction) :
  extractCallable rec false false [] parameters type st = Some st' ->
  (parameters = [] /\ type = None /\ st' = st)
  \/ ((parameters <> [] \/ type <> None)
      /\ exists o, opsOf st' = o ++ [ReflectionOp.function]).
Proof.
  unfold extractCallable. intros H.
  destruct parameters as [|p ps], type as [ty|].
  - right. split; [right; discriminate|].
    cbn [forEach] in H. unbind H. injection H as <-. cbn. eauto.
  - injection H as <-. left. now repeat split.
  - right. split; [left; discriminate|].
    unbind H. unbind H. injection H as <-. cbn. eauto.
  - right. split; [left; discriminate|].
    unbind H. injection H as <-. cbn. eauto.
Qed.

Lemma getTypeOfType_function (t : ReflectionTransformer) (fuel : nat)
  (parameters : list (option Node)) (type : option Node) (node : Node)
  (position : Position) (w w' : World) (encodedType : option Expression) :
  isFunctionOf parameters type node ->
  getTypeOfType t fuel node position w = Some (encodedType, w') ->
  encodedType = None
  <-> isNever (findReflectionConfig t position) = true
      \/ (parameters = [] /\ type = None).
Proof.
  intros Hnode. unfold getTypeOfType.
  destruct (isNever (findReflectionConfig t position)).
  { intros [= <- <-]. split; [now left|reflexivity]. }
  intros H. unbind H. unbind H. injection H as <- <-.
  assert (Hc : extractCallable (extractPackStructOfType (env t) (pred fuel))
                 false false [] parameters type (newPackStruct w) = Some e).
  { destruct fuel as [|fuel]; [discriminate E|].
    destruct Hnode as [-> | [-> | [name ->]]]; exact E. }
  apply extractCallable_function in Hc.
  destruct Hc as [[-> [-> ->]]|[Hsome [appended Ho]]].
  - injection E0 as <-. split; [now right|reflexivity].
  - unfold packOpsAndStack in E0. change (ops (struct e)) with (opsOf e) in E0.
    rewrite Ho in E0.
    assert (Hsomething : o <> None).
    { destruct appended; cbn [app] in E0; unbind E0; injection E0 as <-; discriminate. }
    split; [contradiction|].
    intros [Hn|[-> ->]]; [discriminate|]. destruct Hsome; congruence.
Qed.

(** X16: a function expression, an arrow function or a function
    declaration that comes back from its decorator comes back undecorated
    exactly when the reflection mode at it is [never] or it has neither a
    parameter nor an annotated return type. *)
Theorem function_undecorated_iff (t : ReflectionTransformer) (fuel : nat)
  (parameters : list (option Node)) (type : option Node) (name : option Identifier)
  (position : Position) (w w' : World) (r : Decorated) :
  decorateFunctionExpression t fuel (FunctionExpression parameters type) position w
  = Some (r, w')
  \/ decorateArrow t fuel (ArrowFunction parameters type) position w = Some (r, w')
  \/ decorateFunctionDeclaration t fuel (FunctionDeclaration name parameters type)
       position w
     = Some (r, w') ->
  (exists node, r = Undecorated node)
  <-> isNever (findReflectionConfig t position) = true
      \/ (parameters = [] /\ type = None).
Proof.
  assert (Hnone : forall node w0,
    isFunctionOf parameters type node ->
    getTypeOfType t fuel node position w = Some (None, w0) ->
    isNever (findReflectionConfig t position) = true
    \/ (parameters = [] /\ type = None)).
  { intros node w0 Hnode E.
    now apply (getTypeOfType_function t fuel parameters type node position w w0 None
                 Hnode E). }
  assert (Hsome : forall node encodedType w0,
    isFunctionOf parameters type node ->
    getTypeOfType t fuel node position w = Some (Some encodedType, w0) ->
    ~ (isNever (findReflectionConfig t position) = true
       \/ (parameters = [] /\ type = None))).
  { intros node encodedType w0 Hnode E Hyp.
    apply (getTypeOfType_function t fuel parameters type node position w w0 _ Hnode E)
      in Hyp. discriminate Hyp. }
  unfold decorateFunctionExpression, decorateArrow, decorateFunctionDeclaration.
  intros [H|[H|H]]; unbind H; destruct p as [[encodedType|] w1].
  - injection H as <- <-. split; [intros [node Hr]; discriminate Hr|].
    intros Hyp. exfalso. revert Hyp. eapply Hsome; [|exact E]. now left.
  - injection H as <- <-. split; [intros _|eauto].
    eapply Hnone; [|exact E]. now left.
  - injection H as <- <-. split; [intros [node Hr]; discriminate Hr|].
    intros Hyp. exfalso. revert Hyp. eapply Hsome; [|exact E]. right. now left.
  - injection H as <- <-. split; [intros _|eauto].
    eapply Hnone; [|exact E]. right. now left.
  - cbn [functionName] in H. destruct name as [n|]; [|discriminate H].
    injection H as <- <-. split; [intros [node Hr]; discriminate Hr|].
    intros Hyp. exfalso. revert Hyp. eapply Hsome; [|exact E]. right. right. eauto.
  - injection H as <- <-. split; [intros _|eauto].
    eapply Hnone; [|exact E]. right. right. eauto.
Qed.

Lemma function_undecorated_iff_witness :
  decorateArrow defaultTransformer 2 (ArrowFunction [Some (Token StringKeyword)] None)
    topLevel emptyWorld
  = Some (CallExpression objectAssign
            [ArgumentNode (ArrowFunction [Some (Token StringKeyword)] None);
             ArgumentExpression (typeProperty (StringLiteral "vnn" true))],
          emptyWorld)
  /\ ((exists node,
         CallExpression objectAssign
           [ArgumentNode (ArrowFunction [Some (Token StringKeyword)] None);
            ArgumentExpression (typeProperty (StringLiteral "vnn" true))]
         = Undecorated node)
      <-> isNever (findReflectionConfig defaultTransformer topLevel) = true
          \/ ([Some (Token StringKeyword)] = [] /\ @None Node = None)).
Proof.
  split; [reflexivity|].
  apply (function_undecorated_iff defaultTransformer 2 [Some (Token StringKeyword)] None
           None topLevel emptyWorld emptyWorld).
  right. left. reflexivity.
Defined.

(** ** Where the extractor returns *)

Lemma depth_positive (node : Node) : (1 <= depth node)%nat.
Proof. destruct node; simpl; lia. Qed.

Lemma list_max_bound {A : Type} (f : A -> nat) (l : list A) (n : nat) (a : A) :
  (list_max (map f l) <= n)%nat -> In a l -> (f a <= n)%nat.
Proof.
  intros H Ha. apply list_max_le in H. rewrite Forall_forall in H.
  apply H. now apply in_map.
Qed.

Lemma forEach_returns {A S : Type} (body : A -> S -> option S) (l : list A) :
  (forall a, In a l -> forall s, body a s <> None) ->
  forall s, forEach body l s <> None.
Proof.
  induction l as [|a l IH]; intros H s; cbn [forEach]; [discriminate|].
  destruct (body a s) as [s'|] eqn:E.
  - apply IH. intros a' Ha'. apply H. now right.
  - exfalso. apply (H a (or_introl eq_refl) s E).
Qed.

Lemma resolveDeclaration_unknown (host : Host) (fuel : nat) (e : EntityName) :
  (forall i, getSymbolAtLocation host i = None) ->
  resolveDeclaration host fuel e = Some None.
Proof.
  intros H. destruct e as [i|]; [|reflexivity].
  unfold resolveDeclaration. now rewrite H.
Qed.

Lemma extractMembers_returns (host : Host)
  (rec : Node -> Extraction -> option Extraction) (fuel : nat) (decl : Node)
  (acc : list Node * Extraction) :
  (forall i, getSymbolAtLocation host i = None) ->
  (forall member, In member (membersOf decl) -> forall st, rec member st <> None) ->
  extractMembers host rec (S fuel) decl acc <> None.
Proof.
  intros Hclosed Hrec. cbn [extractMembers].
  match goal with
  | |- context [forEach ?b (membersOf decl) acc] =>
      assert (Hloop : forEach b (membersOf decl) acc <> None);
        [|destruct (forEach b (membersOf decl) acc) as [acc1|]; [|congruence]]
  end.
  { apply forEach_returns. intros member Hin [ms st]. cbv beta iota.
    destruct (negb _ && _); [discriminate|].
    destruct (rec member st) eqn:E; [discriminate|].
    exfalso. exact (Hrec member Hin st E). }
  destruct decl; try discriminate.
  destruct heritageClauses as [clauses|]; [|discriminate].
  apply forEach_returns. intros heritage _ acc2.
  destruct (SyntaxKind_eqb (token heritage) ExtendsKeyword); [|discriminate].
  apply forEach_returns. intros [expression|] _ acc3; [|discriminate].
  rewrite resolveDeclaration_unknown by exact Hclosed. discriminate.
Qed.

Lemma extractCallable_returns (rec : Node -> Extraction -> option Extraction)
  (isMethod isConstructor : bool) (modifiers : list SyntaxKind)
  (parameters : list (option Node)) (type : option Node) (st : Extraction) :
  (forall parameterType, In (Some parameterType) parameters ->
                         forall s, rec parameterType s <> None) ->
  (forall t, type = Some t -> forall s, rec t s <> None) ->
  extractCallable rec isMethod isConstructor modifiers parameters type st <> None.
Proof.
  intros Hparameters Htype. unfold extractCallable.
  assert (Hloop : forall s,
    forEach (fun parameter st0 =>
               match parameter with
               | Some parameterType => rec parameterType st0
               | None => Some st0
               end) parameters s <> None).
  { apply forEach_returns. intros [parameterType|] Hin s; [|discriminate].
    now apply Hparameters. }
  destruct parameters as [|p ps], type as [ty|]; try discriminate.
  - cbn [forEach]. destruct (rec ty st) eqn:E; [discriminate|].
    exfalso. exact (Htype ty eq_refl st E).
  - specialize (Hloop st).
    destruct (forEach _ (p :: ps) st) as [st1|]; [|congruence].
    destruct (rec ty st1) eqn:E; [discriminate|].
    exfalso. exact (Htype ty eq_refl st1 E).
  - specialize (Hloop st).
    destruct (forEach _ (p :: ps) st) as [st1|]; [|congruence]. discriminate.
Qed.

Lemma extractPackStructOfType_returns (host : Host) :
  (forall i, getSymbolAtLocation host i = None) ->
  forall fuel node st,
    (depth node <= fuel)%nat -> extractPackStructOfType host fuel node st <> None.
Proof.
  intros Hclosed. induction fuel as [|fuel IH]; intros node st Hd.
  { pose proof (depth_positive node). lia. }
  assert (Hoption : forall type t, type = Some t ->
            (match type with Some t => depth t | None => O end <= fuel)%nat ->
            forall s, extractPackStructOfType host fuel t s <> None).
  { intros type t -> Ht s. now apply IH. }
  assert (Hlist : forall l, (list_max (map depth l) <= fuel)%nat ->
            forall a, In a l -> forall s, extractPackStructOfType host fuel a s <> None).
  { intros l Hl a Ha s. apply IH. exact (list_max_bound depth l fuel a Hl Ha). }
  assert (Hcallable : forall isMethod isConstructor modifiers parameters type,
    (S (Nat.max (list_max (map (fun type => match type with
                                            | Some t => depth t
                                            | None => O
                                            end) parameters))
                (match type with Some t => depth t | None => O end)) <= S fuel)%nat ->
    extractCallable (extractPackStructOfType host fuel) isMethod isConstructor
      modifiers parameters type st <> None).
  { intros isMethod isConstructor modifiers parameters type Hc.
    apply extractCallable_returns.
    - intros parameterType Hin s. apply IH.
      assert (Hm : (list_max (map (fun type => match type with
                                               | Some t => depth t
                                               | None => O
                                               end) parameters) <= fuel)%nat) by lia.
      exact (list_max_bound _ parameters fuel (Some parameterType) Hm Hin).
    - intros t -> s. apply IH. lia. }
  destruct node; cbn [extractPackStructOfType]; simpl in Hd.
  all: try discriminate.
  all: try (now apply Hcallable).
  - destruct kind; discriminate.
  - apply IH. lia.
  - assert (Hl : (list_max (map depth members) <= fuel)%nat) by lia.
    destruct fuel as [|fuel']; [lia|].
    pose proof (extractMembers_returns host (extractPackStructOfType host (S fuel'))
                  fuel' (InterfaceDeclaration name members heritageClauses) ([], st)
                  Hclosed) as Hm.
    destruct (extractMembers _ _ _ _ _); [discriminate|].
    exfalso. apply Hm; [|reflexivity]. cbn [membersOf]. apply Hlist. exact Hl.
  - assert (Hl : (list_max (map depth members) <= fuel)%nat) by lia.
    destruct fuel as [|fuel']; [lia|].
    pose proof (extractMembers_returns host (extractPackStructOfType host (S fuel'))
                  fuel' (TypeLiteral members) ([], st) Hclosed) as Hm.
    destruct (extractMembers _ _ _ _ _); [discriminate|].
    exfalso. apply Hm; [|reflexivity]. cbn [membersOf]. apply Hlist. exact Hl.
  - unfold extractPackStructOfTypeReference.
    destruct (match typeName with
              | EntityIdentifier i => knownClassesGet (escapedText i)
              | QualifiedName _ _ => None
              end); [discriminate|].
    destruct (match typeName with
              | EntityIdentifier i => String.eqb (escapedText i) "Promise"
              | QualifiedName _ _ => false
              end).
    + destruct typeArguments as [[|argument rest]|]; try discriminate.
      destruct (extractPackStructOfType host fuel argument st) eqn:E; [discriminate|].
      exfalso. revert E. apply IH. simpl in Hd. lia.
    + rewrite resolveDeclaration_unknown by exact Hclosed. discriminate.
  - destruct (extractPackStructOfType host fuel node st) eqn:E; [discriminate|].
    exfalso. revert E. apply IH. lia.
  - destruct type as [type|]; [|discriminate].
    destruct (extractPackStructOfType host fuel type st) eqn:E; [discriminate|].
    exfalso. revert E. apply IH. lia.
  - destruct type as [type|]; [|now apply Hcallable].
    destruct (extractPackStructOfType host fuel type st) eqn:E; [discriminate|].
    exfalso. revert E. apply IH. lia.
  - destruct type as [type|]; [|discriminate].
    destruct (extractPackStructOfType host fuel type st) eqn:E; [discriminate|].
    exfalso. revert E. apply IH. lia.
  - destruct (SyntaxKind_eqb (literalKind literal) NullKeyword); discriminate.
  - destruct types as [|t1 [|t2 rest]]; [discriminate| |].
    + apply IH. simpl in Hd. lia.
    + match goal with
      | |- context [forEach ?b ?l ?s] =>
          pose proof (forEach_returns b l (Hlist l ltac:(lia)) s) as Hloop;
            destruct (forEach b l s); [discriminate|congruence]
      end.
  - destruct parameter0 as [parameterType|].
    + destruct (extractPackStructOfType host fuel parameterType st) as [st1|] eqn:E0;
        [|exfalso; revert E0; apply IH; lia].
      destruct (extractPackStructOfType host fuel node st1) eqn:E; [discriminate|].
      exfalso. revert E. apply IH. lia.
    + destruct (extractPackStructOfType host fuel node (pushOps [ReflectionOp.any] st))
        eqn:E; [discriminate|].
      exfalso. revert E. apply IH. lia.
  - destruct kind; discriminate.
Qed.

(** X17: where the checker knows no symbol, the extractor returns for every
    node, within a recursion as deep as the node: no reference leads it
    anywhere. *)
Theorem extraction_returns_without_symbols (host : Host) (fuel : nat) (node : Node)
  (st : Extraction) :
  (forall i, getSymbolAtLocation host i = None) ->
  (depth node <= fuel)%nat ->
  exists st', extractPackStructOfType host fuel node st = Some st'.
Proof.
  intros Hclosed Hd.
  pose proof (extractPackStructOfType_returns host Hclosed fuel node st Hd) as H.
  destruct (extractPackStructOfType host fuel node st) as [st'|]; [eauto|congruence].
Qed.

Lemma extraction_returns_without_symbols_witness :
  exists st', extractPackStructOfType closedHost 5 nestedA (newPackStruct emptyWorld)
              = Some st'.
Proof.
  apply (extraction_returns_without_symbols closedHost 5 nestedA).
  - reflexivity.
  - apply Nat.leb_le. reflexivity.
Defined.

(** ** The loops of [unpack] *)

(** X18: [unpack] returns for every packed value: the loop over the slots
    ends at a zero slot, which is reached past the highest bit of the number
    at the latest, and the loop over the text ends because every round
    leaves a shorter text. *)
Theorem unpack_terminates (p : Packed) : exists r, unpack p = Some r.
Proof.
  assert (H : forall s, exists o, unpackOps [] s = Some o).
  { intros s. pose proof (unpackOpsLoop_returns (String.length s) [] s (le_n _)) as H.
    unfold unpackOps. destruct (unpackOpsLoop _ _ _); [eauto|congruence]. }
  destruct p as [s|items]; unfold unpack.
  - destruct (H s) as [o ->]. eauto.
  - destruct (lastEntry items) as [[s| | | |]|]; eauto.
    destruct (negb (String.eqb "string" s)); [eauto|].
    destruct (H s) as [o ->]. eauto.
Qed.

(** X19: from an array [unpack] never reads an opcode; and it gives the
    elements before the last back as the stack only when the last element
    is the text "string", otherwise no stack either. *)
Theorem unpack_array_no_opcode (items : list StackEntry) :
  exists stack',
    unpack (PackedArray items) = Some {| ops := []; stack := stack' |}
    /\ (stack' = []
        \/ (stack' = dropLastEntry items
            /\ lastEntry items = Some (EString "string"))).
Proof.
  unfold unpack.
  destruct (lastEntry items) as [[s| | | |]|] eqn:E;
    try (exists []; split; [reflexivity|now left]).
  destruct (String.eqb_spec "string" s) as [<-|Hne]; cbn [negb].
  - change (unpackOps [] "string") with (Some (@nil Z)).
    destruct (1 <? Z.of_nat (List.length items));
      eexists; (split; [reflexivity|]); [right; now split|now left].
  - exists []. split; [reflexivity|now left].
Qed.

(** ** The claims on re-decoration and on recovery, as stated *)

Lemma tree_member_never_decorated (fuel : nat) (w : World) :
  decorateClass treeTransformer fuel treeClass w = None.
Proof.
  assert (Href : forall k st,
    extractPackStructOfType treeHost k
      (TypeReference (EntityIdentifier (ident "Tree")) None) st = None).
  { intros k st.
    exact (proj2 (self_reference_never_returns treeHost (ident "Tree")
                    {| symbolId := 1; declarations := Some [treeInterface] |}
                    (ident "Tree")
                    [PropertySignature (NameIdentifier (ident "label")) false
                       (Some (Token StringKeyword))]
                    [] (NameIdentifier (ident "next")) false None None
                    eq_refl eq_refl eq_refl eq_refl
                    ltac:(repeat constructor; discriminate) k) st). }
  unfold decorateClass, treeClass.
  cbn [classPosition classMembers decorateMembers element memberName nodeName
       isTypeMember].
  change (isNever (findReflectionConfig treeTransformer topLevel)) with false.
  cbv iota.
  unfold getTypeOfType.
  change (isNever (findReflectionConfig treeTransformer _)) with false.
  cbv iota. cbn [env treeTransformer].
  destruct fuel as [|fuel]; [reflexivity|].
  cbn [extractPackStructOfType]. rewrite Href. reflexivity.
Qed.

(** C8 (as stated) fails, in two ways. The member ['__type'] of
    [class Q { '__type': string }] is named by a string literal, which the
    test of the decorator passes over: the class comes back with a second
    member [__type]. And in [class A { t: Tree; static __type = {} }] the
    decorator extracts [t] before it meets [__type], and the extraction of
    the self-referring [Tree] does not return. *)
Lemma member_named_type_not_always_unchanged :
  ~ (forall t c w,
       (exists property, In property (classMembers c) /\ bearsTypeName property) ->
       exists fuel w', decorateClass t fuel c w = Some (c, w'))
  /\ ~ (forall t c w,
          (exists property, In property (classMembers c) /\ namedType property) ->
          exists fuel w', decorateClass t fuel c w = Some (c, w')).
Proof.
  split; intros H.
  - destruct (H defaultTransformer quotedTypeClass emptyWorld) as [fuel [w' E]].
    { eexists. split; [left; reflexivity|reflexivity]. }
    destruct fuel as [|[|fuel]]; discriminate E.
  - destruct (H treeTransformer treeClass emptyWorld) as [fuel [w' E]].
    { exists (typeMember (ObjectLiteralExpression [])). split.
      - right. now left.
      - eexists. split; reflexivity. }
    rewrite tree_member_never_decorated in E. discriminate E.
Qed.

Lemma thing_search_never_returns (fuel : nat) :
  resolveImportSpecifier thingHost fuel "Message" thingImport = None
  /\ resolveImportSpecifier thingHost fuel "Message" exportFromB = None
  /\ resolveImportSpecifier thingHost fuel "Message" exportFromA = None.
Proof.
  induction fuel as [|fuel [IHimport [IHb IHa]]]; [repeat split; reflexivity|].
  repeat split; cbn [resolveImportSpecifier]; simpl; rewrite ?IHb, ?IHa; reflexivity.
Qed.

Lemma thing_never_resolved (fuel : nat) :
  resolveDeclaration thingHost fuel (EntityIdentifier (ident "Thing")) = None.
Proof.
  unfold resolveDeclaration. simpl.
  now rewrite (proj1 (thing_search_never_returns fuel)).
Qed.

(** C9 (as stated) fails: [Thing] is imported from a file that does not
    declare it and whose [export * from] leads round in a circle; it is no
    known built-in and no declaration is ever found for it, but the
    extractor does not recover with [any]: the search of the resolver, and
    with it the extraction, does not return. *)
Lemma unresolvable_reference_not_recovered :
  ~ (forall host node st,
       neverResolved host node ->
       exists fuel,
         extractPackStructOfType host fuel node st
         = Some (pushOps [ReflectionOp.any] st)).
Proof.
  intros H.
  destruct (H thingHost (TypeReference (EntityIdentifier (ident "Thing")) None)
              (newPackStruct emptyWorld)) as [fuel E].
  { split; [reflexivity|]. split; [discriminate|].
    intros fuel resolved. now rewrite thing_never_resolved. }
  destruct fuel as [|fuel]; [discriminate E|].
  cbn [extractPackStructOfType] in E. unfold extractPackStructOfTypeReference in E.
  change (knownClassesGet (escapedText (ident "Thing"))) with (@None Z) in E.
  change (String.eqb (escapedText (ident "Thing")) "Promise") with false in E.
  cbv iota in E. rewrite thing_never_resolved in E. discriminate E.
Qed.
